(** * fivex eQTL browser: search-text resolver and LocusZoom helpers

    A shallow embedding of the JavaScript helpers of the repository:

    - [retrieveBySuffix], the scale function [pip_cluster] and the
      [PheGET] data source's [annotateData] (module [src/lz-helpers.js]);
    - the search box resolver [parseSearchText] with its two network
      lookups [getOmniSearch] and [getBestVar], and [parseSearch], which
      navigates to what the resolver finds.

    JavaScript values are modelled by the inductive type [value]; strings
    are sequences of code units below 256 ([string]); numbers are the
    IEEE doubles seen as rationals plus the two infinities and NaN.
    Promises are computations over a trace of observable events (network
    requests and console lines) that settle, reject or stay pending. *)

From Stdlib Require Import ZArith QArith Qabs Lqa Ascii String List Bool Lia Permutation Sorted.
From stdpp Require Import base decidable option list strings gmap functions pretty.

Local Open Scope string_scope.
Local Open Scope list_scope.
#[local] Set Warnings "-register-all".

(** ** Numbers *)

(** A JavaScript number.  Every finite double is a rational; the
    comparisons and [Math.abs] below are exact on rationals, and the two
    zeros are identified (they are equal for [===] and [<]). *)
Inductive number :=
| Finite (q : Q)
| PosInfinity
| NegInfinity
| NaN.

Definition int (z : Z) : number := Finite (inject_Z z).

(** [a < b] on numbers: false as soon as one side is NaN. *)
Definition num_lt (a b : number) : bool :=
  match a, b with
  | NaN, _ | _, NaN => false
  | _, NegInfinity => false
  | NegInfinity, _ => true
  | PosInfinity, _ => false
  | Finite _, PosInfinity => true
  | Finite x, Finite y => negb (Qle_bool y x)
  end.

(** [a === b] on numbers. *)
Definition num_eq (a b : number) : bool :=
  match a, b with
  | Finite x, Finite y => Qeq_bool x y
  | PosInfinity, PosInfinity => true
  | NegInfinity, NegInfinity => true
  | _, _ => false
  end.

(** [a <= b] on numbers. *)
Definition num_le (a b : number) : bool := num_lt a b || num_eq a b.

(** [Math.abs]. *)
Definition Math_abs (a : number) : number :=
  match a with
  | Finite x => Finite (Qabs x)
  | PosInfinity | NegInfinity => PosInfinity
  | NaN => NaN
  end.

(** The double nearest to a natural number [n] (ties to even), the
    step that ends [parseInt]: exact below [2^53], infinite from
    [2^1024] on.  (For decimal texts of more than 20 significant digits
    the language lets an engine approximate further; the usual engines
    round correctly, as here.) *)
Definition round_double (n : Z) : number :=
  if (n <? 2 ^ 53)%Z then int n
  else
    let e := (Z.log2 n - 52)%Z in
    let q := Z.shiftr n e in
    let r := (n - Z.shiftl q e)%Z in
    let half := (2 ^ (e - 1))%Z in
    let q' := if (r <? half)%Z then q
              else if (half <? r)%Z then (q + 1)%Z
              else if Z.even q then q else (q + 1)%Z in
    let m := Z.shiftl q' e in
    if (2 ^ 1024 <=? m)%Z then PosInfinity else int m.

Definition num_neg (a : number) : number :=
  match a with
  | Finite x => Finite (- x)
  | PosInfinity => NegInfinity
  | NegInfinity => PosInfinity
  | NaN => NaN
  end.

(** ** Values *)

(** JavaScript values as they come out of [JSON.parse], plus
    [undefined].  The fields of an object are listed in property
    enumeration order. *)
Inductive value :=
| VUndefined
| VNull
| VBool (b : bool)
| VNum (n : number)
| VStr (s : string)
| VArr (elems : list value)
| VObj (fields : list (string * value)).

(** Exceptions and rejection reasons. *)
Inductive error :=
| Error (message : string)
    (* [Error(response.statusText)] thrown by [handleErrors],
       [new Error('Unrecognized sort field')] *)
| TypeError_property (base : value) (name : string)
    (* reading property [name] of [undefined] or [null] *)
| TypeError_not_a_function (name : string)
    (* calling a property that holds no function *)
| TypeError_to_object (v : value)
    (* [Object.entries] of [undefined] or [null] *)
| TypeError_to_primitive
    (* converting to a string an object whose [toString] is no function *)
| Rejection (reason : string).
    (* a rejection coming from the environment: a failed [fetch], a body
       that is not JSON *)

(** Synchronous code: it returns or throws. *)
Inductive completion (A : Type) :=
| Return (a : A)
| Throw (e : error).
Arguments Return {A} a.
Arguments Throw {A} e.

Definition cbind {A B} (c : completion A) (f : A -> completion B) : completion B :=
  match c with
  | Return a => f a
  | Throw e => Throw e
  end.

Notation "'let*' x := c 'in' k" := (cbind c (fun x => k))
  (at level 10, x name, c at level 100, k at level 200).

(** Own property lookup in an object. *)
Fixpoint own_property (fields : list (string * value)) (name : string) : value :=
  match fields with
  | [] => VUndefined
  | (k, v) :: rest => if String.eqb k name then v else own_property rest name
  end.

(** [v.name], for the property names the program reads ([data],
    [gene_id], [chrom], [start], [end], [pos]): none of them lives on a
    prototype, so only objects answer with something else than
    [undefined], and [undefined] and [null] throw. *)
Definition get (v : value) (name : string) : completion value :=
  match v with
  | VUndefined | VNull => Throw (TypeError_property v name)
  | VObj fields => Return (own_property fields name)
  | _ => Return VUndefined
  end.

(** [v[0]]: the first element of an array, the first code unit of a
    string, the property ["0"] of an object. *)
Definition get_0 (v : value) : completion value :=
  match v with
  | VUndefined | VNull => Throw (TypeError_property v "0")
  | VArr elems => Return (match elems with x :: _ => x | [] => VUndefined end)
  | VStr s => Return (match s with String c _ => VStr (String c "") | "" => VUndefined end)
  | VObj fields => Return (own_property fields "0")
  | _ => Return VUndefined
  end.

(** [a === b] against [undefined]. *)
Definition is_undefined (v : value) : bool :=
  match v with VUndefined => true | _ => false end.

(** [a === 'literal']. *)
Definition is_string (v : value) (lit : string) : bool :=
  match v with VStr s => String.eqb s lit | _ => false end.

(** ** Strings and conversions *)

Fixpoint string_drop (n : nat) (s : string) : string :=
  match n, s with
  | S n', String _ r => string_drop n' r
  | _, _ => s
  end.

Fixpoint string_take (n : nat) (s : string) : string :=
  match n, s with
  | S n', String c r => String c (string_take n' r)
  | _, _ => ""
  end.

(** [s.replace(pat, rep)] for a string pattern: the first occurrence of
    [pat] is replaced ([rep] holds no [$] here). *)
Fixpoint String_replace (s pat rep : string) : string :=
  if String.prefix pat s then rep +:+ string_drop (String.length pat) s
  else match s with
       | "" => ""
       | String c r => String c (String_replace r pat rep)
       end.

(** [s.endsWith(suffix)]. *)
Definition endsWith (s suffix : string) : bool :=
  String.eqb (string_drop (String.length s - String.length suffix) s) suffix
  && (String.length suffix <=? String.length s)%nat.

(** White space skipped by [parseInt], among the code units below 256. *)
Definition is_white_space (c : ascii) : bool :=
  let n := nat_of_ascii c in
  ((9 <=? n) && (n <=? 13) || (n =? 32) || (n =? 160))%nat.

Fixpoint trim_start (s : string) : string :=
  match s with
  | String c r => if is_white_space c then trim_start r else s
  | "" => ""
  end.

(** The value of a digit in the given radix (10 or 16). *)
Definition digit_value (radix : Z) (c : ascii) : option Z :=
  let n := Z.of_nat (nat_of_ascii c) in
  let d := if (48 <=? n)%Z && (n <=? 57)%Z then Some (n - 48)%Z
           else if (97 <=? n)%Z && (n <=? 122)%Z then Some (n - 87)%Z
           else if (65 <=? n)%Z && (n <=? 90)%Z then Some (n - 55)%Z
           else None in
  match d with
  | Some v => if (v <? radix)%Z then Some v else None
  | None => None
  end.

(** The longest prefix of digits, read in the given radix; [None] when
    there is no digit at all. *)
Fixpoint parse_digits (radix : Z) (s : string) (acc : option Z) : option Z :=
  match s with
  | String c r =>
      match digit_value radix c with
      | Some d => parse_digits radix r
                    (Some (match acc with Some a => a * radix + d | None => d end)%Z)
      | None => acc
      end
  | "" => acc
  end.

(** [parseInt(s)] on a string, no radix given. *)
Definition parseInt_string (s : string) : number :=
  let s1 := trim_start s in
  let '(negative, s2) :=
    match s1 with
    | String "-" r => (true, r)
    | String "+" r => (false, r)
    | _ => (false, s1)
    end in
  let '(radix, s3) :=
    match s2 with
    | String "0" (String "x" r) => (16%Z, r)
    | String "0" (String "X" r) => (16%Z, r)
    | _ => (10%Z, s2)
    end in
  match parse_digits radix s3 None with
  | None => NaN
  | Some n => if negative then num_neg (round_double n) else round_double n
  end.

Section Conversions.

(** How the engine prints a number that is not an integer below
    [2^53] (shortest round-trip digits, exponents): left open.  Below
    [2^53] every integer is a double of its own and prints with all its
    digits. *)
Variable Number_toString_other : Q -> string.

Definition Number_toString (n : number) : string :=
  match n with
  | NaN => "NaN"
  | PosInfinity => "Infinity"
  | NegInfinity => "-Infinity"
  | Finite q =>
      let q' := Qred q in
      if (Zpos (Qden q') =? 1)%Z && (Z.abs (Qnum q') <? 2 ^ 53)%Z
      then pretty (Qnum q')
      else Number_toString_other q
  end.

(** The string that [String(v)] returns when it returns: arrays join
    their elements with commas, [null] and [undefined] elements
    printing as nothing, and an object prints through the [toString] it
    inherits. *)
Fixpoint ToString (v : value) : string :=
  match v with
  | VUndefined => "undefined"
  | VNull => "null"
  | VBool true => "true"
  | VBool false => "false"
  | VNum n => Number_toString n
  | VStr s => s
  | VArr elems =>
      (fix join (l : list value) : string :=
         match l with
         | [] => ""
         | x :: rest =>
             let sx := match x with
                       | VUndefined | VNull => ""
                       | _ => ToString x
                       end in
             match rest with
             | [] => sx
             | _ :: _ => sx +:+ "," +:+ join rest
             end
         end) elems
  | VObj _ => "[object Object]"
  end.

(** The values [String(v)] returns on: an object that has a field of
    its own named [toString] hides the inherited one, and a field read
    from JSON is no function, so its conversion throws; so does the
    conversion of an array that holds such an object. *)
Fixpoint printable (v : value) : bool :=
  match v with
  | VObj fields => negb (existsb (fun item => String.eqb (fst item) "toString") fields)
  | VArr elems => forallb printable elems
  | _ => true
  end.

(** [String(v)], the conversion behind template literals, [+] with a
    string and [parseInt]. *)
Definition js_String (v : value) : completion string :=
  if printable v then Return (ToString v) else Throw TypeError_to_primitive.

(** [parseInt(v)] on a match group, a string or [undefined], whose
    conversion never throws. *)
Definition parseInt (v : value) : number := parseInt_string (ToString v).

(** [parseInt(v)] on any value. *)
Definition js_parseInt (v : value) : completion number :=
  let* text := js_String v in
  Return (parseInt_string text).

End Conversions.


(** ** Regular expressions *)

(** The fragment of the regular expression syntax the three patterns are
    written in. *)
Inductive regex :=
| Chr (c : ascii)                 (* a literal character *)
| Class (lo hi : ascii)           (* [lo-hi] *)
| Seq (r1 r2 : regex)             (* r1 r2 *)
| Alt (r1 r2 : regex)             (* r1|r2 *)
| Opt (r : regex)                 (* r?, greedy *)
| Plus (r : regex)                (* r+, greedy *)
| Group (n : nat) (r : regex)     (* the n-th capturing parenthesis *)
| Eps.                            (* the empty pattern *)

(** A literal word. *)
Fixpoint Word (w : string) : regex :=
  match w with
  | String c "" => Chr c
  | String c r => Seq (Chr c) (Word r)
  | "" => Eps
  end.

Definition captures := list (nat * string).

Definition in_class (lo hi c : ascii) : bool :=
  (nat_of_ascii lo <=? nat_of_ascii c)%nat && (nat_of_ascii c <=? nat_of_ascii hi)%nat.

(** What was consumed between the input [s] and its suffix [rest]. *)
Definition consumed (s rest : string) : string :=
  string_take (String.length s - String.length rest) s.

Section Matcher.

Context {A : Type}.

(** A matcher takes the rest of the input, the captures so far and a
    continuation; the continuation answers [None] to ask for the next
    alternative (backtracking). *)
Definition matcher := string -> captures -> (string -> captures -> option A) -> option A.

(** Zero or more greedy iterations of [step]; an iteration that
    consumes nothing is refused.  [fuel] bounds the number of
    iterations and is at least the length of the input. *)
Fixpoint iterate (step : matcher) (fuel : nat) : matcher :=
  fun s c k =>
    match fuel with
    | O => k s c
    | S fuel' =>
        match step s c (fun s1 c1 =>
                          if (String.length s1 <? String.length s)%nat
                          then iterate step fuel' s1 c1 k
                          else None) with
        | Some x => Some x
        | None => k s c
        end
    end.

(** The backtracking matcher of a pattern: alternatives left to right,
    quantifiers greedy. *)
Fixpoint rmatch (r : regex) : matcher :=
  fun s c k =>
    match r with
    | Chr a =>
        match s with
        | String b rest => if Ascii.eqb a b then k rest c else None
        | "" => None
        end
    | Class lo hi =>
        match s with
        | String b rest => if in_class lo hi b then k rest c else None
        | "" => None
        end
    | Seq r1 r2 => rmatch r1 s c (fun s1 c1 => rmatch r2 s1 c1 k)
    | Alt r1 r2 =>
        match rmatch r1 s c k with
        | Some x => Some x
        | None => rmatch r2 s c k
        end
    | Opt r1 =>
        match rmatch r1 s c k with
        | Some x => Some x
        | None => k s c
        end
    | Plus r1 =>
        rmatch r1 s c (fun s1 c1 => iterate (rmatch r1) (String.length s1) s1 c1 k)
    | Group n r1 =>
        rmatch r1 s c (fun s1 c1 => k s1 ((n, consumed s s1) :: c1))
    | Eps => k s c
    end.

End Matcher.

(** The array returned by [String.prototype.match] for a pattern
    without the [g] flag: the matched text and the captures. *)
Record match_array := { matched : string; groups : captures }.

(** [m[0]]. *)
Definition whole (m : match_array) : string := matched m.

(** [m[n]] for [n >= 1]: [undefined] when the group took no part. *)
Fixpoint capture (n : nat) (c : captures) : value :=
  match c with
  | [] => VUndefined
  | (i, s) :: rest => if (i =? n)%nat then VStr s else capture n rest
  end.

Definition group (m : match_array) (n : nat) : value := capture n (groups m).

(** The match of [r] that starts at the head of [s]. *)
Definition match_here (r : regex) (s : string) : option match_array :=
  rmatch r s [] (fun rest c => Some {| matched := consumed s rest; groups := c |}).

(** [s.match(r)]: the first position of [s], from the left, where [r]
    matches; [None] is [null]. *)
Fixpoint String_match (s : string) (r : regex) : option match_array :=
  match match_here r s with
  | Some m => Some m
  | None =>
      match s with
      | String _ rest => String_match rest r
      | "" => None
      end
  end.

(** [[1-9][0-9]?|X|Y|MT] *)
Definition chromosome_token : regex :=
  Alt (Seq (Class "1" "9") (Opt (Class "0" "9")))
      (Alt (Chr "X") (Alt (Chr "Y") (Word "MT"))).

(** [[1-9][0-9]+] *)
Definition position_digits : regex := Seq (Class "1" "9") (Plus (Class "0" "9")).

(** [/(chr)?([1-9][0-9]?|X|Y|MT):([1-9][0-9]+)/] *)
Definition chromposPattern : regex :=
  Seq (Opt (Group 1 (Word "chr")))
      (Seq (Group 2 chromosome_token)
           (Seq (Chr ":") (Group 3 position_digits))).

(** [/(chr)?([1-9][0-9]?|X|Y|MT):([1-9][0-9]+)-([1-9][0-9]+)/] *)
Definition rangePattern : regex :=
  Seq (Opt (Group 1 (Word "chr")))
      (Seq (Group 2 chromosome_token)
           (Seq (Chr ":")
                (Seq (Group 3 position_digits)
                     (Seq (Chr "-") (Group 4 position_digits))))).

(** [/(rs[1-9][0-9]+)/] *)
Definition rsPattern : regex :=
  Group 1 (Seq (Word "rs") position_digits).


(** ** Promises, the network and the console *)

(** What the page does that can be observed from outside. *)
Inductive event :=
| Request (url : string)       (* [fetch(url)] *)
| Console (line : string).     (* [console.log(line)] *)

(** The state of a promise once the event loop is idle. *)
Inductive settled (A : Type) :=
| Fulfilled (a : A)
| Rejected (e : error)
| Pending.
Arguments Fulfilled {A} a.
Arguments Rejected {A} e.
Arguments Pending {A}.

(** A promise chain runs over the trace of events so far and leaves the
    extended trace together with its outcome. *)
Definition promise (A : Type) := list event -> settled A * list event.

(** An HTTP response: the two fields [handleErrors] reads and the
    outcome of [response.json()]. *)
Record Response := { ok : bool; statusText : string; json : settled value }.

Definition resolve {A} (a : A) : promise A := fun t => (Fulfilled a, t).

(** The promise a callback body leaves: fulfilled with what the body
    returns, rejected with what it throws. *)
Definition settle {A} (c : completion A) : promise A :=
  fun t => match c with
           | Return a => (Fulfilled a, t)
           | Throw e => (Rejected e, t)
           end.

(** A callback body that first runs [c] and then returns the promise
    [k] makes of its result: when [c] throws, no promise is made and
    the promise of the callback is rejected. *)
Definition after {A B} (c : completion A) (k : A -> promise B) : promise B :=
  match c with
  | Return a => k a
  | Throw e => settle (Throw e)
  end.

(** A promise supplied by the environment. *)
Definition await {A} (o : settled A) : promise A := fun t => (o, t).

(** [p.then(f)] *)
Definition then_ {A B} (p : promise A) (f : A -> promise B) : promise B :=
  fun t => match p t with
           | (Fulfilled a, t') => f a t'
           | (Rejected e, t') => (Rejected e, t')
           | (Pending, t') => (Pending, t')
           end.

(** [p.catch(h)] *)
Definition catch_ {A} (p : promise A) (h : error -> promise A) : promise A :=
  fun t => match p t with
           | (Fulfilled a, t') => (Fulfilled a, t')
           | (Rejected e, t') => h e t'
           | (Pending, t') => (Pending, t')
           end.

Notation "p '.then' f" := (then_ p f) (at level 61, left associativity).
Notation "p '.catch' h" := (catch_ p h) (at level 61, left associativity).

(** [console.log(line)]; it returns [undefined]. *)
Definition console_log (line : string) : promise value :=
  fun t => (Fulfilled VUndefined, (t ++ [Console line])%list).

(** The double quote character, as it appears inside a message. *)
Definition dquote : string := String (ascii_of_nat 34) "".

Section Resolver.

(** The engine: how it prints numbers that are not plain integers,
    and the message it puts in the TypeErrors it raises. *)
Variable Number_toString_other : Q -> string.
Variable engine_message : error -> string.

(** The network: what each URL answers. *)
Variable net : string -> settled Response.

Abbreviation ToString := (ToString Number_toString_other).
Abbreviation js_String := (js_String Number_toString_other).
Abbreviation parseInt := (parseInt Number_toString_other).
Abbreviation js_parseInt := (js_parseInt Number_toString_other).

(** [String(error)]: the name and the message of an error object. *)
Definition Error_toString (e : error) : string :=
  match e with
  | Error "" => "Error"
  | Error message => "Error: " +:+ message
  | TypeError_property _ _ | TypeError_not_a_function _ | TypeError_to_object _
  | TypeError_to_primitive =>
      "TypeError: " +:+ engine_message e
  | Rejection reason => reason
  end.

(** [fetch(url)] *)
Definition fetch (url : string) : promise Response :=
  fun t => (net url, (t ++ [Request url])%list).

Definition failureCallback (error : error) : promise value :=
  console_log ("Error status: " +:+ Error_toString error).

Definition handleErrors (response : Response) : completion Response :=
  if negb (ok response) then Throw (Error (statusText response))
  else Return response.

Definition getOmniSearch (searchText : string) : promise value :=
  let omniurl := "https://portaldev.sph.umich.edu/api/v1/annotation/omnisearch/?q="
                 +:+ searchText +:+ "&build=GRCh38" in
  let data :=
    fetch omniurl
    .then (fun response => settle (handleErrors response))
    .then (fun response => await (json response))
    .then (fun myJson => settle (let* data := get myJson "data" in get_0 data))
    .catch (fun error =>
              console_log ("Omnisearch error, status code: " +:+ Error_toString error)
              .then (fun _ => resolve VUndefined)) in
  data.

(** The template literal is evaluated before anything is fetched: when
    the symbol cannot be converted, [getBestVar] throws and returns no
    promise. *)
Definition getBestVar (symbol : value) : completion (promise value) :=
  let* symbol_text := js_String symbol in
  let bestVarURL := "/api/gene/" +:+ symbol_text +:+ "/bestvar/" in
  let data :=
    fetch bestVarURL
    .then (fun response => settle (handleErrors response))
    .then (fun response => await (json response))
    .then (fun resp => settle (get resp "data"))
    .catch failureCallback in
  Return data.

(** [{type, chrom, start, end}] *)
Definition location (type : string) (chrom start end_ : value) : value :=
  VObj [("type", VStr type); ("chrom", chrom); ("start", start); ("end", end_)].

(** [s.replace('chr', '')] as a method call on any value. *)
Definition call_replace (v : value) : completion value :=
  match v with
  | VUndefined | VNull => Throw (TypeError_property v "replace")
  | VStr s => Return (VStr (String_replace s "chr" ""))
  | _ => Throw (TypeError_not_a_function "replace")
  end.

(** [m !== null && searchText === m[0]]: the array when the test
    holds. *)
Definition is_whole (searchText : string) (m : option match_array) : option match_array :=
  match m with
  | Some a => if String.eqb searchText (whole a) then Some a else None
  | None => None
  end.

Definition parseSearchText (searchText : string) : promise value :=
  let cMatch := String_match searchText chromposPattern in
  let cMatchRange := String_match searchText rangePattern in
  let cMatchRS := String_match searchText rsPattern in
  match is_whole searchText cMatch with
  | Some cMatch =>
      let chrom := group cMatch 2 in
      let pos := parseInt (group cMatch 3) in
      let returnJson := location "variant" chrom (VNum pos) (VNum pos) in
      let jsonPromise := resolve returnJson in
      jsonPromise
  | None =>
  match is_whole searchText cMatchRange with
  | Some cMatchRange =>
      let chrom := group cMatchRange 2 in
      let start := parseInt (group cMatchRange 3) in
      let end_ := parseInt (group cMatchRange 4) in
      let returnJson := location "range" chrom (VNum start) (VNum end_) in
      let jsonPromise := resolve returnJson in
      jsonPromise
  | None =>
  match is_whole searchText cMatchRS with
  | Some _ =>
      let returnType :=
        getOmniSearch searchText
        .then (fun result =>
                 let varData := result in
                 settle (let* chrom := get varData "chrom" in
                         let* start := get varData "start" in
                         let* end_ := get varData "end" in
                         let returnStatus := location "variant" chrom start end_ in
                         Return returnStatus))
        .catch failureCallback in
      returnType
  | None =>
      let jsonResult :=
        getOmniSearch searchText
        .then (fun result =>
                 settle (let* gene_id := get result "gene_id" in
                         if is_undefined gene_id then Return VUndefined
                         else Return gene_id))
        .then (fun gene_id =>
                 after (getBestVar gene_id) (fun bestVar =>
                 let varData :=
                   bestVar
                   .then (fun result =>
                            settle (let* pos_text := get result "pos" in
                                    let* pos := js_parseInt pos_text in
                                    let* chrom_text := get result "chrom" in
                                    let* chrom := call_replace chrom_text in
                                    Return (location "variant" chrom (VNum pos) (VNum pos))))
                   .catch (fun _ =>
                             after (js_String gene_id) (fun gene_text =>
                             console_log ("Unable to the best variant for the gene " +:+ dquote
                                          +:+ gene_text +:+ dquote))) in
                 varData))
        .catch failureCallback in
      jsonResult
  end end end.

End Resolver.

(** ** Field lookup by suffix *)

(** The index keys ["i"], ["i+1"], ... paired with the elements. *)
Fixpoint indexed {A} (i : nat) (l : list A) : list (string * A) :=
  match l with
  | [] => []
  | x :: rest => (pretty i, x) :: indexed (S i) rest
  end.

Fixpoint code_units (s : string) : list value :=
  match s with
  | "" => []
  | String c rest => VStr (String c "") :: code_units rest
  end.

(** [Object.entries(v)]: the own enumerable properties, in enumeration
    order. *)
Definition Object_entries (v : value) : completion (list (string * value)) :=
  match v with
  | VUndefined | VNull => Throw (TypeError_to_object v)
  | VObj fields => Return fields
  | VArr elems => Return (indexed 0 elems)
  | VStr s => Return (indexed 0 (code_units s))
  | VBool _ | VNum _ => Return []
  end.

(** [array.find(p)]: the first element that satisfies [p]. *)
Fixpoint Array_find {A} (p : A -> bool) (l : list A) : option A :=
  match l with
  | [] => None
  | x :: rest => if p x then Some x else Array_find p rest
  end.

Definition retrieveBySuffix (point_data : value) (field_suffix : string) : completion value :=
  let* entries := Object_entries point_data in
  let match_ := Array_find (fun item => endsWith (fst item) field_suffix) entries in
  Return (match match_ with
          | Some item => snd item
          | None => VNull
          end).

(** ** Point shapes *)

Section ScaleFunctions.

(** [Number(v)] for a string, an array or an object, which may throw
    (an object whose own [toString] is no function): left open. *)
Variable ToNumber_other : value -> completion number.

(** [Number(v)], as [>=] takes its operands. *)
Definition value_ToNumber (v : value) : completion number :=
  match v with
  | VUndefined => Return NaN
  | VNull => Return (int 0)
  | VBool true => Return (int 1)
  | VBool false => Return (int 0)
  | VNum n => Return n
  | VStr _ | VArr _ | VObj _ => ToNumber_other v
  end.

(** [v === n] for a number literal [n]. *)
Definition is_number (v : value) (n : Z) : bool :=
  match v with VNum x => num_eq x (int n) | _ => false end.

(** The scale function [pip_cluster]. *)
Definition pip_cluster (parameters input : value) : completion value :=
  if negb (is_undefined input) then
    let* pip_cluster := retrieveBySuffix input ":pip_cluster" in
    if is_number pip_cluster 1 then Return (VStr "cross")
    else if is_number pip_cluster 2 then Return (VStr "square")
    else if is_number pip_cluster 3 then Return (VStr "triangle-up")
    else
      let* n := value_ToNumber pip_cluster in
      if num_le (int 4) n then Return (VStr "triangle-down")
      else Return VNull
  else Return VNull.

End ScaleFunctions.

(** ** The PheGET data source *)

(** Records are objects shared between the array handed to
    [annotateData], its sorted copy and the caller: an array holds
    references into a store.  The fields of a record are numeric; a
    field that is absent reads [undefined], written [None]. *)
Abbreviation ref := nat.
Abbreviation record := (gmap string number).
Abbreviation store := (nat -> gmap string number).

(** [chain.header], as [getURL] fills it from the plot state. *)
Record header := {
  maximum_tss_distance : option number;
  minimum_tss_distance : option number;
  y_field : value
}.

(** [Number(x)] for a number or [undefined]. *)
Definition ToNumber (x : option number) : number :=
  match x with
  | Some n => n
  | None => NaN
  end.

(** [a <= b], [a >= b], [a < b] and [a === b] on numbers or [undefined]. *)
Definition js_le (a b : option number) : bool := num_le (ToNumber a) (ToNumber b).
Definition js_ge (a b : option number) : bool := num_le (ToNumber b) (ToNumber a).
Definition js_lt (a b : option number) : bool := num_lt (ToNumber a) (ToNumber b).
Definition strict_eq (a b : option number) : bool :=
  match a, b with
  | None, None => true
  | Some x, Some y => num_eq x y
  | _, _ => false
  end.

(** [array.sort(compare)]: the sort is stable, and with a consistent
    comparison the sorted array is determined by that; elements are
    inserted from the right, an element going behind those it compares
    greater than.  An exception of the comparison ends the sort.  With
    a comparison that is not consistent (keys that are NaN) the order is
    the engine's own: the definition then gives one permutation, and
    no order is stated of it below. *)
Fixpoint sort_insert {A} (compare : A -> A -> completion Z) (x : A) (l : list A)
  : completion (list A) :=
  match l with
  | [] => Return [x]
  | y :: rest =>
      let* c := compare x y in
      if (0 <? c)%Z
      then let* rest' := sort_insert compare x rest in Return (y :: rest')
      else Return (x :: l)
  end.

Fixpoint Array_sort {A} (compare : A -> A -> completion Z) (l : list A)
  : completion (list A) :=
  match l with
  | [] => Return []
  | x :: rest =>
      let* rest' := Array_sort compare rest in
      sort_insert compare x rest'
  end.

(** [value.top_value_rank = index + 1] for each element, from [index]
    on. *)
Fixpoint assign_ranks (l : list ref) (index : nat) (h : store) : store :=
  match l with
  | [] => h
  | value :: rest =>
      assign_ranks rest (S index)
        (<[value := <["top_value_rank" := int (Z.of_nat index + 1)]> (h value)]> h)
  end.

Section PheGET.

Variable chain : header.
Variable h : store.

Definition getValue (item : record) : completion (option number) :=
  let field := y_field chain in
  if is_string field "log_pvalue" then Return (item !! "log_pvalue")
  else if is_string field "beta" then Return (Some (Math_abs (ToNumber (item !! "beta"))))
  else if is_string field "pip" then Return (item !! "pip")
  else Throw (Error "Unrecognized sort field").

(** The comparison handed to [sort]: most significant first. *)
Definition by_value (a b : ref) : completion Z :=
  let* av := getValue (h a) in
  let* bv := getValue (h b) in
  Return (if strict_eq av bv then 0 else if js_lt av bv then 1 else -1)%Z.

(** [annotateData(records, chain)]: the array returned and the store
    it leaves. *)
Definition annotateData (records : list ref) : completion (list ref * store) :=
  let records :=
    List.filter (fun record =>
                   js_le (h record !! "tss_distance") (maximum_tss_distance chain)
                   && js_ge (h record !! "tss_distance") (minimum_tss_distance chain))
                records in
  let shallow_copy := records in
  let* shallow_copy := Array_sort by_value shallow_copy in
  Return (records, assign_ranks shallow_copy 0 h).

End PheGET.

(** ** The search box *)

(** What the page shows of a search: the events of the resolver, the
    alert box and the navigation. *)
Inductive page_event :=
| Resolver (e : event)         (* a request or a console line *)
| Alert (message : string)     (* [alert(message)] *)
| Location (url : string).     (* [window.location = url] *)

(** A promise chain of the page, over the trace of its events. *)
Definition page (A : Type) := list page_event -> settled A * list page_event.

(** A promise of the resolver inside a chain of the page: its outcome,
    and its events added to the trace (a promise adds to the trace it
    is given and never reads it). *)
Definition run_promise {A} (p : promise A) : page A :=
  fun t => let '(r, evs) := p [] in (r, t ++ map Resolver evs).

Definition page_settle {A} (c : completion A) : page A :=
  fun t => match c with
           | Return a => (Fulfilled a, t)
           | Throw e => (Rejected e, t)
           end.

(** [p.then(f)] and [p.catch(h)] on the page; inside a callback,
    [.THEN] also sequences two statements. *)
Definition page_then {A B} (p : page A) (f : A -> page B) : page B :=
  fun t => match p t with
           | (Fulfilled a, t') => f a t'
           | (Rejected e, t') => (Rejected e, t')
           | (Pending, t') => (Pending, t')
           end.

Definition page_catch {A} (p : page A) (h : error -> page A) : page A :=
  fun t => match p t with
           | (Fulfilled a, t') => (Fulfilled a, t')
           | (Rejected e, t') => h e t'
           | (Pending, t') => (Pending, t')
           end.

Notation "p '.THEN' f" := (page_then p f) (at level 61, left associativity).
Notation "p '.CATCH' h" := (page_catch p h) (at level 61, left associativity).

(** [alert(message)] *)
Definition alert (message : string) : page value :=
  fun t => (Fulfilled VUndefined, t ++ [Alert message]).

(** [window.location = url]; the script goes on until it yields. *)
Definition set_location (url : string) : page value :=
  fun t => (Fulfilled VUndefined, t ++ [Location url]).

(** [a === null] *)
Definition is_null (v : value) : bool :=
  match v with VNull => true | _ => false end.

Section SearchBox.

Variable Number_toString_other : Q -> string.
Variable engine_message : error -> string.
Variable net : string -> settled Response.

Abbreviation js_String := (js_String Number_toString_other).

(** [omniresult === undefined || omniresult.type === 'other' &&
    omniresult.chrom === null && omniresult.start === null &&
    omniresult.end === null] *)
Definition is_unparsed (omniresult : value) : completion bool :=
  if is_undefined omniresult then Return true
  else
    let* type := get omniresult "type" in
    if negb (is_string type "other") then Return false
    else
      let* chrom := get omniresult "chrom" in
      if negb (is_null chrom) then Return false
      else
        let* start := get omniresult "start" in
        if negb (is_null start) then Return false
        else
          let* end_ := get omniresult "end" in
          Return (is_null end_).

(** [failureCallback] on the page; [parseSearch] also hands it a plain
    string, which prints as itself. *)
Definition page_failureCallback (error : error) : page value :=
  run_promise (failureCallback engine_message error).

Definition parseSearch (searchText : string) : page value :=
  run_promise (parseSearchText Number_toString_other engine_message net searchText)
  .THEN (fun omniresult =>
           page_settle (is_unparsed omniresult)
           .THEN (fun unparsed =>
                    if unparsed : bool then
                      alert "Sorry, we are unable to parse your query."
                      .THEN (fun _ =>
                               page_failureCallback
                                 (Rejection "Omnisearch undefined or other"))
                    else page_settle (Return omniresult)))
  .THEN (fun result =>
           page_settle (let* chrom_text := get result "chrom" in
                        call_replace chrom_text)
           .THEN (fun chrom =>
           page_settle (get result "type")
           .THEN (fun type =>
                    if is_string type "variant" then
                      page_settle (js_String chrom)
                      .THEN (fun chrom_text =>
                      page_settle (let* start := get result "start" in js_String start)
                      .THEN (fun start_text =>
                               set_location ("/variant/" +:+ chrom_text +:+ "_"
                                             +:+ start_text)))
                    else page_settle (Return VUndefined))
           .THEN (fun _ =>
           page_settle (get result "type")
           .THEN (fun type =>
                    if is_string type "range" then
                      page_settle (js_String chrom)
                      .THEN (fun chrom_text =>
                      page_settle (let* start := get result "start" in js_String start)
                      .THEN (fun start_text =>
                      page_settle (let* end_ := get result "end" in js_String end_)
                      .THEN (fun end_text =>
                               set_location ("/region/?chrom=" +:+ chrom_text
                                             +:+ "&start=" +:+ start_text
                                             +:+ "&end=" +:+ end_text))))
                    else page_settle (Return VUndefined)))))
  .CATCH page_failureCallback.

End SearchBox.

(** * Vocabulary of the specification *)

(** A name ends with a suffix when it is a prefix followed by it. *)
Definition ends_with (name suffix : string) : Prop :=
  exists prefix, name = prefix +:+ suffix.

(** The strings a pattern matches in full (the pattern between [^] and
    [$]). *)
Inductive lang : regex -> string -> Prop :=
| lang_Chr c : lang (Chr c) (String c "")
| lang_Class lo hi c : in_class lo hi c = true -> lang (Class lo hi) (String c "")
| lang_Seq r1 r2 s1 s2 : lang r1 s1 -> lang r2 s2 -> lang (Seq r1 r2) (s1 +:+ s2)
| lang_Alt_l r1 r2 s : lang r1 s -> lang (Alt r1 r2) s
| lang_Alt_r r1 r2 s : lang r2 s -> lang (Alt r1 r2) s
| lang_Opt_none r : lang (Opt r) ""
| lang_Opt_some r s : lang r s -> lang (Opt r) s
| lang_Plus_one r s : lang r s -> lang (Plus r) s
| lang_Plus_more r s1 s2 : lang r s1 -> lang (Plus r) s2 -> lang (Plus r) (s1 +:+ s2)
| lang_Group n r s : lang r s -> lang (Group n r) s
| lang_Eps : lang Eps "".

(** The optional prefix [(chr)?]. *)
Definition chr_prefix (pre : string) : Prop := pre = "" \/ pre = "chr".

Fixpoint all_digits (s : string) : bool :=
  match s with
  | "" => true
  | String c rest => in_class "0" "9" c && all_digits rest
  end.

(** The input goes on with something else than a digit, or ends. *)
Definition not_digit_start (rest : string) : Prop :=
  match rest with
  | String c _ => in_class "0" "9" c = false
  | "" => True
  end.

(** The number a sequence of decimal digits denotes. *)
Fixpoint decimal_value (acc : Z) (digits : string) : Z :=
  match digits with
  | "" => acc
  | String c rest => decimal_value (acc * 10 + (Z.of_nat (nat_of_ascii c) - 48)) rest
  end.

(** The branch of [parseSearchText] an input takes. *)
Inductive query_kind :=
| Position (m : match_array)
| Range (m : match_array)
| RsNumber
| GeneTerm.

Definition classify (searchText : string) : query_kind :=
  match is_whole searchText (String_match searchText chromposPattern) with
  | Some m => Position m
  | None =>
  match is_whole searchText (String_match searchText rangePattern) with
  | Some m => Range m
  | None =>
  match is_whole searchText (String_match searchText rsPattern) with
  | Some _ => RsNumber
  | None => GeneTerm
  end end end.

(** The URL [getOmniSearch] asks. *)
Definition omniurl (searchText : string) : string :=
  "https://portaldev.sph.umich.edu/api/v1/annotation/omnisearch/?q="
  +:+ searchText +:+ "&build=GRCh38".

(** A successful response with the given JSON body. *)
Definition ok_response (body : value) : settled Response :=
  Fulfilled {| ok := true; statusText := "OK"; json := Fulfilled body |}.

(** The second step of the gene branch of [parseSearchText]: what its
    callback does with the [gene_id] handed over by the first step. *)
Definition best_variant_step (Number_toString_other : Q -> string)
  (engine_message : error -> string) (net : string -> settled Response)
  (gene_id : value) : promise value :=
  after (getBestVar Number_toString_other engine_message net gene_id) (fun bestVar =>
  bestVar
  .then (fun result =>
           settle (let* pos_text := get result "pos" in
                   let* pos := js_parseInt Number_toString_other pos_text in
                   let* chrom_text := get result "chrom" in
                   let* chrom := call_replace chrom_text in
                   Return (location "variant" chrom (VNum pos) (VNum pos))))
  .catch (fun _ =>
            after (js_String Number_toString_other gene_id) (fun gene_text =>
            console_log ("Unable to the best variant for the gene " +:+ dquote
                         +:+ gene_text +:+ dquote)))).

(** The URL [getBestVar] asks for a symbol that prints. *)
Definition bestVarURL (Number_toString_other : Q -> string) (symbol : value) : string :=
  "/api/gene/" +:+ ToString Number_toString_other symbol +:+ "/bestvar/".

(** The answer of a server that does not know the URL. *)
Definition not_found : settled Response :=
  Fulfilled {| ok := false; statusText := "NOT FOUND"; json := Pending |}.

(** A network where one URL answers and every other is not found. *)
Definition serve (url : string) (answer : settled Response)
  (rest : string -> settled Response) : string -> settled Response :=
  fun u => if String.eqb u url then answer else rest u.

(** [{data: [{chrom: "chr19", start: 44908822, end: 44908822}]}] *)
Definition rs7412_body : value :=
  VObj [("data", VArr [VObj [("chrom", VStr "chr19");
                             ("start", VNum (int 44908822));
                             ("end", VNum (int 44908822))]])].

(** [{data: [{gene_id: "ENSG00000130203"}]}] *)
Definition APOE_body : value :=
  VObj [("data", VArr [VObj [("gene_id", VStr "ENSG00000130203")]])].

(** [{data: {pos: "44908822", chrom: "chr19"}}] *)
Definition bestvar_body : value :=
  VObj [("data", VObj [("pos", VStr "44908822"); ("chrom", VStr "chr19")])].

(** [{data: [{}]}] *)
Definition no_gene_id_body : value := VObj [("data", VArr [VObj []])].

Definition net_rs7412 : string -> settled Response :=
  serve (omniurl "rs7412") (ok_response rs7412_body) (fun _ => not_found).

Definition net_APOE : string -> settled Response :=
  serve (omniurl "APOE") (ok_response APOE_body)
    (serve "/api/gene/ENSG00000130203/bestvar/" (ok_response bestvar_body)
       (fun _ => not_found)).

Definition net_no_gene_id (searchText : string) : string -> settled Response :=
  serve (omniurl searchText) (ok_response no_gene_id_body) (fun _ => not_found).

(** A promise behaves the same on every trace: it settles as [r] and
    appends the events [evs]. *)
Definition emits {A} (p : promise A) (r : settled A) (evs : list event) : Prop :=
  forall t, p t = (r, t ++ evs).

(** What [fetch(url).then(handleErrors).then(response => response.json())]
    settles as: the parsed body, or the failure of the request (a
    rejected [fetch], a non-success status, a body that is not JSON). *)
Definition http_result (o : settled Response) : settled value :=
  match o with
  | Fulfilled resp => if ok resp then json resp else Rejected (Error (statusText resp))
  | Rejected e => Rejected e
  | Pending => Pending
  end.

(** [myJson.data[0]] *)
Definition data_0 (myJson : value) : completion value :=
  let* data := get myJson "data" in get_0 data.

(** [getOmniSearch] in one step: its outcome and the events it adds. *)
Definition getOmniSearch_summary (engine_message : error -> string)
  (net : string -> settled Response) (searchText : string)
  : settled value * list event :=
  let failed e :=
    (Fulfilled VUndefined,
     [Request (omniurl searchText);
      Console ("Omnisearch error, status code: " +:+ Error_toString engine_message e)]) in
  match http_result (net (omniurl searchText)) with
  | Fulfilled myJson =>
      match data_0 myJson with
      | Return v => (Fulfilled v, [Request (omniurl searchText)])
      | Throw e => failed e
      end
  | Rejected e => failed e
  | Pending => (Pending, [Request (omniurl searchText)])
  end.

(** The promise of [getBestVar] in one step, for a symbol that
    prints. *)
Definition getBestVar_summary (Number_toString_other : Q -> string)
  (engine_message : error -> string) (net : string -> settled Response) (symbol : value)
  : settled value * list event :=
  let url := bestVarURL Number_toString_other symbol in
  let failed e :=
    (Fulfilled VUndefined,
     [Request url; Console ("Error status: " +:+ Error_toString engine_message e)]) in
  match http_result (net url) with
  | Fulfilled resp =>
      match get resp "data" with
      | Return v => (Fulfilled v, [Request url])
      | Throw e => failed e
      end
  | Rejected e => failed e
  | Pending => (Pending, [Request url])
  end.

(** Some console line was written. *)
Definition logged (evs : list event) : Prop := exists line, In (Console line) evs.

(** A promise that behaves the same on every trace. *)
Definition steady {A} (p : promise A) : Prop := exists r evs, emits p r evs.

(** A steady promise that never settles as [undefined] without a
    console line. *)
Definition careful (p : promise value) : Prop :=
  exists r evs, emits p r evs /\ (r = Fulfilled VUndefined -> logged evs).

(** A failure absorbed: the promise settles as [undefined] and some
    console line was written. *)
Definition absorbed (p : promise value) : Prop :=
  exists evs, emits p (Fulfilled VUndefined) evs /\ logged evs.

(** A lookup that brings no record.  [o] is what the request and the
    parsing of its body give and [read] takes the record out of the
    body: the request failed (it was rejected, the status was not a
    success or the body was not JSON), or the body does not have the
    shape [read] expects, or it holds no record where one is read. *)
Definition no_record (o : settled value) (read : value -> completion value) : Prop :=
  (exists e, o = Rejected e)
  \/ (exists body e, o = Fulfilled body /\ read body = Throw e)
  \/ (exists body record,
        o = Fulfilled body /\ read body = Return record
        /\ (record = VUndefined \/ record = VNull)).

(** A promise that is never rejected. *)
Definition safe {A} (p : promise A) : Prop := forall t e, fst (p t) <> Rejected e.

(** The filter of [annotateData] on one record. *)
Definition within (chain : header) (o : record) : bool :=
  js_le (o !! "tss_distance") (maximum_tss_distance chain)
  && js_ge (o !! "tss_distance") (minimum_tss_distance chain).

(** The sort fields [getValue] knows. *)
Definition recognised (field : value) : bool :=
  is_string field "log_pvalue" || is_string field "beta" || is_string field "pip".

(** What [getValue] returns for a record, [undefined] where it
    throws. *)
Definition y_value (chain : header) (o : record) : option number :=
  match getValue chain o with
  | Return v => v
  | Throw _ => None
  end.

(** The value a record is ranked by, in the words of the
    specification: the
    field that [y_field] names, as it is for [log_pvalue] and [pip], by
    its absolute value for [beta]; NaN where the field is absent. *)
Definition ranked_value (field : string) (o : record) : number :=
  if String.eqb field "beta" then Math_abs (ToNumber (o !! "beta"))
  else ToNumber (o !! field).

(** A value that takes part in a consistent order: a number other
    than NaN. *)
Definition comparable (v : option number) : Prop :=
  exists n, v = Some n /\ n <> NaN.

(** The first element is at least as large as all the others. *)
Definition head_is_largest {A} (key : A -> number) (l : list A) : Prop :=
  match l with
  | [] => True
  | x :: rest => forall y, In y rest -> num_le (key y) (key x) = true
  end.

(** Three records: two near the gene, one far away. *)
Definition sample_store : store := fun r =>
  match r with
  | 0%nat => {[ "tss_distance" := int 100; "beta" := Finite (-3 # 2) ]}
  | 1%nat => {[ "tss_distance" := int 900000; "beta" := int 7 ]}
  | 2%nat => {[ "tss_distance" := int (-50); "beta" := Finite (1 # 2) ]}
  | _ => ∅
  end.

(** Records near the gene that carry no value to rank. *)
Definition bare_store : store := fun _ => {[ "tss_distance" := int 0 ]}.

(** A header as [getURL] leaves it, for a sort field. *)
Definition sample_header (field : string) : header :=
  {| maximum_tss_distance := Some (int 1000);
     minimum_tss_distance := Some (int (-1000));
     y_field := VStr field |}.

(** A matcher accepts only the words of [P]: a successful run consumed
    such a word and was completed by the continuation on what follows. *)
Definition accepts_only {A} (m : @matcher A) (P : string -> Prop) : Prop :=
  forall s c k x, m s c k = Some x ->
    exists w rest c', s = w +:+ rest /\ P w /\ k rest c' = Some x.

(** The URLs requested and the lines logged in a run, in order. *)
Fixpoint requests (evs : list event) : list string :=
  match evs with
  | [] => []
  | Request url :: rest => url :: requests rest
  | Console _ :: rest => requests rest
  end.

Fixpoint console_lines (evs : list event) : list string :=
  match evs with
  | [] => []
  | Request _ :: rest => console_lines rest
  | Console line :: rest => line :: console_lines rest
  end.

(** The outcomes of the resolver: nothing yet, [undefined], or an
    object [{type, chrom, start, end}] of type [variant] or [range]. *)
Definition location_query (r : settled value) : Prop :=
  r = Pending \/ r = Fulfilled VUndefined
  \/ exists type chrom start end_,
       r = Fulfilled (location type chrom start end_)
       /\ (type = "variant" \/ type = "range").

(** The pages visited and the alerts shown in a run of the page. *)
Fixpoint locations (evs : list page_event) : list string :=
  match evs with
  | [] => []
  | Location url :: rest => url :: locations rest
  | _ :: rest => locations rest
  end.

Fixpoint alerts (evs : list page_event) : list string :=
  match evs with
  | [] => []
  | Alert message :: rest => message :: alerts rest
  | _ :: rest => alerts rest
  end.

(** The rank [assign_ranks] leaves on a record: that of its last place
    in the list, none when it is not listed. *)
Fixpoint last_rank (l : list ref) (index : nat) (r : ref) : option number :=
  match l with
  | [] => None
  | x :: rest =>
      match last_rank rest (S index) r with
      | Some v => Some v
      | None => if decide (x = r) then Some (int (Z.of_nat index + 1)) else None
      end
  end.

(** * Properties *)

(** ** Sanity checks of the runtime model *)

Example parseInt_string_samples :
  parseInt_string "44908822" = int 44908822
  /\ parseInt_string "  -12px" = int (-12)
  /\ parseInt_string "0x1F" = int 31
  /\ parseInt_string "undefined" = NaN
  /\ parseInt_string "9007199254740993" = int 9007199254740992
  /\ String_replace "chr19" "chr" "" = "19"
  /\ String_replace "19" "chr" "" = "19"
  /\ endsWith "assoc:beta" ":beta" = true
  /\ endsWith "beta" ":beta" = false.
Proof. vm_compute. repeat split; reflexivity. Qed.

Example String_match_samples :
  (whole <$> String_match "chr7:101258000" chromposPattern) = Some "chr7:101258000"
  /\ (whole <$> String_match "2:1000-2000" chromposPattern) = Some "2:1000"
  /\ (whole <$> String_match "see chr23:100x" chromposPattern) = Some "chr23:100"
  /\ (whole <$> String_match "123:45" chromposPattern) = Some "23:45"
  /\ ((fun m => group m 2) <$> String_match "chrMT:1000-2000" rangePattern) = Some (VStr "MT")
  /\ ((fun m => group m 1) <$> String_match "X:10" chromposPattern) = Some VUndefined
  /\ String_match "chr1:5" chromposPattern = None
  /\ (whole <$> String_match "rs7412" rsPattern) = Some "rs7412"
  /\ String_match "APOE" rsPattern = None.
Proof. vm_compute. repeat split; reflexivity. Qed.

(** ** Strings *)

Lemma string_length_app (s1 s2 : string) :
  String.length (s1 +:+ s2) = (String.length s1 + String.length s2)%nat.
Proof. induction s1 as [|c s1 IH]; simpl; [reflexivity | now rewrite IH]. Qed.

Lemma string_drop_app (s1 s2 : string) :
  string_drop (String.length s1) (s1 +:+ s2) = s2.
Proof. induction s1 as [|c s1 IH]; simpl; [now destruct s2 | exact IH]. Qed.

Lemma string_take_app (s1 s2 : string) :
  string_take (String.length s1) (s1 +:+ s2) = s1.
Proof. induction s1 as [|c s1 IH]; simpl; [now destruct s2 | now rewrite IH]. Qed.

Lemma string_take_drop (n : nat) (s : string) :
  string_take n s +:+ string_drop n s = s.
Proof.
  revert s; induction n as [|n IH]; intros [|c s]; try reflexivity.
  change (String c (string_take n s +:+ string_drop n s) = String c s).
  now rewrite IH.
Qed.

Lemma string_eqb_refl (s : string) : String.eqb s s = true.
Proof. now apply String.eqb_eq. Qed.

Lemma endsWith_spec (s suffix : string) :
  endsWith s suffix = true <-> ends_with s suffix.
Proof.
  unfold endsWith, ends_with. rewrite andb_true_iff, String.eqb_eq, Nat.leb_le.
  split.
  - intros [Hd _].
    exists (string_take (String.length s - String.length suffix) s).
    rewrite <- Hd at 2. symmetry. apply string_take_drop.
  - intros [p ->]. rewrite string_length_app.
    replace (String.length p + String.length suffix - String.length suffix)%nat
      with (String.length p) by lia.
    split; [apply string_drop_app | lia].
Qed.

Lemma endsWith_false (s suffix : string) :
  endsWith s suffix = false <-> ~ ends_with s suffix.
Proof.
  rewrite <- endsWith_spec. destruct (endsWith s suffix); split; congruence.
Qed.

(** ** [retrieveBySuffix] *)

Lemma Array_find_first {A} (p : A -> bool) (pre post : list A) (x : A) :
  (forall y, In y pre -> p y = false) -> p x = true ->
  Array_find p (pre ++ x :: post) = Some x.
Proof.
  intros Hpre Hx. induction pre as [|y pre IH]; simpl.
  - now rewrite Hx.
  - rewrite (Hpre y) by now left. apply IH. intros z Hz. apply Hpre. now right.
Qed.

Lemma Array_find_none {A} (p : A -> bool) (l : list A) :
  (forall y, In y l -> p y = false) -> Array_find p l = None.
Proof.
  intros Hl. induction l as [|y l IH]; simpl; [reflexivity|].
  rewrite (Hl y) by now left. apply IH. intros z Hz. apply Hl. now right.
Qed.

(** C9.  On an object, [retrieveBySuffix] always returns: it gives the
    value bound to the first key, in property enumeration order, that
    ends with the suffix, and [null] when no key ends with it.  It
    returns on every value but [undefined] and [null]. *)
Theorem retrieveBySuffix_first_key (fields : list (string * value)) (field_suffix : string) :
  (forall pre key v post,
      fields = pre ++ (key, v) :: post ->
      ends_with key field_suffix ->
      (forall other, In other pre -> ~ ends_with (fst other) field_suffix) ->
      retrieveBySuffix (VObj fields) field_suffix = Return v)
  /\ ((forall other, In other fields -> ~ ends_with (fst other) field_suffix) ->
      retrieveBySuffix (VObj fields) field_suffix = Return VNull)
  /\ (exists v, retrieveBySuffix (VObj fields) field_suffix = Return v)
  /\ (forall point_data, point_data <> VUndefined -> point_data <> VNull ->
       exists v, retrieveBySuffix point_data field_suffix = Return v).
Proof.
  unfold retrieveBySuffix; simpl. repeat split;
    [| | | intros [] Hu Hn; try congruence; simpl; eexists; reflexivity].
  - intros pre key v post -> Hkey Hpre.
    rewrite (Array_find_first _ pre post (key, v)); [reflexivity | | ].
    + intros y Hy. apply endsWith_false. now apply Hpre.
    + now apply endsWith_spec.
  - intros Hnone. rewrite Array_find_none; [reflexivity|].
    intros y Hy. apply endsWith_false. now apply Hnone.
  - eexists. reflexivity.
Qed.

Lemma retrieveBySuffix_first_key_witness :
  retrieveBySuffix
    (VObj [("assoc:pip", VNum (int 1)); ("assoc:beta", VNum (int 0)); ("gwas:beta", VNull)])
    ":beta" = Return (VNum (int 0))
  /\ retrieveBySuffix (VObj [("assoc:pip", VNum (int 1))]) ":beta" = Return VNull.
Proof.
  split.
  - apply (proj1 (retrieveBySuffix_first_key _ ":beta")
             [("assoc:pip", VNum (int 1))] "assoc:beta" (VNum (int 0)) [("gwas:beta", VNull)]).
    + reflexivity.
    + exists "assoc". reflexivity.
    + intros other [<- | []]. apply endsWith_false. reflexivity.
  - apply (proj1 (proj2 (retrieveBySuffix_first_key _ ":beta"))).
    intros other [<- | []]. apply endsWith_false. reflexivity.
Defined.

(** ** The matcher on the shapes of the three patterns *)

Lemma consumed_app (w rest : string) : consumed (w +:+ rest) rest = w.
Proof.
  unfold consumed. rewrite string_length_app.
  replace (String.length w + String.length rest - String.length rest)%nat
    with (String.length w) by lia.
  apply string_take_app.
Qed.

Lemma string_app_assoc (a b c : string) : (a +:+ b) +:+ c = a +:+ (b +:+ c).
Proof.
  induction a as [|x a IH]; [reflexivity|].
  change (String x ((a +:+ b) +:+ c) = String x (a +:+ (b +:+ c))). now rewrite IH.
Qed.

Lemma string_app_empty_r (a : string) : a +:+ "" = a.
Proof.
  induction a as [|x a IH]; [reflexivity|].
  change (String x (a +:+ "") = String x a). now rewrite IH.
Qed.

Lemma lang_digit_run (ds : string) :
  lang (Plus (Class "0" "9")) ds -> ds <> "" /\ all_digits ds = true.
Proof.
  intros H. remember (Plus (Class "0" "9")) as r eqn:Er.
  induction H; try discriminate; injection Er as ->.
  - inversion H as [|? ? c Hc| | | | | | | | |]; subst.
    split; [discriminate | simpl; now rewrite Hc].
  - destruct (IHlang2 eq_refl) as [_ Hall].
    inversion H as [|? ? c Hc| | | | | | | | |]; subst.
    change (String c "" +:+ s2) with (String c s2).
    split; [discriminate | simpl; now rewrite Hc, Hall].
Qed.

Lemma lang_position_digits (digits : string) :
  lang position_digits digits ->
  exists d ds, digits = String d ds /\ in_class "1" "9" d = true
               /\ ds <> "" /\ all_digits ds = true.
Proof.
  intros H. inversion H as [| |? ? s1 s2 H1 H2| | | | | | | |]; subst.
  inversion H1; subst. apply lang_digit_run in H2 as [Hne Hall].
  exists c, s2. auto.
Qed.

Lemma lang_chromosome_token (tok : string) :
  lang chromosome_token tok ->
  (exists d, in_class "1" "9" d = true /\ tok = String d "")
  \/ (exists d1 d2, in_class "1" "9" d1 = true /\ in_class "0" "9" d2 = true
                    /\ tok = String d1 (String d2 ""))
  \/ tok = "X" \/ tok = "Y" \/ tok = "MT".
Proof.
  intros H. unfold chromosome_token in H. simpl in H.
  inversion H as [| | |? ? ? H1|? ? ? H1| | | | | |]; subst; clear H.
  - inversion H1 as [| |? ? s1 s2 Ha Hb| | | | | | | |]; subst; clear H1.
    inversion Ha; subst; clear Ha.
    inversion Hb as [| | | | | |? ? Hc| | | |]; subst; clear Hb.
    + left. eauto.
    + inversion Hc; subst. right; left. eauto.
  - inversion H1 as [| | |? ? ? H2|? ? ? H2| | | | | |]; subst; clear H1.
    + inversion H2; subst. auto.
    + inversion H2 as [| | |? ? ? H3|? ? ? H3| | | | | |]; subst; clear H2.
      * inversion H3; subst. auto.
      * inversion H3 as [| |? ? s1 s2 Ha Hb| | | | | | | |]; subst; clear H3.
        inversion Ha; subst. inversion Hb; subst. auto 6.
Qed.

Lemma string_app_nil_l (s : string) : "" +:+ s = s.
Proof. reflexivity. Qed.

Lemma string_app_cons (a : ascii) (s1 s2 : string) :
  String a s1 +:+ s2 = String a (s1 +:+ s2).
Proof. reflexivity. Qed.

Ltac norm_app := rewrite ?string_app_cons, ?string_app_nil_l.

(** Tests on literal characters are evaluated. *)
Ltac eval_chars :=
  repeat match goal with
    | |- context [in_class ?lo ?hi ?ch] =>
        let b := eval vm_compute in (in_class lo hi ch) in
        match b with true => idtac | false => idtac end;
        change (in_class lo hi ch) with b
    | |- context [Ascii.eqb ?x ?y] =>
        let b := eval vm_compute in (Ascii.eqb x y) in
        match b with true => idtac | false => idtac end;
        change (Ascii.eqb x y) with b
    end.

Section MatcherFacts.

Context {A : Type}.
Implicit Types (k : string -> captures -> option A) (c : captures).

Lemma rmatch_Chr a b rest c k :
  rmatch (Chr a) (String b rest) c k = if Ascii.eqb a b then k rest c else None.
Proof. reflexivity. Qed.

Lemma rmatch_Class lo hi b rest c k :
  rmatch (Class lo hi) (String b rest) c k = if in_class lo hi b then k rest c else None.
Proof. reflexivity. Qed.

Lemma rmatch_Class_end lo hi c k : rmatch (Class lo hi) "" c k = None.
Proof. reflexivity. Qed.

Lemma rmatch_Seq r1 r2 s c k :
  rmatch (Seq r1 r2) s c k = rmatch r1 s c (fun s1 c1 => rmatch r2 s1 c1 k).
Proof. reflexivity. Qed.

Lemma rmatch_Alt r1 r2 s c k :
  rmatch (Alt r1 r2) s c k =
    match rmatch r1 s c k with Some x => Some x | None => rmatch r2 s c k end.
Proof. reflexivity. Qed.

Lemma rmatch_Opt r s c k :
  rmatch (Opt r) s c k = match rmatch r s c k with Some x => Some x | None => k s c end.
Proof. reflexivity. Qed.

Lemma rmatch_Plus r s c k :
  rmatch (Plus r) s c k =
    rmatch r s c (fun s1 c1 => iterate (rmatch r) (String.length s1) s1 c1 k).
Proof. reflexivity. Qed.

Lemma rmatch_Group n r s c k :
  rmatch (Group n r) s c k = rmatch r s c (fun s1 c1 => k s1 ((n, consumed s s1) :: c1)).
Proof. reflexivity. Qed.

Lemma iterate_S (step : matcher) fuel s c k :
  iterate step (S fuel) s c k =
    match step s c (fun s1 c1 =>
                      if (String.length s1 <? String.length s)%nat
                      then iterate step fuel s1 c1 k
                      else None) with
    | Some x => Some x
    | None => k s c
    end.
Proof. reflexivity. Qed.

Lemma iterate_digit_run ds : all_digits ds = true ->
  forall rest fuel c k x,
    (String.length ds <= fuel)%nat -> not_digit_start rest -> k rest c = Some x ->
    iterate (rmatch (Class "0" "9")) fuel (ds +:+ rest) c k = Some x.
Proof.
  induction ds as [|d ds IH]; intros Hall rest fuel c k x Hfuel Hrest Hk.
  - norm_app.
    destruct fuel as [|fuel]; [exact Hk|]. rewrite iterate_S.
    destruct rest as [|b rest].
    + now rewrite rmatch_Class_end.
    + simpl in Hrest. now rewrite rmatch_Class, Hrest.
  - simpl in Hall. apply andb_true_iff in Hall as [Hd Hall].
    destruct fuel as [|fuel]; [simpl in Hfuel; lia|].
    simpl in Hfuel. norm_app.
    rewrite iterate_S, rmatch_Class, Hd.
    replace (_ <? _)%nat with true by (symmetry; apply Nat.ltb_lt; simpl; lia).
    rewrite (IH Hall rest fuel c k x); auto. lia.
Qed.

Lemma rmatch_position_digits digits rest c k x :
  lang position_digits digits -> not_digit_start rest -> k rest c = Some x ->
  rmatch position_digits (digits +:+ rest) c k = Some x.
Proof.
  intros (d & ds & -> & Hd & Hne & Hall)%lang_position_digits Hrest Hk.
  destruct ds as [|d2 ds]; [congruence|].
  simpl in Hall. apply andb_true_iff in Hall as [Hd2 Hall].
  unfold position_digits. norm_app.
  rewrite rmatch_Seq, rmatch_Class, Hd, rmatch_Plus, rmatch_Class, Hd2.
  apply iterate_digit_run; auto.
  rewrite string_length_app. lia.
Qed.

Lemma rmatch_chromosome_token tok rest c k x :
  lang chromosome_token tok -> k (String ":" rest) c = Some x ->
  rmatch chromosome_token (tok +:+ String ":" rest) c k = Some x.
Proof.
  intros Htok Hk.
  destruct (lang_chromosome_token tok Htok)
    as [(d & Hd & ->) | [(d1 & d2 & Hd1 & Hd2 & ->) | [-> | [-> | ->]]]];
    unfold chromosome_token; cbn [Word]; norm_app;
    rewrite rmatch_Alt, rmatch_Seq, rmatch_Class.
  - rewrite Hd, rmatch_Opt, rmatch_Class. eval_chars. now rewrite Hk.
  - rewrite Hd1, rmatch_Opt, rmatch_Class, Hd2. now rewrite Hk.
  - eval_chars. rewrite rmatch_Alt, rmatch_Chr. eval_chars. now rewrite Hk.
  - eval_chars. rewrite rmatch_Alt, rmatch_Chr. eval_chars.
    rewrite rmatch_Alt, rmatch_Chr. eval_chars. now rewrite Hk.
  - eval_chars. rewrite rmatch_Alt, rmatch_Chr. eval_chars.
    rewrite rmatch_Alt, rmatch_Chr. eval_chars.
    rewrite rmatch_Seq, !rmatch_Chr. eval_chars. exact Hk.
Qed.

Lemma chromosome_token_not_c tok rest :
  lang chromosome_token tok ->
  exists b tail, tok +:+ rest = String b tail /\ Ascii.eqb "c" b = false.
Proof.
  intros Htok.
  destruct (lang_chromosome_token tok Htok)
    as [(d & Hd & ->) | [(d1 & d2 & Hd1 & Hd2 & ->) | [-> | [-> | ->]]]];
    norm_app; eexists _, _; (split; [reflexivity|]);
    try reflexivity.
  - destruct (Ascii.eqb_spec "c" d) as [<-|]; [discriminate Hd | reflexivity].
  - destruct (Ascii.eqb_spec "c" d1) as [<-|]; [discriminate Hd1 | reflexivity].
Qed.

(** The optional prefix [(chr)?] in front of a chromosome token. *)
Lemma rmatch_chr_prefix pre tok rest k x :
  chr_prefix pre -> lang chromosome_token tok ->
  k (tok +:+ rest) (if String.eqb pre "" then [] else [(1, "chr")]) = Some x ->
  rmatch (Opt (Group 1 (Word "chr"))) (pre +:+ tok +:+ rest) [] k = Some x.
Proof.
  intros [-> | ->] Htok Hk.
  - norm_app. simpl String.eqb in Hk.
    destruct (chromosome_token_not_c tok rest Htok) as (b & tail & E & Hb).
    rewrite rmatch_Opt, rmatch_Group. cbn [Word]. rewrite rmatch_Seq, E, rmatch_Chr, Hb.
    rewrite <- E. exact Hk.
  - simpl String.eqb in Hk. rewrite rmatch_Opt, rmatch_Group. cbn [Word]; norm_app.
    repeat (first [rewrite rmatch_Seq | rewrite rmatch_Chr]; eval_chars; cbv match).
    change (String "c" (String "h" (String "r" (tok +:+ rest))))
      with ("chr" +:+ (tok +:+ rest)).
    rewrite consumed_app. now rewrite Hk.
Qed.

End MatcherFacts.

Lemma String_match_here (s : string) (r : regex) (m : match_array) :
  match_here r s = Some m -> String_match s r = Some m.
Proof. intros H. destruct s; simpl; now rewrite H. Qed.

(** An input of the form [(chr)?token:digits], followed by something
    that is not a digit, matches the position pattern up to there. *)
Lemma match_here_chrompos (pre tok digits rest : string) :
  chr_prefix pre -> lang chromosome_token tok -> lang position_digits digits ->
  not_digit_start rest ->
  match_here chromposPattern (pre +:+ tok +:+ ":" +:+ digits +:+ rest) =
    Some {| matched := pre +:+ tok +:+ ":" +:+ digits;
            groups := (3, digits) :: (2, tok)
                      :: (if String.eqb pre "" then [] else [(1, "chr")]) |}.
Proof.
  intros Hpre Htok Hdig Hrest. unfold match_here, chromposPattern.
  rewrite rmatch_Seq. eapply rmatch_chr_prefix; eauto.
  rewrite rmatch_Seq, rmatch_Group. norm_app.
  eapply rmatch_chromosome_token; eauto.
  rewrite rmatch_Seq, rmatch_Chr. eval_chars. rewrite rmatch_Group.
  eapply rmatch_position_digits; eauto.
  rewrite consumed_app.
  change (String ":" (digits +:+ rest)) with (":" +:+ digits +:+ rest).
  rewrite consumed_app.
  rewrite <- !string_app_assoc, consumed_app. rewrite !string_app_assoc. reflexivity.
Qed.

(** The same for the range pattern, on [(chr)?token:digits-digits]. *)
Lemma match_here_range (pre tok first last rest : string) :
  chr_prefix pre -> lang chromosome_token tok ->
  lang position_digits first -> lang position_digits last ->
  not_digit_start rest ->
  match_here rangePattern (pre +:+ tok +:+ ":" +:+ first +:+ "-" +:+ last +:+ rest) =
    Some {| matched := pre +:+ tok +:+ ":" +:+ first +:+ "-" +:+ last;
            groups := (4, last) :: (3, first) :: (2, tok)
                      :: (if String.eqb pre "" then [] else [(1, "chr")]) |}.
Proof.
  intros Hpre Htok Hfirst Hlast Hrest. unfold match_here, rangePattern.
  rewrite rmatch_Seq. eapply rmatch_chr_prefix; eauto.
  rewrite rmatch_Seq, rmatch_Group. norm_app.
  eapply rmatch_chromosome_token; eauto.
  rewrite rmatch_Seq, rmatch_Chr. eval_chars. cbv match.
  rewrite rmatch_Seq, rmatch_Group.
  eapply rmatch_position_digits; eauto; [reflexivity|].
  norm_app. rewrite rmatch_Seq, rmatch_Chr. eval_chars. cbv match.
  rewrite rmatch_Group.
  eapply rmatch_position_digits; eauto.
  rewrite !consumed_app.
  replace (pre +:+ tok +:+ String ":" (first +:+ String "-" (last +:+ rest)))
    with ((pre +:+ tok +:+ ":" +:+ first +:+ "-" +:+ last) +:+ rest)
    by (repeat (rewrite string_app_assoc || rewrite string_app_cons
                || rewrite string_app_nil_l); reflexivity).
  now rewrite consumed_app.
Qed.

Lemma string_eqb_app_neq (s extra : string) :
  extra <> "" -> String.eqb (s +:+ extra) s = false.
Proof.
  intros Hne. apply String.eqb_neq. intros E.
  apply (f_equal String.length) in E. rewrite string_length_app in E.
  destruct extra; [congruence | simpl in E; lia].
Qed.

(** ** What [parseInt] reads in a run of digits *)

Lemma in_class_digit (c : ascii) :
  in_class "0" "9" c = true -> (48 <= nat_of_ascii c <= 57)%nat.
Proof.
  unfold in_class. rewrite andb_true_iff, !Nat.leb_le.
  change (nat_of_ascii "0") with 48%nat. change (nat_of_ascii "9") with 57%nat. lia.
Qed.

Lemma digit_value_decimal (c : ascii) :
  in_class "0" "9" c = true ->
  digit_value 10 c = Some (Z.of_nat (nat_of_ascii c) - 48)%Z.
Proof.
  intros H%in_class_digit. unfold digit_value.
  replace (48 <=? Z.of_nat (nat_of_ascii c))%Z with true by (symmetry; apply Z.leb_le; lia).
  replace (Z.of_nat (nat_of_ascii c) <=? 57)%Z with true by (symmetry; apply Z.leb_le; lia).
  simpl andb. cbv iota.
  replace (Z.of_nat (nat_of_ascii c) - 48 <? 10)%Z with true
    by (symmetry; apply Z.ltb_lt; lia).
  reflexivity.
Qed.

Lemma parse_digits_run (ds : string) :
  all_digits ds = true ->
  forall acc, parse_digits 10 ds (Some acc) = Some (decimal_value acc ds).
Proof.
  induction ds as [|d ds IH]; intros Hall acc; [reflexivity|].
  simpl in Hall. apply andb_true_iff in Hall as [Hd Hall].
  simpl. rewrite (digit_value_decimal d Hd). now rewrite IH.
Qed.

(** On the digits of a position, [parseInt] gives the double nearest to
    the number they denote in base ten. *)
Lemma parseInt_position_digits (digits : string) :
  lang position_digits digits ->
  parseInt_string digits = round_double (decimal_value 0 digits).
Proof.
  intros (d & ds & -> & Hd & _ & Hall)%lang_position_digits.
  assert (Hrun := parse_digits_run ds Hall).
  destruct d as [[] [] [] [] [] [] [] []]; try discriminate Hd;
    unfold parseInt_string; simpl; now rewrite Hrun.
Qed.

Lemma round_double_exact (n : Z) : (n < 2 ^ 53)%Z -> round_double n = int n.
Proof.
  intros H. unfold round_double.
  now replace (n <? 2 ^ 53)%Z with true by (symmetry; apply Z.ltb_lt; exact H).
Qed.

Lemma lang_chrompos_inv (s : string) :
  lang chromposPattern s ->
  exists pre tok digits,
    chr_prefix pre /\ lang chromosome_token tok /\ lang position_digits digits
    /\ s = pre +:+ tok +:+ ":" +:+ digits.
Proof.
  unfold chromposPattern. intros H.
  inversion H as [| |? ? p s1 Hp H1| | | | | | | |]; subst; clear H.
  inversion H1 as [| |? ? tok s2 Ht H2| | | | | | | |]; subst; clear H1.
  inversion H2 as [| |? ? colon digits Hc Hd| | | | | | | |]; subst; clear H2.
  inversion Hc; subst; clear Hc.
  inversion Ht; subst; clear Ht. inversion Hd; subst; clear Hd.
  exists p, tok, digits. repeat split; auto.
  inversion Hp as [| | | | |?|? ? Hg| | | |]; subst; [now left|].
  inversion Hg as [| | | | | | | | |? ? ? Hw|]; subst.
  simpl in Hw.
  inversion Hw as [| |? ? a b Ha Hb| | | | | | | |]; subst.
  inversion Ha; subst.
  inversion Hb as [| |? ? a' b' Ha' Hb'| | | | | | | |]; subst.
  inversion Ha'; subst. inversion Hb'; subst. now right.
Qed.

Lemma lang_range_inv (s : string) :
  lang rangePattern s ->
  exists pre tok first last,
    chr_prefix pre /\ lang chromosome_token tok
    /\ lang position_digits first /\ lang position_digits last
    /\ s = pre +:+ tok +:+ ":" +:+ first +:+ "-" +:+ last.
Proof.
  unfold rangePattern. intros H.
  inversion H as [| |? ? p s1 Hp H1| | | | | | | |]; subst; clear H.
  inversion H1 as [| |? ? tok s2 Ht H2| | | | | | | |]; subst; clear H1.
  inversion H2 as [| |? ? colon s3 Hc H3| | | | | | | |]; subst; clear H2.
  inversion H3 as [| |? ? first s4 Hf H4| | | | | | | |]; subst; clear H3.
  inversion H4 as [| |? ? dash last Hm Hl| | | | | | | |]; subst; clear H4.
  inversion Hc; subst; clear Hc. inversion Hm; subst; clear Hm.
  inversion Ht; subst; clear Ht. inversion Hf; subst; clear Hf.
  inversion Hl; subst; clear Hl.
  exists p, tok, first, last. repeat split; auto.
  inversion Hp as [| | | | |?|? ? Hg| | | |]; subst; [now left|].
  inversion Hg as [| | | | | | | | |? ? ? Hw|]; subst.
  simpl in Hw.
  inversion Hw as [| |? ? a b Ha Hb| | | | | | | |]; subst.
  inversion Ha; subst.
  inversion Hb as [| |? ? a' b' Ha' Hb'| | | | | | | |]; subst.
  inversion Ha'; subst. inversion Hb'; subst. now right.
Qed.

(** ** The resolver, branch by branch *)

Section ResolverFacts.

Variable Number_toString_other : Q -> string.
Variable engine_message : error -> string.
Variable net : string -> settled Response.

Abbreviation ToString' := (ToString Number_toString_other).
Abbreviation parseInt' := (parseInt Number_toString_other).
Abbreviation failureCallback' := (failureCallback engine_message).
Abbreviation getOmniSearch' := (getOmniSearch engine_message net).
Abbreviation getBestVar' := (getBestVar Number_toString_other engine_message net).
Abbreviation best_variant_step' := (best_variant_step Number_toString_other engine_message net).

Lemma parseSearchText_Position (searchText : string) (m : match_array) :
  classify searchText = Position m ->
  parseSearchText Number_toString_other engine_message net searchText =
    resolve (location "variant" (group m 2)
               (VNum (parseInt' (group m 3))) (VNum (parseInt' (group m 3)))).
Proof.
  unfold classify, parseSearchText. intros H.
  destruct (is_whole searchText (String_match searchText chromposPattern));
    [now injection H as -> |].
  destruct (is_whole searchText (String_match searchText rangePattern)); [discriminate|].
  destruct (is_whole searchText (String_match searchText rsPattern)); discriminate.
Qed.

Lemma parseSearchText_Range (searchText : string) (m : match_array) :
  classify searchText = Range m ->
  parseSearchText Number_toString_other engine_message net searchText =
    resolve (location "range" (group m 2)
               (VNum (parseInt' (group m 3))) (VNum (parseInt' (group m 4)))).
Proof.
  unfold classify, parseSearchText. intros H.
  destruct (is_whole searchText (String_match searchText chromposPattern)); [discriminate|].
  destruct (is_whole searchText (String_match searchText rangePattern));
    [now injection H as -> |].
  destruct (is_whole searchText (String_match searchText rsPattern)); discriminate.
Qed.

Lemma parseSearchText_RsNumber (searchText : string) :
  classify searchText = RsNumber ->
  parseSearchText Number_toString_other engine_message net searchText =
    getOmniSearch' searchText
    .then (fun result =>
             settle (let* chrom := get result "chrom" in
                     let* start := get result "start" in
                     let* end_ := get result "end" in
                     Return (location "variant" chrom start end_)))
    .catch failureCallback'.
Proof.
  unfold classify, parseSearchText. intros H.
  destruct (is_whole searchText (String_match searchText chromposPattern)); [discriminate|].
  destruct (is_whole searchText (String_match searchText rangePattern)); [discriminate|].
  destruct (is_whole searchText (String_match searchText rsPattern));
    [reflexivity | discriminate].
Qed.

Lemma parseSearchText_GeneTerm (searchText : string) :
  classify searchText = GeneTerm ->
  parseSearchText Number_toString_other engine_message net searchText =
    getOmniSearch' searchText
    .then (fun result =>
             settle (let* gene_id := get result "gene_id" in
                     if is_undefined gene_id then Return VUndefined
                     else Return gene_id))
    .then best_variant_step'
    .catch failureCallback'.
Proof.
  unfold classify, parseSearchText. intros H.
  destruct (is_whole searchText (String_match searchText chromposPattern)); [discriminate|].
  destruct (is_whole searchText (String_match searchText rangePattern)); [discriminate|].
  destruct (is_whole searchText (String_match searchText rsPattern));
    [discriminate | reflexivity].
Qed.

Lemma classify_position (pre tok digits : string) :
  chr_prefix pre -> lang chromosome_token tok -> lang position_digits digits ->
  classify (pre +:+ tok +:+ ":" +:+ digits) =
    Position {| matched := pre +:+ tok +:+ ":" +:+ digits;
                groups := (3, digits) :: (2, tok)
                          :: (if String.eqb pre "" then [] else [(1, "chr")]) |}.
Proof.
  intros Hpre Htok Hdig. unfold classify.
  assert (H := match_here_chrompos pre tok digits "" Hpre Htok Hdig I).
  rewrite !string_app_empty_r in H.
  rewrite (String_match_here _ _ _ H). unfold is_whole, whole; simpl matched.
  now rewrite string_eqb_refl.
Qed.

Lemma position_is_not_whole (pre tok first last : string) :
  chr_prefix pre -> lang chromosome_token tok ->
  lang position_digits first ->
  let searchText := pre +:+ tok +:+ ":" +:+ first +:+ "-" +:+ last in
  (whole <$> String_match searchText chromposPattern) = Some (pre +:+ tok +:+ ":" +:+ first)
  /\ is_whole searchText (String_match searchText chromposPattern) = None.
Proof.
  intros Hpre Htok Hfirst searchText.
  assert (H := match_here_chrompos pre tok first ("-" +:+ last) Hpre Htok Hfirst eq_refl).
  fold searchText in H. rewrite (String_match_here _ _ _ H).
  split; [reflexivity|]. unfold is_whole, whole; simpl matched.
  replace searchText with ((pre +:+ tok +:+ ":" +:+ first) +:+ ("-" +:+ last))
    by (unfold searchText; now rewrite !string_app_assoc).
  now rewrite string_eqb_app_neq.
Qed.

Lemma classify_range (pre tok first last : string) :
  chr_prefix pre -> lang chromosome_token tok ->
  lang position_digits first -> lang position_digits last ->
  classify (pre +:+ tok +:+ ":" +:+ first +:+ "-" +:+ last) =
    Range {| matched := pre +:+ tok +:+ ":" +:+ first +:+ "-" +:+ last;
             groups := (4, last) :: (3, first) :: (2, tok)
                       :: (if String.eqb pre "" then [] else [(1, "chr")]) |}.
Proof.
  intros Hpre Htok Hfirst Hlast. unfold classify.
  destruct (position_is_not_whole pre tok first last Hpre Htok Hfirst) as [_ ->].
  assert (H := match_here_range pre tok first last "" Hpre Htok Hfirst Hlast I).
  rewrite !string_app_empty_r in H.
  rewrite (String_match_here _ _ _ H). unfold is_whole, whole; simpl matched.
  now rewrite string_eqb_refl.
Qed.

(** C4.  An input that matches
    [^(chr)?([1-9][0-9]?|X|Y|MT):[1-9][0-9]+$] in full is made of an
    optional [chr], a chromosome token, a colon and the digits of a
    position; [parseSearchText] then resolves at once, with no event
    added to the trace, to the object [{type, chrom, start, end}] with
    type [variant], the chromosome token as [chrom], and the number
    [parseInt] reads in the digits as both [start] and [end]. *)
Theorem parseSearchText_position (searchText : string) :
  lang chromposPattern searchText ->
  (exists pre tok digits,
      chr_prefix pre /\ lang chromosome_token tok /\ lang position_digits digits
      /\ searchText = pre +:+ tok +:+ ":" +:+ digits)
  /\ (forall pre tok digits,
         chr_prefix pre -> lang chromosome_token tok -> lang position_digits digits ->
         searchText = pre +:+ tok +:+ ":" +:+ digits ->
         let pos := round_double (decimal_value 0 digits) in
         parseInt_string digits = pos
         /\ ((decimal_value 0 digits < 2 ^ 53)%Z -> pos = int (decimal_value 0 digits))
         /\ forall t, parseSearchText Number_toString_other engine_message net searchText t =
                        (Fulfilled (VObj [("type", VStr "variant"); ("chrom", VStr tok);
                                          ("start", VNum pos); ("end", VNum pos)]), t)).
Proof.
  intros H. split; [now apply lang_chrompos_inv|].
  intros pre tok digits Hpre Htok Hdig -> pos.
  assert (Hpos : parseInt_string digits = pos) by now apply parseInt_position_digits.
  split; [exact Hpos|]. split; [apply round_double_exact|]. intros t.
  rewrite (parseSearchText_Position _ _ (classify_position pre tok digits Hpre Htok Hdig)).
  unfold group; simpl groups. unfold resolve.
  change (capture 2 ((3, digits) :: (2, tok) :: _)) with (VStr tok).
  change (capture 3 ((3, digits) :: (2, tok) :: _)) with (VStr digits).
  change (parseInt' (VStr digits)) with (parseInt_string digits).
  now rewrite Hpos.
Qed.

(** C5.  An input that matches
    [^(chr)?([1-9][0-9]?|X|Y|MT):[1-9][0-9]+-[1-9][0-9]+$] in full
    resolves at once, with no event added to the trace, to the object
    [{type, chrom, start, end}] with type [range], the chromosome token
    and the two numbers read by [parseInt];
    the position pattern, tried first, matches only the part before the
    dash, so its test against the whole input fails. *)
Theorem parseSearchText_range (searchText : string) :
  lang rangePattern searchText ->
  (exists pre tok first last,
      chr_prefix pre /\ lang chromosome_token tok
      /\ lang position_digits first /\ lang position_digits last
      /\ searchText = pre +:+ tok +:+ ":" +:+ first +:+ "-" +:+ last)
  /\ (forall pre tok first last,
         chr_prefix pre -> lang chromosome_token tok ->
         lang position_digits first -> lang position_digits last ->
         searchText = pre +:+ tok +:+ ":" +:+ first +:+ "-" +:+ last ->
         let start := round_double (decimal_value 0 first) in
         let end_ := round_double (decimal_value 0 last) in
         (whole <$> String_match searchText chromposPattern)
           = Some (pre +:+ tok +:+ ":" +:+ first)
         /\ is_whole searchText (String_match searchText chromposPattern) = None
         /\ parseInt_string first = start /\ parseInt_string last = end_
         /\ ((decimal_value 0 first < 2 ^ 53)%Z -> start = int (decimal_value 0 first))
         /\ ((decimal_value 0 last < 2 ^ 53)%Z -> end_ = int (decimal_value 0 last))
         /\ forall t, parseSearchText Number_toString_other engine_message net searchText t =
                        (Fulfilled (VObj [("type", VStr "range"); ("chrom", VStr tok);
                                          ("start", VNum start); ("end", VNum end_)]), t)).
Proof.
  intros H. split; [now apply lang_range_inv|].
  intros pre tok first last Hpre Htok Hfirst Hlast -> start end_.
  destruct (position_is_not_whole pre tok first last Hpre Htok Hfirst) as [Hm Hw].
  assert (Hs : parseInt_string first = start) by now apply parseInt_position_digits.
  assert (He : parseInt_string last = end_) by now apply parseInt_position_digits.
  repeat split; auto; try apply round_double_exact. intros t.
  rewrite (parseSearchText_Range _ _ (classify_range pre tok first last Hpre Htok Hfirst Hlast)).
  unfold group; simpl groups. unfold resolve.
  change (capture 2 ((4, last) :: (3, first) :: (2, tok) :: _)) with (VStr tok).
  change (capture 3 ((4, last) :: (3, first) :: (2, tok) :: _)) with (VStr first).
  change (capture 4 ((4, last) :: (3, first) :: (2, tok) :: _)) with (VStr last).
  change (parseInt' (VStr first)) with (parseInt_string first).
  change (parseInt' (VStr last)) with (parseInt_string last).
  now rewrite Hs, He.
Qed.

Lemma getOmniSearch_ok (searchText : string) (resp : Response) (body v : value) t :
  net (omniurl searchText) = Fulfilled resp -> ok resp = true ->
  json resp = Fulfilled body ->
  (let* data := get body "data" in get_0 data) = Return v ->
  getOmniSearch' searchText t = (Fulfilled v, t ++ [Request (omniurl searchText)]).
Proof.
  intros Hnet Hok Hjson Hv.
  unfold getOmniSearch, then_, catch_, fetch, settle, await, handleErrors.
  fold (omniurl searchText). rewrite Hnet, Hok. simpl. rewrite Hjson.
  unfold cbind in Hv |- *. now rewrite Hv.
Qed.

Lemma getBestVar_ok (symbol : value) (bestVar : promise value) (resp : Response)
  (body v : value) t :
  getBestVar' symbol = Return bestVar ->
  net (bestVarURL Number_toString_other symbol) = Fulfilled resp -> ok resp = true ->
  json resp = Fulfilled body ->
  get body "data" = Return v ->
  bestVar t = (Fulfilled v, t ++ [Request (bestVarURL Number_toString_other symbol)]).
Proof.
  unfold getBestVar, js_String. destruct (printable symbol); [|discriminate].
  intros [= <-] Hnet Hok Hjson Hv.
  unfold then_, catch_, fetch, settle, await, handleErrors.
  fold (bestVarURL Number_toString_other symbol). rewrite Hnet, Hok. simpl. rewrite Hjson.
  now rewrite Hv.
Qed.



(** C6.  For an input that takes the gene branch, such as ["APOE"]:
    when the omnisearch answers [{data: [{gene_id: "ENSG00000130203"}]}]
    and the best-variant lookup answers
    [{data: {pos: "44908822", chrom: "chr19"}}], the two requests are
    made in that order and the result is the variant
    [{chrom: "19", start: 44908822, end: 44908822}]. *)
Theorem parseSearchText_gene_symbol (searchText : string) t :
  classify searchText = GeneTerm ->
  net (omniurl searchText) = ok_response APOE_body ->
  net "/api/gene/ENSG00000130203/bestvar/" = ok_response bestvar_body ->
  parseSearchText Number_toString_other engine_message net searchText t =
    (Fulfilled (VObj [("type", VStr "variant"); ("chrom", VStr "19");
                      ("start", VNum (int 44908822)); ("end", VNum (int 44908822))]),
     t ++ [Request (omniurl searchText); Request "/api/gene/ENSG00000130203/bestvar/"]).
Proof.
  intros Hgene Hnet1 Hnet2. rewrite (parseSearchText_GeneTerm searchText Hgene).
  unfold then_ at 1 2, catch_ at 1.
  rewrite (getOmniSearch_ok searchText _ APOE_body _ t Hnet1 eq_refl eq_refl eq_refl).
  simpl settle. unfold best_variant_step.
  destruct (getBestVar' (VStr "ENSG00000130203")) as [bestVar|e] eqn:E; [|discriminate E].
  simpl after. unfold then_, catch_.
  rewrite (getBestVar_ok (VStr "ENSG00000130203") bestVar _ bestvar_body _ _ E Hnet2
             eq_refl eq_refl eq_refl).
  simpl. rewrite <- app_assoc. reflexivity.
Qed.

End ResolverFacts.

(** ** Building inputs of the two shapes *)

Lemma lang_digit_run_intro (ds : string) :
  ds <> "" -> all_digits ds = true -> lang (Plus (Class "0" "9")) ds.
Proof.
  induction ds as [|d ds IH]; intros Hne Hall; [congruence|].
  simpl in Hall. apply andb_true_iff in Hall as [Hd Hall].
  destruct ds as [|d' ds'].
  - apply lang_Plus_one. now apply lang_Class.
  - change (String d (String d' ds')) with (String d "" +:+ String d' ds').
    apply lang_Plus_more; [now apply lang_Class | apply IH; [discriminate | exact Hall]].
Qed.

Lemma lang_position_digits_intro (d : ascii) (ds : string) :
  in_class "1" "9" d = true -> ds <> "" -> all_digits ds = true ->
  lang position_digits (String d ds).
Proof.
  intros Hd Hne Hall. change (String d ds) with (String d "" +:+ ds).
  apply lang_Seq; [now apply lang_Class | now apply lang_digit_run_intro].
Qed.

Lemma lang_chromosome_token_intro (tok : string) :
  (exists d, in_class "1" "9" d = true /\ tok = String d "")
  \/ (exists d1 d2, in_class "1" "9" d1 = true /\ in_class "0" "9" d2 = true
                    /\ tok = String d1 (String d2 ""))
  \/ tok = "X" \/ tok = "Y" \/ tok = "MT" ->
  lang chromosome_token tok.
Proof.
  intros [(d & Hd & ->) | [(d1 & d2 & Hd1 & Hd2 & ->) | [-> | [-> | ->]]]];
    unfold chromosome_token.
  - apply lang_Alt_l. change (String d "") with (String d "" +:+ "").
    apply lang_Seq; [now apply lang_Class | apply lang_Opt_none].
  - apply lang_Alt_l. change (String d1 (String d2 "")) with (String d1 "" +:+ String d2 "").
    apply lang_Seq; [now apply lang_Class | apply lang_Opt_some; now apply lang_Class].
  - apply lang_Alt_r, lang_Alt_l, lang_Chr.
  - apply lang_Alt_r, lang_Alt_r, lang_Alt_l, lang_Chr.
  - apply lang_Alt_r, lang_Alt_r, lang_Alt_r. apply (lang_Seq _ _ "M" "T"); apply lang_Chr.
Qed.

Lemma lang_chr_prefix_intro (pre : string) :
  chr_prefix pre -> lang (Opt (Group 1 (Word "chr"))) pre.
Proof.
  intros [-> | ->]; [apply lang_Opt_none|].
  apply lang_Opt_some, lang_Group. simpl Word.
  apply (lang_Seq _ _ "c" "hr"); [apply lang_Chr|].
  apply (lang_Seq _ _ "h" "r"); apply lang_Chr.
Qed.

Lemma lang_chrompos_intro (pre tok digits : string) :
  chr_prefix pre -> lang chromosome_token tok -> lang position_digits digits ->
  lang chromposPattern (pre +:+ tok +:+ ":" +:+ digits).
Proof.
  intros Hpre Htok Hdig. unfold chromposPattern.
  apply lang_Seq; [now apply lang_chr_prefix_intro|].
  apply lang_Seq; [now apply lang_Group|].
  apply lang_Seq; [apply lang_Chr | now apply lang_Group].
Qed.

Lemma lang_range_intro (pre tok first last : string) :
  chr_prefix pre -> lang chromosome_token tok ->
  lang position_digits first -> lang position_digits last ->
  lang rangePattern (pre +:+ tok +:+ ":" +:+ first +:+ "-" +:+ last).
Proof.
  intros Hpre Htok Hfirst Hlast. unfold rangePattern.
  apply lang_Seq; [now apply lang_chr_prefix_intro|].
  apply lang_Seq; [now apply lang_Group|].
  apply lang_Seq; [apply lang_Chr|].
  apply lang_Seq; [now apply lang_Group|].
  apply lang_Seq; [apply lang_Chr | now apply lang_Group].
Qed.

(** ** The claims on concrete inputs *)

Lemma parseSearchText_position_witness :
  lang chromposPattern "chr7:101258000"
  /\ forall t,
      parseSearchText (fun _ => "") (fun _ => "") (fun _ => Pending) "chr7:101258000" t =
        (Fulfilled (VObj [("type", VStr "variant"); ("chrom", VStr "7");
                          ("start", VNum (int 101258000));
                          ("end", VNum (int 101258000))]), t).
Proof.
  assert (Hpre : chr_prefix "chr") by (right; reflexivity).
  assert (Htok : lang chromosome_token "7").
  { apply lang_chromosome_token_intro. left. exists "7"%char. split; reflexivity. }
  assert (Hdig : lang position_digits "101258000").
  { apply lang_position_digits_intro; [reflexivity | discriminate | reflexivity]. }
  assert (Hall : lang chromposPattern "chr7:101258000")
    by exact (lang_chrompos_intro "chr" "7" "101258000" Hpre Htok Hdig).
  split; [exact Hall|].
  exact (proj2 (proj2 (proj2 (parseSearchText_position (fun _ => "") (fun _ => "")
                                (fun _ => Pending) "chr7:101258000" Hall)
                         "chr" "7" "101258000" Hpre Htok Hdig eq_refl))).
Defined.

Lemma parseSearchText_range_witness :
  lang rangePattern "2:1000-2000"
  /\ forall t,
      parseSearchText (fun _ => "") (fun _ => "") (fun _ => Pending) "2:1000-2000" t =
        (Fulfilled (VObj [("type", VStr "range"); ("chrom", VStr "2");
                          ("start", VNum (int 1000)); ("end", VNum (int 2000))]), t).
Proof.
  assert (Hpre : chr_prefix "") by (left; reflexivity).
  assert (Htok : lang chromosome_token "2").
  { apply lang_chromosome_token_intro. left. exists "2"%char. split; reflexivity. }
  assert (Hfirst : lang position_digits "1000").
  { apply lang_position_digits_intro; [reflexivity | discriminate | reflexivity]. }
  assert (Hlast : lang position_digits "2000").
  { apply lang_position_digits_intro; [reflexivity | discriminate | reflexivity]. }
  assert (Hall : lang rangePattern "2:1000-2000")
    by exact (lang_range_intro "" "2" "1000" "2000" Hpre Htok Hfirst Hlast).
  split; [exact Hall|].
  exact (proj2 (proj2 (proj2 (proj2 (proj2 (proj2
           (proj2 (parseSearchText_range (fun _ => "") (fun _ => "") (fun _ => Pending)
                     "2:1000-2000" Hall)
              "" "2" "1000" "2000" Hpre Htok Hfirst Hlast eq_refl))))))).
Defined.




Lemma parseSearchText_gene_symbol_witness :
  classify "APOE" = GeneTerm
  /\ parseSearchText (fun _ => "") (fun _ => "") net_APOE "APOE" [] =
       (Fulfilled (VObj [("type", VStr "variant"); ("chrom", VStr "19");
                         ("start", VNum (int 44908822)); ("end", VNum (int 44908822))]),
        [Request (omniurl "APOE"); Request "/api/gene/ENSG00000130203/bestvar/"]).
Proof.
  split; [reflexivity|].
  exact (parseSearchText_gene_symbol (fun _ => "") (fun _ => "") net_APOE "APOE" []
           eq_refl eq_refl eq_refl).
Defined.

(** ** The two lookups in one step *)

Section LookupFacts.

Variable Number_toString_other : Q -> string.
Variable engine_message : error -> string.
Variable net : string -> settled Response.

Lemma getOmniSearch_emits (searchText : string) :
  emits (getOmniSearch engine_message net searchText)
    (fst (getOmniSearch_summary engine_message net searchText))
    (snd (getOmniSearch_summary engine_message net searchText)).
Proof.
  intros t.
  unfold getOmniSearch_summary, http_result, data_0, getOmniSearch,
    then_, catch_, fetch, settle, await, handleErrors, console_log, resolve.
  fold (omniurl searchText).
  destruct (net (omniurl searchText)) as [resp|e|]; simpl;
    [|now rewrite <- app_assoc|reflexivity].
  destruct (ok resp); simpl; [|now rewrite <- app_assoc].
  destruct (json resp) as [body|e|]; simpl; [|now rewrite <- app_assoc|reflexivity].
  destruct (let* data := get body "data" in get_0 data); simpl;
    [reflexivity | now rewrite <- app_assoc].
Qed.

(** [getBestVar] returns a promise exactly for the symbols that
    print. *)
Lemma getBestVar_printable (symbol : value) :
  printable symbol = true ->
  exists bestVar,
    getBestVar Number_toString_other engine_message net symbol = Return bestVar.
Proof. intros H. unfold getBestVar, js_String. rewrite H. simpl. now eexists. Qed.

Lemma getBestVar_throws (symbol : value) :
  printable symbol = false ->
  getBestVar Number_toString_other engine_message net symbol = Throw TypeError_to_primitive.
Proof. intros H. unfold getBestVar, js_String. now rewrite H. Qed.

Lemma getBestVar_emits (symbol : value) (bestVar : promise value) :
  getBestVar Number_toString_other engine_message net symbol = Return bestVar ->
  emits bestVar
    (fst (getBestVar_summary Number_toString_other engine_message net symbol))
    (snd (getBestVar_summary Number_toString_other engine_message net symbol)).
Proof.
  unfold getBestVar, js_String. destruct (printable symbol); [|discriminate].
  intros [= <-] t.
  unfold getBestVar_summary, http_result, failureCallback,
    then_, catch_, fetch, settle, await, handleErrors, console_log.
  fold (bestVarURL Number_toString_other symbol).
  destruct (net (bestVarURL Number_toString_other symbol)) as [resp|e|]; simpl;
    [|now rewrite <- app_assoc|reflexivity].
  destruct (ok resp); simpl; [|now rewrite <- app_assoc].
  destruct (json resp) as [body|e|]; simpl; [|now rewrite <- app_assoc|reflexivity].
  destruct (get body "data"); simpl; [reflexivity | now rewrite <- app_assoc].
Qed.

End LookupFacts.

(** ** Promise chains *)

Section Chains.

Context {A B : Type}.

Lemma emits_then (p : promise A) (f : A -> promise B) r evs r' evs' :
  emits p r evs ->
  match r with
  | Fulfilled a => emits (f a) r' evs'
  | Rejected e => r' = Rejected e /\ evs' = []
  | Pending => r' = Pending /\ evs' = []
  end ->
  emits (p .then f) r' (evs ++ evs').
Proof.
  intros Hp Hf t. unfold then_. rewrite Hp.
  destruct r as [a|e|].
  - now rewrite Hf, app_assoc.
  - destruct Hf as [-> ->]. now rewrite app_nil_r.
  - destruct Hf as [-> ->]. now rewrite app_nil_r.
Qed.

Lemma emits_catch (p : promise A) (h : error -> promise A) r evs r' evs' :
  emits p r evs ->
  match r with
  | Fulfilled a => r' = Fulfilled a /\ evs' = []
  | Rejected e => emits (h e) r' evs'
  | Pending => r' = Pending /\ evs' = []
  end ->
  emits (p .catch h) r' (evs ++ evs').
Proof.
  intros Hp Hh t. unfold catch_. rewrite Hp.
  destruct r as [a|e|].
  - destruct Hh as [-> ->]. now rewrite app_nil_r.
  - now rewrite Hh, app_assoc.
  - destruct Hh as [-> ->]. now rewrite app_nil_r.
Qed.

Lemma steady_then (p : promise A) (f : A -> promise B) :
  steady p -> (forall a, steady (f a)) -> steady (p .then f).
Proof.
  intros (r & evs & Hp) Hf. destruct r as [a|e|].
  - destruct (Hf a) as (r' & evs' & Hfa).
    exists r', (evs ++ evs'). now apply (emits_then p f (Fulfilled a)).
  - exists (Rejected e), (evs ++ []). now apply (emits_then p f (Rejected e)).
  - exists Pending, (evs ++ []). now apply (emits_then p f Pending).
Qed.

Lemma steady_catch (p : promise A) (h : error -> promise A) :
  steady p -> (forall e, steady (h e)) -> steady (p .catch h).
Proof.
  intros (r & evs & Hp) Hh. destruct r as [a|e|].
  - exists (Fulfilled a), (evs ++ []). now apply (emits_catch p h (Fulfilled a)).
  - destruct (Hh e) as (r' & evs' & Hhe).
    exists r', (evs ++ evs'). now apply (emits_catch p h (Rejected e)).
  - exists Pending, (evs ++ []). now apply (emits_catch p h Pending).
Qed.

Lemma steady_resolve (a : A) : steady (resolve a).
Proof. exists (Fulfilled a), []. intros t. unfold resolve. now rewrite app_nil_r. Qed.

Lemma steady_settle (c : completion A) : steady (settle c).
Proof.
  destruct c as [a|e]; [exists (Fulfilled a), [] | exists (Rejected e), []];
    intros t; simpl; now rewrite app_nil_r.
Qed.

Lemma safe_catch (p : promise A) (h : error -> promise A) :
  (forall e, safe (h e)) -> safe (p .catch h).
Proof.
  intros Hh t e. unfold catch_. destruct (p t) as [[a|e'|] t']; simpl; try discriminate.
  apply Hh.
Qed.

Lemma safe_resolve (a : A) : safe (resolve a).
Proof. intros t e. discriminate. Qed.

End Chains.

Lemma steady_console_log (line : string) : steady (console_log line).
Proof. exists (Fulfilled VUndefined), [Console line]. intros t. reflexivity. Qed.

Lemma safe_console_log (line : string) : safe (console_log line).
Proof. intros t e. discriminate. Qed.

Lemma logged_app_r (evs evs' : list event) : logged evs' -> logged (evs ++ evs').
Proof. intros [line H]. exists line. apply in_or_app. now right. Qed.

Lemma careful_console_log (line : string) : careful (console_log line).
Proof.
  exists (Fulfilled VUndefined), [Console line]. split; [intros t; reflexivity|].
  intros _. exists line. now left.
Qed.

Lemma careful_resolve (v : value) : v <> VUndefined -> careful (resolve v).
Proof.
  intros Hv. exists (Fulfilled v), []. split.
  - intros t. unfold resolve. now rewrite app_nil_r.
  - intros [= E]. contradiction.
Qed.

Lemma careful_settle (c : completion value) :
  (forall v, c = Return v -> v <> VUndefined) -> careful (settle c).
Proof.
  intros Hc. destruct c as [v|e].
  - exists (Fulfilled v), []. split; [intros t; simpl; now rewrite app_nil_r|].
    intros [= E]. exfalso. exact (Hc v eq_refl E).
  - exists (Rejected e), []. split; [intros t; simpl; now rewrite app_nil_r | discriminate].
Qed.

Lemma careful_then {A} (p : promise A) (f : A -> promise value) :
  steady p -> (forall a, careful (f a)) -> careful (p .then f).
Proof.
  intros (r & evs & Hp) Hf. destruct r as [a|e|].
  - destruct (Hf a) as (r' & evs' & Hfa & Hlog).
    exists r', (evs ++ evs'). split; [now apply (emits_then p f (Fulfilled a))|].
    intros E. now apply logged_app_r, Hlog.
  - exists (Rejected e), (evs ++ []).
    split; [now apply (emits_then p f (Rejected e)) | discriminate].
  - exists Pending, (evs ++ []).
    split; [now apply (emits_then p f Pending) | discriminate].
Qed.

Lemma careful_catch (p : promise value) (h : error -> promise value) :
  careful p -> (forall e, careful (h e)) -> careful (p .catch h).
Proof.
  intros (r & evs & Hp & Hlog) Hh. destruct r as [a|e|].
  - exists (Fulfilled a), (evs ++ []).
    split; [now apply (emits_catch p h (Fulfilled a))|].
    rewrite app_nil_r. exact Hlog.
  - destruct (Hh e) as (r' & evs' & Hhe & Hlog').
    exists r', (evs ++ evs'). split; [now apply (emits_catch p h (Rejected e))|].
    intros E. now apply logged_app_r, Hlog'.
  - exists Pending, (evs ++ []).
    split; [now apply (emits_catch p h Pending) | discriminate].
Qed.

Create HintDb promise.
#[local] Hint Resolve steady_resolve steady_settle steady_console_log
  careful_console_log safe_console_log safe_resolve : promise.

(** ** Failures are absorbed *)

Section Absorption.

Variable Number_toString_other : Q -> string.
Variable engine_message : error -> string.
Variable net : string -> settled Response.

Abbreviation best_variant_step' := (best_variant_step Number_toString_other engine_message net).

Lemma steady_getOmniSearch (searchText : string) :
  steady (getOmniSearch engine_message net searchText).
Proof. eexists _, _. apply getOmniSearch_emits. Qed.

Lemma steady_getBestVar (symbol : value) (bestVar : promise value) :
  getBestVar Number_toString_other engine_message net symbol = Return bestVar ->
  steady bestVar.
Proof. intros E. eexists _, _. apply (getBestVar_emits _ _ _ symbol bestVar E). Qed.

Lemma careful_failureCallback (e : error) : careful (failureCallback engine_message e).
Proof. apply careful_console_log. Qed.

Lemma careful_best_variant_step (gene_id : value) : careful (best_variant_step' gene_id).
Proof.
  unfold best_variant_step. destruct (printable gene_id) eqn:Hp.
  - destruct (getBestVar_printable Number_toString_other engine_message net gene_id Hp)
      as [bestVar E].
    rewrite E. simpl after. apply careful_catch.
    + apply careful_then; [apply (steady_getBestVar gene_id bestVar E)|].
      intros result. apply careful_settle. unfold cbind.
      destruct (get result "pos"); [|discriminate].
      destruct (js_parseInt _ _); [|discriminate].
      destruct (get result "chrom"); [|discriminate].
      destruct (call_replace _); [|discriminate].
      intros v [= <-]. discriminate.
    + intros _. unfold js_String. rewrite Hp. apply careful_console_log.
  - rewrite (getBestVar_throws Number_toString_other engine_message net gene_id Hp).
    apply careful_settle. discriminate.
Qed.

Lemma careful_parseSearchText (searchText : string) :
  careful (parseSearchText Number_toString_other engine_message net searchText).
Proof.
  destruct (classify searchText) as [m|m| |] eqn:Hc.
  - rewrite (parseSearchText_Position _ _ _ _ _ Hc). now apply careful_resolve.
  - rewrite (parseSearchText_Range _ _ _ _ _ Hc). now apply careful_resolve.
  - rewrite (parseSearchText_RsNumber _ _ _ _ Hc).
    apply careful_catch; [|apply careful_failureCallback].
    apply careful_then; [apply steady_getOmniSearch|].
    intros result. apply careful_settle. unfold cbind.
    destruct (get result "chrom"); [|discriminate].
    destruct (get result "start"); [|discriminate].
    destruct (get result "end"); [|discriminate].
    intros v [= <-]. discriminate.
  - rewrite (parseSearchText_GeneTerm _ _ _ _ Hc).
    apply careful_catch; [|apply careful_failureCallback].
    apply careful_then; [|apply careful_best_variant_step].
    apply steady_then; [apply steady_getOmniSearch | auto with promise].
Qed.

Lemma safe_parseSearchText (searchText : string) :
  safe (parseSearchText Number_toString_other engine_message net searchText).
Proof.
  destruct (classify searchText) as [m|m| |] eqn:Hc.
  - rewrite (parseSearchText_Position _ _ _ _ _ Hc). auto with promise.
  - rewrite (parseSearchText_Range _ _ _ _ _ Hc). auto with promise.
  - rewrite (parseSearchText_RsNumber _ _ _ _ Hc).
    apply safe_catch. intros e. apply safe_console_log.
  - rewrite (parseSearchText_GeneTerm _ _ _ _ Hc).
    apply safe_catch. intros e. apply safe_console_log.
Qed.

Lemma getOmniSearch_failed (searchText : string) (e : error) t :
  http_result (net (omniurl searchText)) = Rejected e ->
  getOmniSearch engine_message net searchText t =
    (Fulfilled VUndefined,
     t ++ [Request (omniurl searchText);
           Console ("Omnisearch error, status code: "
                    +:+ Error_toString engine_message e)]).
Proof.
  intros H. rewrite (getOmniSearch_emits engine_message net searchText t).
  unfold getOmniSearch_summary. now rewrite H.
Qed.

Lemma omnisearch_no_record (searchText : string) :
  (classify searchText = RsNumber \/ classify searchText = GeneTerm) ->
  no_record (http_result (net (omniurl searchText))) data_0 ->
  forall t,
    fst (parseSearchText Number_toString_other engine_message net searchText t)
    = Fulfilled VUndefined.
Proof.
  intros Hc H t.
  assert (Hrun : exists r evs,
             getOmniSearch engine_message net searchText t = (Fulfilled r, evs)
             /\ (r = VUndefined \/ r = VNull)).
  { rewrite (getOmniSearch_emits engine_message net searchText t).
    unfold getOmniSearch_summary.
    destruct H as [[e ->] | [(body & e & -> & ->) | (body & record & -> & -> & Hr)]];
      simpl; eauto. }
  destruct Hrun as (r & evs & Hrun & Hr). destruct Hc as [Hc | Hc].
  - rewrite (parseSearchText_RsNumber _ _ _ _ Hc). unfold then_, catch_.
    rewrite Hrun. now destruct Hr as [-> | ->].
  - rewrite (parseSearchText_GeneTerm _ _ _ _ Hc). unfold then_ at 1 2, catch_ at 1.
    rewrite Hrun. now destruct Hr as [-> | ->].
Qed.

Lemma is_undefined_true (v : value) : is_undefined v = true -> v = VUndefined.
Proof. now destruct v. Qed.

Lemma gene_id_handed_over (result gene_id : value) :
  get result "gene_id" = Return gene_id ->
  (let* gene_id := get result "gene_id" in
   if is_undefined gene_id then Return VUndefined else Return gene_id) = Return gene_id.
Proof.
  intros ->. simpl. destruct (is_undefined gene_id) eqn:E; [|reflexivity].
  now rewrite (is_undefined_true _ E).
Qed.

(** On the gene branch, once the omnisearch has answered a record, the
    second request is made with whatever its [gene_id] holds. *)
Lemma gene_branch_second_step (searchText : string) (myJson result gene_id : value) t :
  classify searchText = GeneTerm ->
  http_result (net (omniurl searchText)) = Fulfilled myJson ->
  data_0 myJson = Return result ->
  get result "gene_id" = Return gene_id ->
  parseSearchText Number_toString_other engine_message net searchText t =
    (best_variant_step' gene_id .catch failureCallback engine_message)
      (t ++ [Request (omniurl searchText)]).
Proof.
  intros Hc Hjson Hdata Hid. rewrite (parseSearchText_GeneTerm _ _ _ _ Hc).
  unfold then_ at 1 2, catch_ at 1 2.
  rewrite (getOmniSearch_emits engine_message net searchText t).
  unfold getOmniSearch_summary. rewrite Hjson, Hdata. simpl fst; simpl snd.
  cbv beta match. rewrite (gene_id_handed_over result gene_id Hid).
  reflexivity.
Qed.

(** The second step brings nothing when the [gene_id] does not print,
    when the lookup brings no record and when the record has no string
    [chrom]. *)
Lemma best_variant_step_unresolved (gene_id : value) t :
  printable gene_id = false
  \/ no_record (http_result (net (bestVarURL Number_toString_other gene_id)))
       (fun resp => get resp "data")
  \/ (exists resp best chrom,
        http_result (net (bestVarURL Number_toString_other gene_id)) = Fulfilled resp
        /\ get resp "data" = Return best
        /\ get best "chrom" = Return chrom
        /\ forall c, chrom <> VStr c) ->
  fst ((best_variant_step' gene_id .catch failureCallback engine_message) t)
  = Fulfilled VUndefined.
Proof.
  intros H. unfold best_variant_step. destruct (printable gene_id) eqn:Hp.
  2: { now rewrite (getBestVar_throws Number_toString_other engine_message net gene_id Hp). }
  destruct (getBestVar_printable Number_toString_other engine_message net gene_id Hp)
    as [bestVar E].
  rewrite E. simpl after. unfold then_, catch_.
  rewrite (getBestVar_emits Number_toString_other engine_message net gene_id bestVar E).
  unfold getBestVar_summary, js_String. rewrite Hp.
  destruct H as [H | [H | (resp & best & chrom & -> & -> & Hchrom & Hstr)]];
    [discriminate| |].
  - destruct H as [[e ->] | [(body & e & -> & ->) | (body & record & -> & -> & Hr)]];
      simpl; try reflexivity.
    now destruct Hr as [-> | ->].
  - simpl. destruct (get best "pos") as [pos|e]; simpl; [|reflexivity].
    destruct (js_parseInt Number_toString_other pos) as [n|e]; simpl; [|reflexivity].
    rewrite Hchrom. simpl.
    destruct chrom as [| |b|n'|c|l|l]; try reflexivity. now destruct (Hstr c).
Qed.

Lemma unresolved_absorbed (p : promise value) :
  careful p -> (forall t, fst (p t) = Fulfilled VUndefined) -> absorbed p.
Proof.
  intros (r & evs & Hrun & Hlog) H. specialize (H []). rewrite Hrun in H. simpl in H.
  subst r. exists evs. split; [exact Hrun | now apply Hlog].
Qed.

Lemma rs_branch_record (searchText : string) (myJson result chrom start end_ : value) t :
  classify searchText = RsNumber ->
  http_result (net (omniurl searchText)) = Fulfilled myJson ->
  data_0 myJson = Return result ->
  get result "chrom" = Return chrom ->
  get result "start" = Return start ->
  get result "end" = Return end_ ->
  parseSearchText Number_toString_other engine_message net searchText t =
    (Fulfilled (location "variant" chrom start end_), t ++ [Request (omniurl searchText)]).
Proof.
  intros Hc Hjson Hdata Hchrom Hstart Hend. rewrite (parseSearchText_RsNumber _ _ _ _ Hc).
  unfold then_, catch_.
  rewrite (getOmniSearch_emits engine_message net searchText t).
  unfold getOmniSearch_summary. rewrite Hjson, Hdata. simpl fst; simpl snd.
  cbv beta match. rewrite Hchrom. simpl cbind. rewrite Hstart. simpl cbind.
  rewrite Hend. reflexivity.
Qed.

(** On the gene branch, when both lookups bring a record and the best
    variant has a string [chrom], the result is the variant at what
    [parseInt] reads in [pos]. *)
Lemma gene_branch_record (searchText : string)
  (myJson result gene_id resp best pos : value) (chrom : string) t :
  classify searchText = GeneTerm ->
  http_result (net (omniurl searchText)) = Fulfilled myJson ->
  data_0 myJson = Return result ->
  get result "gene_id" = Return gene_id ->
  printable gene_id = true ->
  http_result (net (bestVarURL Number_toString_other gene_id)) = Fulfilled resp ->
  get resp "data" = Return best ->
  get best "pos" = Return pos ->
  printable pos = true ->
  get best "chrom" = Return (VStr chrom) ->
  parseSearchText Number_toString_other engine_message net searchText t =
    (Fulfilled (VObj [("type", VStr "variant");
                      ("chrom", VStr (String_replace chrom "chr" ""));
                      ("start", VNum (parseInt Number_toString_other pos));
                      ("end", VNum (parseInt Number_toString_other pos))]),
     t ++ [Request (omniurl searchText);
           Request (bestVarURL Number_toString_other gene_id)]).
Proof.
  intros Hc Hjson Hdata Hid Hp Hbest Hbdata Hpos Hppos Hchrom.
  rewrite (gene_branch_second_step searchText myJson result gene_id t Hc Hjson Hdata Hid).
  unfold best_variant_step.
  destruct (getBestVar_printable Number_toString_other engine_message net gene_id Hp)
    as [bestVar E].
  rewrite E. simpl after. unfold then_, catch_.
  rewrite (getBestVar_emits Number_toString_other engine_message net gene_id bestVar E).
  unfold getBestVar_summary. rewrite Hbest, Hbdata. simpl. rewrite Hpos. simpl.
  unfold js_parseInt, js_String. rewrite Hppos. simpl. rewrite Hchrom. simpl.
  now rewrite <- app_assoc.
Qed.

(** C7 (as the code has it).  Whatever the input and whatever the two
    lookups do, the promise of [parseSearchText] is never rejected, it
    behaves the same on every trace, and it never settles as [undefined]
    without a console line.  Every lookup that brings no record is
    absorbed, the result being [undefined] with a console line: a
    request that is rejected, answered with a non-success status or
    with a body that is not JSON, a body without [data], an omnisearch
    whose [data] is empty; so are a [gene_id] that cannot be converted
    to a string and a best variant without a string [chrom].  A record
    that lacks other fields is not a failure: on the rs branch the
    variant is built from what [chrom], [start] and [end] read,
    [undefined] included, and nothing is logged; on the gene branch a
    best variant without [pos] gives a variant at [NaN]. *)
Theorem parseSearchText_absorbs_failures (searchText : string) :
  (forall t e,
      fst (parseSearchText Number_toString_other engine_message net searchText t) <> Rejected e)
  /\ (exists r evs,
         (forall t,
             parseSearchText Number_toString_other engine_message net searchText t = (r, t ++ evs))
         /\ (r = Fulfilled VUndefined -> exists line, In (Console line) evs))
  /\ (classify searchText = RsNumber \/ classify searchText = GeneTerm ->
      no_record (http_result (net (omniurl searchText))) data_0 ->
      absorbed (parseSearchText Number_toString_other engine_message net searchText))
  /\ (forall myJson result gene_id,
         classify searchText = GeneTerm ->
         http_result (net (omniurl searchText)) = Fulfilled myJson ->
         data_0 myJson = Return result ->
         get result "gene_id" = Return gene_id ->
         printable gene_id = false
         \/ no_record (http_result (net (bestVarURL Number_toString_other gene_id)))
              (fun resp => get resp "data")
         \/ (exists resp best chrom,
               http_result (net (bestVarURL Number_toString_other gene_id)) = Fulfilled resp
               /\ get resp "data" = Return best
               /\ get best "chrom" = Return chrom
               /\ forall c, chrom <> VStr c) ->
         absorbed (parseSearchText Number_toString_other engine_message net searchText))
  /\ (forall myJson result chrom start end_,
         classify searchText = RsNumber ->
         http_result (net (omniurl searchText)) = Fulfilled myJson ->
         data_0 myJson = Return result ->
         get result "chrom" = Return chrom ->
         get result "start" = Return start ->
         get result "end" = Return end_ ->
         forall t, parseSearchText Number_toString_other engine_message net searchText t =
                     (Fulfilled (VObj [("type", VStr "variant"); ("chrom", chrom);
                                       ("start", start); ("end", end_)]),
                      t ++ [Request (omniurl searchText)]))
  /\ (forall myJson result gene_id resp best chrom,
         classify searchText = GeneTerm ->
         http_result (net (omniurl searchText)) = Fulfilled myJson ->
         data_0 myJson = Return result ->
         get result "gene_id" = Return gene_id ->
         printable gene_id = true ->
         http_result (net (bestVarURL Number_toString_other gene_id)) = Fulfilled resp ->
         get resp "data" = Return best ->
         get best "pos" = Return VUndefined ->
         get best "chrom" = Return (VStr chrom) ->
         forall t, parseSearchText Number_toString_other engine_message net searchText t =
                     (Fulfilled (VObj [("type", VStr "variant");
                                       ("chrom", VStr (String_replace chrom "chr" ""));
                                       ("start", VNum NaN); ("end", VNum NaN)]),
                      t ++ [Request (omniurl searchText);
                            Request (bestVarURL Number_toString_other gene_id)])).
Proof.
  split; [apply safe_parseSearchText|].
  split; [apply careful_parseSearchText|].
  split; [|split; [|split]].
  - intros Hc H. apply unresolved_absorbed; [apply careful_parseSearchText|].
    now apply omnisearch_no_record.
  - intros myJson result gene_id Hc Hjson Hdata Hid H.
    apply unresolved_absorbed; [apply careful_parseSearchText|]. intros t.
    rewrite (gene_branch_second_step searchText myJson result gene_id t Hc Hjson Hdata Hid).
    now apply best_variant_step_unresolved.
  - intros myJson result chrom start end_ Hc Hjson Hdata Hchrom Hstart Hend t.
    now apply (rs_branch_record searchText myJson result).
  - intros myJson result gene_id resp best chrom Hc Hjson Hdata Hid Hp Hbest Hbdata
      Hpos Hchrom t.
    now apply (gene_branch_record searchText myJson result gene_id resp best VUndefined).
Qed.

(** C1 (failing input).  On the gene branch, when the omnisearch answers
    [{data: [{}]}], a record without [gene_id], the second request is
    made all the same, for the gene [undefined]; with a server that
    does not know that URL two console lines are written. *)
Theorem getBestVar_called_without_gene_id (searchText : string) t :
  classify searchText = GeneTerm ->
  net (omniurl searchText) = ok_response no_gene_id_body ->
  net "/api/gene/undefined/bestvar/" = not_found ->
  parseSearchText Number_toString_other engine_message net searchText t =
    (Fulfilled VUndefined,
     t ++ [Request (omniurl searchText);
           Request "/api/gene/undefined/bestvar/";
           Console "Error status: Error: NOT FOUND";
           Console ("Unable to the best variant for the gene "
                    +:+ dquote +:+ "undefined" +:+ dquote)]).
Proof.
  intros Hc Homni Hbest.
  rewrite (gene_branch_second_step searchText no_gene_id_body (VObj []) VUndefined t Hc);
    [| unfold http_result; now rewrite Homni | reflexivity | reflexivity].
  unfold best_variant_step.
  destruct (getBestVar_printable Number_toString_other engine_message net VUndefined eq_refl)
    as [bestVar E].
  rewrite E. simpl after. unfold then_, catch_.
  rewrite (getBestVar_emits Number_toString_other engine_message net VUndefined bestVar E).
  unfold getBestVar_summary, http_result.
  change (bestVarURL Number_toString_other VUndefined) with "/api/gene/undefined/bestvar/".
  rewrite Hbest. simpl. rewrite <- !app_assoc. reflexivity.
Qed.

End Absorption.

Lemma getBestVar_called_without_gene_id_witness :
  classify "zzz_not_a_gene" = GeneTerm
  /\ parseSearchText (fun _ => "") (fun _ => "") (net_no_gene_id "zzz_not_a_gene")
       "zzz_not_a_gene" [] =
       (Fulfilled VUndefined,
        [Request (omniurl "zzz_not_a_gene");
         Request "/api/gene/undefined/bestvar/";
         Console "Error status: Error: NOT FOUND";
         Console ("Unable to the best variant for the gene "
                  +:+ dquote +:+ "undefined" +:+ dquote)]).
Proof.
  split; [reflexivity|].
  exact (getBestVar_called_without_gene_id (fun _ => "") (fun _ => "")
           (net_no_gene_id "zzz_not_a_gene") "zzz_not_a_gene" [] eq_refl eq_refl eq_refl).
Defined.

Lemma parseSearchText_absorbs_failures_witness :
  absorbed (parseSearchText (fun _ => "") (fun _ => "") (fun _ => not_found) "rs7412")
  /\ absorbed (parseSearchText (fun _ => "") (fun _ => "")
                (serve (omniurl "rs7412") (ok_response (VObj [("data", VArr [])]))
                   (fun _ => not_found)) "rs7412")
  /\ absorbed (parseSearchText (fun _ => "") (fun _ => "")
                (serve (omniurl "APOE") (ok_response APOE_body) (fun _ => not_found)) "APOE")
  /\ parseSearchText (fun _ => "") (fun _ => "") (net_no_gene_id "rs7412") "rs7412" []
     = (Fulfilled (VObj [("type", VStr "variant"); ("chrom", VUndefined);
                         ("start", VUndefined); ("end", VUndefined)]),
        [Request (omniurl "rs7412")])
  /\ parseSearchText (fun _ => "") (fun _ => "")
       (serve (omniurl "APOE") (ok_response APOE_body)
          (serve "/api/gene/ENSG00000130203/bestvar/"
             (ok_response (VObj [("data", VObj [("chrom", VStr "chr19")])]))
             (fun _ => not_found))) "APOE" []
     = (Fulfilled (VObj [("type", VStr "variant"); ("chrom", VStr "19");
                         ("start", VNum NaN); ("end", VNum NaN)]),
        [Request (omniurl "APOE"); Request "/api/gene/ENSG00000130203/bestvar/"]).
Proof.
  split; [|split; [|split; [|split]]].
  - apply (proj1 (proj2 (proj2
             (parseSearchText_absorbs_failures (fun _ => "") (fun _ => "")
                (fun _ => not_found) "rs7412")))).
    + left; reflexivity.
    + left. exists (Error "NOT FOUND"). reflexivity.
  - apply (proj1 (proj2 (proj2
             (parseSearchText_absorbs_failures (fun _ => "") (fun _ => "")
                (serve (omniurl "rs7412") (ok_response (VObj [("data", VArr [])]))
                   (fun _ => not_found)) "rs7412")))).
    + left; reflexivity.
    + right; right. exists (VObj [("data", VArr [])]), VUndefined.
      repeat split; try reflexivity. now left.
  - apply (proj1 (proj2 (proj2 (proj2
             (parseSearchText_absorbs_failures (fun _ => "") (fun _ => "")
                (serve (omniurl "APOE") (ok_response APOE_body) (fun _ => not_found))
                "APOE"))))
             APOE_body (VObj [("gene_id", VStr "ENSG00000130203")])
             (VStr "ENSG00000130203") eq_refl eq_refl eq_refl eq_refl).
    right; left. left. exists (Error "NOT FOUND"). reflexivity.
  - exact (proj1 (proj2 (proj2 (proj2 (proj2
              (parseSearchText_absorbs_failures (fun _ => "") (fun _ => "")
                 (net_no_gene_id "rs7412") "rs7412")))))
              no_gene_id_body (VObj []) VUndefined VUndefined VUndefined
              eq_refl eq_refl eq_refl eq_refl eq_refl eq_refl []).
  - exact (proj2 (proj2 (proj2 (proj2 (proj2
              (parseSearchText_absorbs_failures (fun _ => "") (fun _ => "")
                 (serve (omniurl "APOE") (ok_response APOE_body)
                    (serve "/api/gene/ENSG00000130203/bestvar/"
                       (ok_response (VObj [("data", VObj [("chrom", VStr "chr19")])]))
                       (fun _ => not_found))) "APOE")))))
              APOE_body (VObj [("gene_id", VStr "ENSG00000130203")])
              (VStr "ENSG00000130203")
              (VObj [("data", VObj [("chrom", VStr "chr19")])])
              (VObj [("chrom", VStr "chr19")]) "chr19"
              eq_refl eq_refl eq_refl eq_refl eq_refl eq_refl eq_refl eq_refl eq_refl []).
Defined.

Lemma missing_fields_are_not_absorbed :
  let run := parseSearchText (fun _ => "") (fun _ => "") (net_no_gene_id "rs7412")
               "rs7412" [] in
  fst run = Fulfilled (VObj [("type", VStr "variant"); ("chrom", VUndefined);
                             ("start", VUndefined); ("end", VUndefined)])
  /\ fst run <> Fulfilled VUndefined
  /\ forall line, ~ In (Console line) (snd run).
Proof.
  vm_compute. split; [reflexivity|]. split; [discriminate|].
  intros line [H | []]. discriminate.
Qed.

(** ** The order on numbers *)

Ltac number_cases :=
  unfold num_le, num_lt, num_eq;
  rewrite ?orb_true_iff, ?orb_false_iff, ?negb_true_iff, ?negb_false_iff,
    <- ?not_true_iff_false, ?Qle_bool_iff, ?Qeq_bool_iff.

Lemma num_le_Finite (a b : Q) : num_le (Finite a) (Finite b) = true <-> (a <= b)%Q.
Proof. number_cases. split; [intros [H | H] | intros H]; lra. Qed.

Lemma num_le_trans (a b c : number) :
  num_le a b = true -> num_le b c = true -> num_le a c = true.
Proof.
  destruct a as [x| | |], b as [y| | |], c as [z| | |]; simpl; try discriminate;
    try reflexivity.
  rewrite !num_le_Finite. lra.
Qed.

Lemma num_lt_le (a b : number) : num_lt a b = true -> num_le a b = true.
Proof. unfold num_le. now intros ->. Qed.

Lemma num_not_lt_ge (a b : number) :
  a <> NaN -> b <> NaN -> num_lt a b = false -> num_le b a = true.
Proof.
  destruct a as [x| | |], b as [y| | |]; simpl; try discriminate; try reflexivity;
    try congruence.
  intros _ _. number_cases. intros H. destruct (Qlt_le_dec y x); [left|right]; lra.
Qed.

Lemma num_lt_not_eq (a b : number) : num_lt a b = true -> num_eq a b = false.
Proof.
  destruct a as [x| | |], b as [y| | |]; simpl; try discriminate; try reflexivity.
  number_cases. lra.
Qed.

(** ** Sorting *)

Section SortFacts.

Context {A : Type} (compare : A -> A -> completion Z).

Hypothesis compare_returns : forall x y, exists c, compare x y = Return c.

Lemma sort_insert_permutation (x : A) (l : list A) :
  exists l', sort_insert compare x l = Return l' /\ Permutation (x :: l) l'.
Proof.
  induction l as [|y l IH]; simpl; [now exists [x]|].
  destruct (compare_returns x y) as [c ->]; simpl.
  destruct (0 <? c)%Z; [|now eexists].
  destruct IH as (l' & -> & Hperm); simpl. exists (y :: l'). split; [reflexivity|].
  rewrite perm_swap. now apply perm_skip.
Qed.

Lemma Array_sort_permutation (l : list A) :
  exists l', Array_sort compare l = Return l' /\ Permutation l l'.
Proof.
  induction l as [|x l IH]; simpl; [now exists []|].
  destruct IH as (l1 & -> & Hperm); simpl.
  destruct (sort_insert_permutation x l1) as (l' & -> & Hperm').
  exists l'. split; [reflexivity|]. rewrite <- Hperm'. now apply perm_skip.
Qed.

(** With a comparison that follows a key, the largest key comes first. *)
Variable key : A -> number.
Variable good : A -> Prop.
Hypothesis good_key : forall x, good x -> key x <> NaN.
Hypothesis compare_key :
  forall x y c, good x -> good y -> compare x y = Return c ->
                (0 <? c)%Z = num_lt (key x) (key y).

Lemma sort_insert_head (x : A) (l l' : list A) :
  good x -> Forall good l -> head_is_largest key l ->
  sort_insert compare x l = Return l' -> head_is_largest key l'.
Proof.
  intros Hx Hl Hhead. destruct l as [|y l]; simpl.
  - intros [= <-]. intros y [].
  - apply Forall_cons_iff in Hl as [Hy Hl].
    destruct (compare_returns x y) as [c Hc]. rewrite Hc; simpl.
    rewrite (compare_key x y c Hx Hy Hc).
    destruct (num_lt (key x) (key y)) eqn:Hlt.
    + destruct (sort_insert_permutation x l) as (l1 & -> & Hperm); simpl.
      intros [= <-]. intros z Hz. apply (Permutation_in _ (Permutation_sym Hperm)) in Hz.
      destruct Hz as [<- | Hz]; [now apply num_lt_le | now apply Hhead].
    + intros [= <-]. intros z [<- | Hz].
      * apply num_not_lt_ge; auto.
      * apply num_le_trans with (key y); [now apply Hhead|].
        apply num_not_lt_ge; auto.
Qed.

Lemma Array_sort_head (l l' : list A) :
  Forall good l -> Array_sort compare l = Return l' -> head_is_largest key l'.
Proof.
  revert l'. induction l as [|x l IH]; intros l' Hl; simpl.
  - now intros [= <-].
  - apply Forall_cons_iff in Hl as [Hx Hl].
    destruct (Array_sort_permutation l) as (l1 & E & Hperm). rewrite E; simpl.
    apply sort_insert_head; auto.
    apply List.Forall_forall. intros y Hy. rewrite List.Forall_forall in Hl. apply Hl.
    now apply (Permutation_in _ (Permutation_sym Hperm)).
Qed.

End SortFacts.

(** A comparison that throws ends the sort of two elements or more. *)
Lemma Array_sort_throws {A} (compare : A -> A -> completion Z) (e : error) (l : list A) :
  (forall x y, compare x y = Throw e) -> (2 <= length l)%nat ->
  Array_sort compare l = Throw e.
Proof.
  intros Hc Hlen. destruct l as [|x l]; [simpl in Hlen; lia|].
  revert x Hlen. induction l as [|y l IH]; intros x Hlen; [simpl in Hlen; lia|].
  change (Array_sort compare (x :: y :: l))
    with (let* rest' := Array_sort compare (y :: l) in sort_insert compare x rest').
  destruct l as [|z l].
  - simpl. now rewrite Hc.
  - rewrite (IH y) by (simpl; lia). reflexivity.
Qed.

(** ** Ranks *)

Lemma assign_ranks_other_field (l : list ref) (k : nat) (h : store) (r : ref) (f : string) :
  f <> "top_value_rank" -> assign_ranks l k h r !! f = h r !! f.
Proof.
  intros Hf. revert k h. induction l as [|x l IH]; intros k h; simpl; [reflexivity|].
  rewrite IH. destruct (decide (x = r)) as [->|Hne].
  - rewrite fn_lookup_insert. now rewrite lookup_insert_ne.
  - now rewrite fn_lookup_insert_ne.
Qed.

Lemma assign_ranks_not_in (l : list ref) (k : nat) (h : store) (r : ref) :
  ~ In r l -> assign_ranks l k h r = h r.
Proof.
  revert k h. induction l as [|x l IH]; intros k h Hr; simpl; [reflexivity|].
  rewrite IH by (intros H; apply Hr; now right).
  apply fn_lookup_insert_ne. intros ->. apply Hr. now left.
Qed.

Lemma assign_ranks_in (l : list ref) (k : nat) (h : store) (r : ref) :
  In r l ->
  exists i, (k <= i < k + length l)%nat
            /\ assign_ranks l k h r !! "top_value_rank" = Some (int (Z.of_nat i + 1)).
Proof.
  revert k h. induction l as [|x l IH]; intros k h Hr; [destruct Hr|]. simpl.
  destruct (in_dec Nat.eq_dec r l) as [Hin | Hout].
  - destruct (IH (S k) (<[x := <["top_value_rank" := int (Z.of_nat k + 1)]> (h x)]> h) Hin)
      as (i & Hi & E).
    exists i. split; [lia | exact E].
  - destruct Hr as [-> | Hr]; [|contradiction].
    exists k. split; [lia|].
    rewrite assign_ranks_not_in by exact Hout.
    rewrite fn_lookup_insert. apply lookup_insert_eq.
Qed.

Lemma rank_one_is_head (x : ref) (rest : list ref) (h : store) (r : ref) :
  List.NoDup (x :: rest) -> In r (x :: rest) ->
  assign_ranks (x :: rest) 0 h r !! "top_value_rank" = Some (int 1) -> r = x.
Proof.
  intros Hnd [-> | Hr]; [reflexivity|]. simpl. intros E.
  destruct (assign_ranks_in rest 1
              (<[x := <["top_value_rank" := int (Z.of_nat 0 + 1)]> (h x)]> h) r Hr)
    as (i & Hi & E').
  rewrite E in E'. injection E' as E'. lia.
Qed.

Lemma head_has_rank_one (x : ref) (rest : list ref) (h : store) :
  List.NoDup (x :: rest) ->
  assign_ranks (x :: rest) 0 h x !! "top_value_rank" = Some (int 1).
Proof.
  intros Hnd. apply NoDup_cons_iff in Hnd as [Hx _]. simpl.
  rewrite assign_ranks_not_in by exact Hx.
  rewrite fn_lookup_insert. apply lookup_insert_eq.
Qed.

(** ** [annotateData] *)

Section PheGETFacts.

Variable chain : header.
Variable h : store.

Lemma getValue_recognised (o : record) :
  recognised (y_field chain) = true -> getValue chain o = Return (y_value chain o).
Proof.
  unfold recognised, y_value, getValue.
  destruct (is_string (y_field chain) "log_pvalue"); [reflexivity|].
  destruct (is_string (y_field chain) "beta"); [reflexivity|].
  destruct (is_string (y_field chain) "pip"); [reflexivity | discriminate].
Qed.

Lemma getValue_unrecognised (o : record) :
  recognised (y_field chain) = false ->
  getValue chain o = Throw (Error "Unrecognized sort field").
Proof.
  unfold recognised, getValue.
  destruct (is_string (y_field chain) "log_pvalue"); [discriminate|].
  destruct (is_string (y_field chain) "beta"); [discriminate|].
  destruct (is_string (y_field chain) "pip"); [discriminate | reflexivity].
Qed.

(** What is ranked: [log_pvalue] and [pip] as they are, [beta] by its
    absolute value. *)
Lemma y_value_cases (o : record) :
  (y_field chain = VStr "log_pvalue" -> y_value chain o = o !! "log_pvalue")
  /\ (y_field chain = VStr "beta" ->
      y_value chain o = Some (Math_abs (ToNumber (o !! "beta"))))
  /\ (y_field chain = VStr "pip" -> y_value chain o = o !! "pip").
Proof. unfold y_value, getValue. repeat split; intros ->; reflexivity. Qed.

Lemma by_value_returns :
  recognised (y_field chain) = true ->
  forall a b, exists c, by_value chain h a b = Return c.
Proof.
  intros Hrec a b. unfold by_value. rewrite !getValue_recognised by exact Hrec.
  simpl. now eexists.
Qed.

Lemma by_value_key (a b : ref) (c : Z) :
  recognised (y_field chain) = true ->
  comparable (y_value chain (h a)) -> comparable (y_value chain (h b)) ->
  by_value chain h a b = Return c ->
  (0 <? c)%Z = num_lt (ToNumber (y_value chain (h a))) (ToNumber (y_value chain (h b))).
Proof.
  intros Hrec (x & Ex & _) (y & Ey & _). unfold by_value.
  rewrite !getValue_recognised by exact Hrec. rewrite Ex, Ey. simpl.
  intros [= <-]. unfold js_lt. simpl.
  destruct (num_lt x y) eqn:Hlt.
  - now rewrite (num_lt_not_eq x y Hlt).
  - now destruct (num_eq x y).
Qed.

Lemma comparable_key (v : option number) : comparable v -> ToNumber v <> NaN.
Proof. now intros (n & -> & Hn). Qed.

Lemma ranked_value_spec (field : string) (o : record) :
  y_field chain = VStr field -> recognised (y_field chain) = true ->
  ToNumber (y_value chain o) = ranked_value field o.
Proof.
  intros E Hrec. unfold y_value, getValue, ranked_value, recognised in *.
  rewrite E in *. simpl in *.
  destruct (String.eqb field "log_pvalue") eqn:E1.
  { apply String.eqb_eq in E1 as ->. reflexivity. }
  destruct (String.eqb field "beta") eqn:E2; [reflexivity|].
  destruct (String.eqb field "pip") eqn:E3; [|discriminate Hrec].
  apply String.eqb_eq in E3 as ->. reflexivity.
Qed.

Lemma ranked_value_comparable (field : string) (o : record) :
  y_field chain = VStr field -> recognised (y_field chain) = true ->
  ranked_value field o <> NaN -> comparable (y_value chain o).
Proof.
  intros E Hrec. rewrite <- (ranked_value_spec field o E Hrec).
  destruct (y_value chain o) as [n|]; simpl; [|congruence].
  intros Hn. now exists n.
Qed.

Lemma by_value_throws :
  recognised (y_field chain) = false ->
  forall a b, by_value chain h a b = Throw (Error "Unrecognized sort field").
Proof.
  intros Hrec a b. unfold by_value. now rewrite getValue_unrecognised.
Qed.

Lemma annotateData_unfold (records : list ref) :
  annotateData chain h records =
    let kept := List.filter (fun r => within chain (h r)) records in
    let* shallow_copy := Array_sort (by_value chain h) kept in
    Return (kept, assign_ranks shallow_copy 0 h).
Proof. reflexivity. Qed.

(** C10 (as the code has it).  [annotateData] keeps, in their order,
    the records whose [tss_distance] is at most the maximum and at
    least the minimum of the header.  With a sort field among
    [log_pvalue], [beta] and [pip] it returns them, touches no field
    but [top_value_rank], and gives every returned record a rank
    between 1 and their number; when the records are distinct objects
    and their values ([log_pvalue] and [pip] as they are, [beta] by its
    absolute value) are numbers other than NaN, a record has rank 1
    and every record of rank 1 has the largest value.  With any other
    sort field it throws as soon as two records are kept, and returns
    without throwing when fewer are. *)
Theorem annotateData_ranks (records : list ref) :
  let kept := List.filter (fun r => within chain (h r)) records in
  (forall r, In r kept <->
             In r records
             /\ js_le (h r !! "tss_distance") (maximum_tss_distance chain) = true
             /\ js_ge (h r !! "tss_distance") (minimum_tss_distance chain) = true)
  /\ (recognised (y_field chain) = true ->
      exists h',
        annotateData chain h records = Return (kept, h')
        /\ (forall r f, f <> "top_value_rank" -> h' r !! f = h r !! f)
        /\ (forall r, In r kept ->
                      exists k, (1 <= k <= Z.of_nat (length kept))%Z
                                /\ h' r !! "top_value_rank" = Some (int k))
        /\ (forall field,
              y_field chain = VStr field -> List.NoDup kept ->
              (forall r, In r kept -> ranked_value field (h r) <> NaN) ->
              (kept <> [] ->
               exists r, In r kept /\ h' r !! "top_value_rank" = Some (int 1))
              /\ forall r, In r kept -> h' r !! "top_value_rank" = Some (int 1) ->
                   forall r', In r' kept ->
                     num_le (ranked_value field (h r')) (ranked_value field (h r)) = true))
  /\ (recognised (y_field chain) = false ->
      ((2 <= length kept)%nat ->
       annotateData chain h records = Throw (Error "Unrecognized sort field"))
      /\ ((length kept < 2)%nat ->
          annotateData chain h records = Return (kept, assign_ranks kept 0 h))).
Proof.
  intros kept. split; [|split].
  - intros r. unfold kept. rewrite filter_In. unfold within.
    now rewrite andb_true_iff.
  - intros Hrec. rewrite annotateData_unfold. fold kept. cbv zeta.
    destruct (Array_sort_permutation (by_value chain h) (by_value_returns Hrec) kept)
      as (sorted & Hsort & Hperm).
    rewrite Hsort. simpl. exists (assign_ranks sorted 0 h).
    split; [reflexivity|]. split; [intros r f; apply assign_ranks_other_field|].
    split.
    + intros r Hr. apply (Permutation_in _ Hperm) in Hr.
      destruct (assign_ranks_in sorted 0 h r Hr) as (i & Hi & E).
      exists (Z.of_nat i + 1)%Z. rewrite (Permutation_length Hperm). split; [lia | exact E].
    + intros field Hfield Hnd Hnan.
      assert (Hcomp : forall r, In r kept -> comparable (y_value chain (h r)))
        by (intros r Hr; apply (ranked_value_comparable field _ Hfield Hrec); now apply Hnan).
      assert (Hnd' : List.NoDup sorted) by now apply (Permutation_NoDup Hperm).
      assert (Hhead : head_is_largest (fun r => ToNumber (y_value chain (h r))) sorted).
      { apply (Array_sort_head (by_value chain h) (by_value_returns Hrec)
                 (fun r => ToNumber (y_value chain (h r)))
                 (fun r => comparable (y_value chain (h r)))) with (l := kept); auto.
        - intros x Hx. now apply comparable_key.
        - intros x y c Hx Hy. now apply by_value_key.
        - now apply List.Forall_forall. }
      destruct sorted as [|x rest].
      { apply Permutation_sym, Permutation_nil in Hperm. split; [congruence|].
        intros r Hr. rewrite Hperm in Hr. destruct Hr. }
      split.
      * intros _. exists x. split; [|now apply head_has_rank_one].
        apply (Permutation_in _ (Permutation_sym Hperm)). now left.
      * intros r Hr Hrank r' Hr'.
        rewrite <- !(ranked_value_spec field _ Hfield Hrec).
        apply (Permutation_in _ Hperm) in Hr, Hr'.
        apply (rank_one_is_head x rest h r Hnd' Hr) in Hrank as ->.
        destruct Hr' as [<- | Hr']; [|now apply Hhead].
        unfold num_le.
        assert (Hx : comparable (y_value chain (h x)))
          by (apply Hcomp, (Permutation_in _ (Permutation_sym Hperm)); now left).
        destruct Hx as (n & -> & Hn). simpl.
        destruct n as [q| | |]; simpl; try congruence; try apply orb_true_r.
        rewrite orb_true_iff. right. apply Qeq_bool_iff. reflexivity.
  - intros Hrec. rewrite annotateData_unfold. fold kept. cbv zeta. split.
    + intros Hlen.
      now rewrite (Array_sort_throws _ _ kept (by_value_throws Hrec) Hlen).
    + intros Hlen. destruct kept as [|x [|y l]]; [reflexivity | reflexivity |].
      simpl in Hlen. lia.
Qed.

End PheGETFacts.

Lemma annotateData_ranks_witness :
  (sample_store 0%nat !! "beta" = Some (Finite (-3 # 2))
   /\ sample_store 2%nat !! "beta" = Some (Finite (1 # 2)))
  /\ (exists h',
        annotateData (sample_header "beta") sample_store [0; 1; 2]%nat
          = Return ([0; 2]%nat, h')
        /\ h' 0%nat !! "top_value_rank" = Some (int 1)
        /\ (forall r, In r [0; 2]%nat -> h' r !! "top_value_rank" = Some (int 1) ->
              forall r', In r' [0; 2]%nat ->
                num_le (ranked_value "beta" (sample_store r'))
                       (ranked_value "beta" (sample_store r)) = true))
  /\ annotateData (sample_header "zscore") sample_store [0; 1; 2]%nat
     = Throw (Error "Unrecognized sort field").
Proof.
  split; [split; reflexivity|]. split.
  - destruct (proj1 (proj2 (annotateData_ranks (sample_header "beta") sample_store
                              [0; 1; 2]%nat)) eq_refl)
      as (h' & Hret & _ & _ & Hmax).
    assert (Hnd : List.NoDup [0; 2]%nat).
    { constructor; [intros [H | []]; discriminate|].
      constructor; [intros []|constructor]. }
    assert (Hnan : forall r, In r [0; 2]%nat ->
                     ranked_value "beta" (sample_store r) <> NaN).
    { intros r [<- | [<- | []]]; discriminate. }
    destruct (Hmax "beta" eq_refl Hnd Hnan) as [Hone Hlargest].
    exists h'. split; [exact Hret|]. split; [|exact Hlargest].
    destruct Hone as (r & Hr & Hrank); [discriminate|].
    destruct Hr as [<- | [<- | []]]; [exact Hrank|].
    assert (Hle := Hlargest 2%nat (or_intror (or_introl eq_refl)) Hrank
                     0%nat (or_introl eq_refl)).
    discriminate Hle.
  - apply (proj1 (proj2 (proj2 (annotateData_ranks (sample_header "zscore") sample_store
                                   [0; 1; 2]%nat)) eq_refl)).
    apply le_n.
Defined.

Lemma annotateData_does_not_always_throw :
  (recognised (y_field (sample_header "zscore")) = false
   /\ exists out, annotateData (sample_header "zscore") sample_store [0; 1]%nat = Return out)
  /\ (exists h',
         annotateData (sample_header "beta") sample_store [0; 0]%nat
           = Return ([0; 0]%nat, h')
         /\ forall r, In r [0; 0]%nat -> h' r !! "top_value_rank" = Some (int 2))
  /\ (exists h',
         annotateData (sample_header "beta") bare_store [0; 1]%nat
           = Return ([0; 1]%nat, h')
         /\ forall r r', In r [0; 1]%nat -> In r' [0; 1]%nat ->
              bare_store r !! "beta" = None
              /\ num_le (ranked_value "beta" (bare_store r'))
                        (ranked_value "beta" (bare_store r)) = false).
Proof.
  split; [|split].
  - split; [reflexivity|]. eexists. reflexivity.
  - eexists. split; [reflexivity|]. intros r [<- | [<- | []]]; reflexivity.
  - eexists. split; [reflexivity|].
    intros r r' [<- | [<- | []]] [<- | [<- | []]]; split; reflexivity.
Qed.

(** * Further properties *)

(** ** The matcher only accepts what the pattern denotes *)

Section MatcherSound.

Context {A : Type}.
Implicit Types (k : string -> captures -> option A) (c : captures).

Lemma iterate_sound (r : regex) :
  accepts_only (A:=A) (rmatch r) (lang r) ->
  forall fuel, accepts_only (A:=A) (iterate (rmatch r) fuel)
                 (fun w => w = "" \/ lang (Plus r) w).
Proof.
  intros Hr. induction fuel as [|fuel IH]; intros s c k x H.
  - exists "", s, c. auto.
  - rewrite iterate_S in H.
    destruct (rmatch r s c _) as [y|] eqn:E.
    + injection H as ->.
      apply Hr in E as (w1 & s1 & c1 & -> & Hw1 & E).
      destruct (_ <? _)%nat; [|discriminate].
      apply IH in E as (w2 & rest & c' & -> & Hw2 & Hk).
      exists (w1 +:+ w2), rest, c'. rewrite string_app_assoc. split; [reflexivity|].
      split; [|exact Hk]. right. destruct Hw2 as [-> | Hw2].
      * rewrite string_app_empty_r. now apply lang_Plus_one.
      * now apply lang_Plus_more.
    + exists "", s, c. auto.
Qed.

Lemma rmatch_sound (r : regex) : accepts_only (A:=A) (rmatch r) (lang r).
Proof.
  induction r as [a|lo hi|r1 IH1 r2 IH2|r1 IH1 r2 IH2|r IH|r IH|n r IH|];
    intros s c k x H.
  - destruct s as [|b rest]; [discriminate|]. rewrite rmatch_Chr in H.
    destruct (Ascii.eqb_spec a b) as [<-|]; [|discriminate].
    exists (String a ""), rest, c. repeat split; [constructor | exact H].
  - destruct s as [|b rest]; [discriminate|]. rewrite rmatch_Class in H.
    destruct (in_class lo hi b) eqn:E; [|discriminate].
    exists (String b ""), rest, c. repeat split; [now constructor | exact H].
  - rewrite rmatch_Seq in H.
    apply IH1 in H as (w1 & s1 & c1 & -> & Hw1 & H).
    apply IH2 in H as (w2 & rest & c' & -> & Hw2 & H).
    exists (w1 +:+ w2), rest, c'. rewrite string_app_assoc.
    repeat split; [now constructor | exact H].
  - rewrite rmatch_Alt in H. destruct (rmatch r1 s c k) as [y|] eqn:E.
    + injection H as ->. apply IH1 in E as (w & rest & c' & -> & Hw & E).
      exists w, rest, c'. repeat split; [now apply lang_Alt_l | exact E].
    + apply IH2 in H as (w & rest & c' & -> & Hw & H).
      exists w, rest, c'. repeat split; [now apply lang_Alt_r | exact H].
  - rewrite rmatch_Opt in H. destruct (rmatch r s c k) as [y|] eqn:E.
    + injection H as ->. apply IH in E as (w & rest & c' & -> & Hw & E).
      exists w, rest, c'. repeat split; [now apply lang_Opt_some | exact E].
    + exists "", s, c. repeat split; [apply lang_Opt_none | exact H].
  - rewrite rmatch_Plus in H.
    apply IH in H as (w1 & s1 & c1 & -> & Hw1 & H).
    apply (iterate_sound r IH) in H as (w2 & rest & c' & -> & Hw2 & H).
    exists (w1 +:+ w2), rest, c'. rewrite string_app_assoc.
    split; [reflexivity|]. split; [|exact H]. destruct Hw2 as [-> | Hw2].
    + rewrite string_app_empty_r. now apply lang_Plus_one.
    + now apply lang_Plus_more.
  - rewrite rmatch_Group in H.
    apply IH in H as (w & rest & c' & -> & Hw & H).
    exists w, rest, ((n, consumed (w +:+ rest) rest) :: c').
    repeat split; [now constructor | exact H].
  - exists "", s, c. repeat split; [constructor | exact H].
Qed.

End MatcherSound.

Lemma match_here_sound (r : regex) (s : string) (m : match_array) :
  match_here r s = Some m ->
  exists rest, s = matched m +:+ rest /\ lang r (matched m).
Proof.
  unfold match_here. intros H.
  apply rmatch_sound in H as (w & rest & c' & -> & Hw & [= <-]).
  exists rest. simpl. rewrite consumed_app. auto.
Qed.

Lemma String_match_sound (s : string) (r : regex) (m : match_array) :
  String_match s r = Some m ->
  exists before rest, s = before +:+ matched m +:+ rest /\ lang r (matched m).
Proof.
  induction s as [|a s IH]; simpl.
  - destruct (match_here r "") as [m'|] eqn:E; [|discriminate].
    intros [= ->]. apply match_here_sound in E as (rest & E & Hl).
    exists "", rest. auto.
  - destruct (match_here r (String a s)) as [m'|] eqn:E.
    + intros [= ->]. apply match_here_sound in E as (rest & E & Hl).
      exists "", rest. auto.
    + intros H. apply IH in H as (before & rest & -> & Hl).
      exists (String a before), rest. auto.
Qed.

(** The test [m !== null && searchText === m[0]] holds only on inputs
    of the language of the pattern. *)
Lemma is_whole_sound (s : string) (r : regex) (m : match_array) :
  is_whole s (String_match s r) = Some m -> lang r s.
Proof.
  unfold is_whole. destruct (String_match s r) as [m'|] eqn:E; [|discriminate].
  destruct (String.eqb_spec s (whole m')) as [Es|]; [|discriminate]. intros _.
  apply String_match_sound in E as (before & rest & _ & Hl).
  unfold whole in Es. now rewrite Es.
Qed.

(** ** The classifier decides the three patterns *)

Lemma lang_rs_inv (s : string) :
  lang rsPattern s -> exists digits, lang position_digits digits /\ s = "rs" +:+ digits.
Proof.
  unfold rsPattern. intros H.
  inversion H as [| | | | | | | | |? ? ? Hg|]; subst; clear H.
  inversion Hg as [| |? ? w digits Hw Hd| | | | | | | |]; subst; clear Hg.
  simpl in Hw.
  inversion Hw as [| |? ? a b Ha Hb| | | | | | | |]; subst; clear Hw.
  inversion Ha; subst. inversion Hb; subst. now exists digits.
Qed.

Lemma lang_rs_intro (digits : string) :
  lang position_digits digits -> lang rsPattern ("rs" +:+ digits).
Proof.
  intros Hd. unfold rsPattern. apply lang_Group, lang_Seq; [|exact Hd].
  simpl Word. apply (lang_Seq _ _ "r" "s"); apply lang_Chr.
Qed.

Lemma match_here_rs (digits rest : string) :
  lang position_digits digits -> not_digit_start rest ->
  match_here rsPattern ("rs" +:+ digits +:+ rest) =
    Some {| matched := "rs" +:+ digits; groups := [(1, "rs" +:+ digits)] |}.
Proof.
  intros Hd Hrest. unfold match_here, rsPattern.
  rewrite rmatch_Group, rmatch_Seq. cbn [Word]. norm_app.
  repeat (first [rewrite rmatch_Seq | rewrite rmatch_Chr]; eval_chars; cbv match).
  eapply rmatch_position_digits; eauto.
  change (String "r" (String "s" (digits +:+ rest))) with ("rs" +:+ digits +:+ rest).
  rewrite <- !string_app_assoc, consumed_app. reflexivity.
Qed.

Lemma chromosome_token_first (tok : string) :
  lang chromosome_token tok ->
  exists b tail, tok = String b tail
                 /\ (in_class "1" "9" b = true \/ b = "X" \/ b = "Y" \/ b = "M")%char.
Proof.
  intros [(d & Hd & ->) | [(d1 & d2 & Hd1 & Hd2 & ->) | [-> | [-> | ->]]]]%lang_chromosome_token;
    eexists _, _; (split; [reflexivity|]); auto.
Qed.

(** No input of the position or range shape starts with [r]. *)
Lemma chr_token_not_r (pre tok rest tail : string) :
  chr_prefix pre -> lang chromosome_token tok ->
  pre +:+ tok +:+ rest <> String "r" tail.
Proof.
  intros [-> | ->] (b & tl & -> & Hb)%chromosome_token_first; norm_app; [|discriminate].
  intros [= -> _]. destruct Hb as [Hb | [Hb | [Hb | Hb]]]; discriminate.
Qed.

Lemma rs_is_no_position (digits : string) : ~ lang chromposPattern ("rs" +:+ digits).
Proof.
  intros (pre & tok & ds & Hpre & Htok & _ & E)%lang_chrompos_inv.
  symmetry in E. revert E. norm_app. now apply chr_token_not_r.
Qed.

Lemma rs_is_no_range (digits : string) : ~ lang rangePattern ("rs" +:+ digits).
Proof.
  intros (pre & tok & first & last & Hpre & Htok & _ & _ & E)%lang_range_inv.
  symmetry in E. revert E. norm_app. now apply chr_token_not_r.
Qed.

Lemma is_whole_none (s : string) (r : regex) :
  ~ lang r s -> is_whole s (String_match s r) = None.
Proof.
  intros Hn. destruct (is_whole s (String_match s r)) as [m|] eqn:E; [|reflexivity].
  now apply is_whole_sound in E.
Qed.

Lemma classify_rs (digits : string) :
  lang position_digits digits -> classify ("rs" +:+ digits) = RsNumber.
Proof.
  intros Hd. unfold classify.
  rewrite (is_whole_none _ _ (rs_is_no_position digits)).
  rewrite (is_whole_none _ _ (rs_is_no_range digits)).
  assert (H := match_here_rs digits "" Hd I). rewrite !string_app_empty_r in H.
  rewrite (String_match_here _ _ _ H). unfold is_whole, whole; simpl matched.
  now rewrite string_eqb_refl.
Qed.

(** X1.  The classifier is exact: an input takes the position branch
    exactly when the whole of it is in the language of the position
    pattern, the range branch exactly for the range pattern, the rs
    branch exactly for the rs pattern, and the gene branch exactly when
    it is in none of the three languages. *)
Theorem classify_exact (searchText : string) :
  (lang chromposPattern searchText <-> exists m, classify searchText = Position m)
  /\ (lang rangePattern searchText <-> exists m, classify searchText = Range m)
  /\ (lang rsPattern searchText <-> classify searchText = RsNumber)
  /\ (classify searchText = GeneTerm <->
      ~ lang chromposPattern searchText /\ ~ lang rangePattern searchText
      /\ ~ lang rsPattern searchText).
Proof.
  assert (Hpos : lang chromposPattern searchText -> exists m, classify searchText = Position m).
  { intros (pre & tok & digits & Hpre & Htok & Hdig & ->)%lang_chrompos_inv.
    eexists. now apply classify_position. }
  assert (Hrange : lang rangePattern searchText -> exists m, classify searchText = Range m).
  { intros (pre & tok & first & last & Hpre & Htok & Hf & Hl & ->)%lang_range_inv.
    eexists. now apply classify_range. }
  assert (Hrs : lang rsPattern searchText -> classify searchText = RsNumber).
  { intros (digits & Hd & ->)%lang_rs_inv. now apply classify_rs. }
  assert (Hback :
    match classify searchText with
    | Position _ => lang chromposPattern searchText
    | Range _ => lang rangePattern searchText
    | RsNumber => lang rsPattern searchText
    | GeneTerm => True
    end).
  { unfold classify.
    destruct (is_whole searchText (String_match searchText chromposPattern)) eqn:E1;
      [now apply is_whole_sound in E1|].
    destruct (is_whole searchText (String_match searchText rangePattern)) eqn:E2;
      [now apply is_whole_sound in E2|].
    destruct (is_whole searchText (String_match searchText rsPattern)) eqn:E3;
      [now apply is_whole_sound in E3 | exact I]. }
  repeat split.
  - exact Hpos.
  - intros [m E]. now rewrite E in Hback.
  - exact Hrange.
  - intros [m E]. now rewrite E in Hback.
  - exact Hrs.
  - intros E. now rewrite E in Hback.
  - intros [m E]%Hpos. congruence.
  - intros [m E]%Hrange. congruence.
  - intros E%Hrs. congruence.
  - intros (H1 & H2 & H3). destruct (classify searchText); tauto.
Qed.

(** ** Every run of the resolver *)

Section Runs.

Variable Number_toString_other : Q -> string.
Variable engine_message : error -> string.
Variable net : string -> settled Response.

Ltac run_leaf :=
  eexists _, _; split; [rewrite <- ?app_assoc; reflexivity|];
  simpl; repeat split; auto; try lia;
  unfold location_query; eauto 10.

(** The gene branch after its first step, for a [gene_id] that was
    read. *)
Lemma best_variant_run (gene_id : value) t :
  exists r evs,
    (best_variant_step Number_toString_other engine_message net gene_id
     .catch failureCallback engine_message) t = (r, t ++ evs)
    /\ requests evs = (if printable gene_id
                       then [bestVarURL Number_toString_other gene_id] else [])
    /\ (length (console_lines evs) <= 2)%nat
    /\ location_query r
    /\ (forall type chrom start end_,
          r = Fulfilled (location type chrom start end_) -> type = "variant").
Proof.
  unfold best_variant_step. destruct (printable gene_id) eqn:Hp.
  2: { rewrite (getBestVar_throws Number_toString_other engine_message net gene_id Hp).
       unfold after, catch_, settle, failureCallback, console_log.
       run_leaf; discriminate. }
  destruct (getBestVar_printable Number_toString_other engine_message net gene_id Hp)
    as [bestVar E].
  rewrite E. simpl after. unfold then_, catch_.
  rewrite (getBestVar_emits Number_toString_other engine_message net gene_id bestVar E).
  unfold getBestVar_summary, js_String. rewrite Hp. simpl after.
  destruct (http_result _) as [resp|e|]; simpl.
  - destruct (get resp "data") as [result|e]; simpl.
    + destruct (get result "pos") as [pos_text|e]; simpl; [|run_leaf; discriminate].
      destruct (js_parseInt Number_toString_other pos_text) as [pos|e]; simpl;
        [|run_leaf; discriminate].
      destruct (get result "chrom") as [chrom_text|e]; simpl; [|run_leaf; discriminate].
      destruct (call_replace chrom_text) as [chrom|e]; simpl; [|run_leaf; discriminate].
      run_leaf. now intros ? ? ? ? [= <- _ _ _].
    + run_leaf; discriminate.
  - run_leaf; discriminate.
  - run_leaf; discriminate.
Qed.

Lemma parseSearchText_run (searchText : string) t :
  exists r evs,
    parseSearchText Number_toString_other engine_message net searchText t = (r, t ++ evs)
    /\ (length (console_lines evs) <= 2)%nat
    /\ location_query r
    /\ (forall type chrom start end_,
          r = Fulfilled (location type chrom start end_) ->
          type = "range" -> exists m, classify searchText = Range m)
    /\ match classify searchText with
       | Position _ | Range _ => evs = []
       | RsNumber => requests evs = [omniurl searchText]
       | GeneTerm =>
           (requests evs = [omniurl searchText]
            /\ forall myJson result gene_id,
                 http_result (net (omniurl searchText)) = Fulfilled myJson ->
                 data_0 myJson = Return result ->
                 get result "gene_id" = Return gene_id -> printable gene_id = false)
           \/ (exists myJson result gene_id,
                  http_result (net (omniurl searchText)) = Fulfilled myJson
                  /\ data_0 myJson = Return result
                  /\ get result "gene_id" = Return gene_id
                  /\ printable gene_id = true
                  /\ requests evs = [omniurl searchText;
                                     bestVarURL Number_toString_other gene_id])
       end.
Proof.
  destruct (classify searchText) as [m|m| |] eqn:Hc.
  - rewrite (parseSearchText_Position _ _ _ _ _ Hc). eexists _, []. unfold resolve.
    rewrite app_nil_r. repeat split; simpl; auto.
    + unfold location_query. eauto 10.
    + intros ? ? ? ? [= <- _ _ _]. discriminate.
  - rewrite (parseSearchText_Range _ _ _ _ _ Hc). eexists _, []. unfold resolve.
    rewrite app_nil_r. repeat split; simpl; auto.
    + unfold location_query. eauto 10.
    + eauto.
  - rewrite (parseSearchText_RsNumber _ _ _ _ Hc). unfold then_, catch_.
    rewrite (getOmniSearch_emits engine_message net searchText t).
    unfold getOmniSearch_summary, failureCallback, console_log.
    destruct (http_result _) as [myJson|e|]; simpl;
      [|run_leaf; discriminate|run_leaf; discriminate].
    destruct (data_0 myJson) as [result|e]; simpl; [|run_leaf; discriminate].
    destruct (get result "chrom") as [chrom|e]; simpl; [|run_leaf; discriminate].
    destruct (get result "start") as [start|e]; simpl; [|run_leaf; discriminate].
    destruct (get result "end") as [end_|e]; simpl; [|run_leaf; discriminate].
    run_leaf. intros ? ? ? ? [= <- _ _ _]. discriminate.
  - destruct (http_result (net (omniurl searchText))) as [myJson|e|] eqn:Hjson.
    + destruct (data_0 myJson) as [result|e] eqn:Hdata.
      * destruct (get result "gene_id") as [gene_id|e] eqn:Hid.
        -- rewrite (gene_branch_second_step _ _ _ searchText myJson result gene_id t
                      Hc Hjson Hdata Hid).
           destruct (best_variant_run gene_id (t ++ [Request (omniurl searchText)]))
             as (r & evs & -> & Hreq & Hlines & Hshape & Hvariant).
           exists r, (Request (omniurl searchText) :: evs).
           split; [now rewrite <- app_assoc|]. simpl. rewrite Hreq.
           repeat split; auto.
           ++ intros type chrom start end_ E Ht.
              apply Hvariant in E. congruence.
           ++ destruct (printable gene_id) eqn:Hp.
              ** right. exists myJson, result, gene_id. auto.
              ** left. split; [reflexivity|].
                 intros myJson' result' gene_id' [= <-] H1 H2. congruence.
        -- rewrite (parseSearchText_GeneTerm _ _ _ _ Hc). unfold then_, catch_.
           rewrite (getOmniSearch_emits engine_message net searchText t).
           unfold getOmniSearch_summary, failureCallback, console_log.
           rewrite Hjson, Hdata. simpl. rewrite Hid. simpl.
           eexists _, _; split; [rewrite <- ?app_assoc; reflexivity|]. simpl.
        split; [lia|]. split; [unfold location_query; auto|].
        split; [discriminate|]. left. split; [reflexivity|]. congruence.
      * rewrite (parseSearchText_GeneTerm _ _ _ _ Hc). unfold then_, catch_.
        rewrite (getOmniSearch_emits engine_message net searchText t).
        unfold getOmniSearch_summary, failureCallback, console_log.
        rewrite Hjson, Hdata. simpl.
        eexists _, _; split; [rewrite <- ?app_assoc; reflexivity|]. simpl.
        split; [lia|]. split; [unfold location_query; auto|].
        split; [discriminate|]. left. split; [reflexivity|]. congruence.
    + rewrite (parseSearchText_GeneTerm _ _ _ _ Hc). unfold then_, catch_.
      rewrite (getOmniSearch_emits engine_message net searchText t).
      unfold getOmniSearch_summary, failureCallback, console_log.
      rewrite Hjson. simpl.
      eexists _, _; split; [rewrite <- ?app_assoc; reflexivity|]. simpl.
        split; [lia|]. split; [unfold location_query; auto|].
        split; [discriminate|]. left. split; [reflexivity|]. congruence.
    + rewrite (parseSearchText_GeneTerm _ _ _ _ Hc). unfold then_, catch_.
      rewrite (getOmniSearch_emits engine_message net searchText t).
      unfold getOmniSearch_summary. rewrite Hjson. simpl.
      eexists _, _; split; [rewrite <- ?app_assoc; reflexivity|]. simpl.
        split; [lia|]. split; [unfold location_query; auto|].
        split; [discriminate|]. left. split; [reflexivity|]. congruence.
Qed.

End Runs.

(** ** Printing a position back *)

Lemma pretty_N_char_digit (d : ascii) :
  in_class "0" "9" d = true ->
  pretty_N_char (Z.to_N (Z.of_nat (nat_of_ascii d) - 48)) = d.
Proof.
  intros Hd. destruct d as [[] [] [] [] [] [] [] []]; try discriminate Hd; reflexivity.
Qed.

Lemma decimal_value_pos (ds : string) :
  all_digits ds = true -> forall acc, (0 < acc)%Z -> (0 < decimal_value acc ds)%Z.
Proof.
  induction ds as [|d ds IH]; intros Hall acc Hacc; [exact Hacc|].
  simpl in Hall. apply andb_true_iff in Hall as [Hd%in_class_digit Hall].
  simpl. apply IH; [exact Hall | lia].
Qed.

Lemma pretty_N_go_decimal (ds : string) :
  all_digits ds = true ->
  forall acc s, (0 < acc)%Z ->
    pretty_N_go (Z.to_N (decimal_value acc ds)) s = pretty_N_go (Z.to_N acc) (ds +:+ s).
Proof.
  induction ds as [|d ds IH]; intros Hall acc s Hacc; [reflexivity|].
  simpl in Hall. apply andb_true_iff in Hall as [Hd Hall].
  assert (Hr := in_class_digit d Hd).
  simpl decimal_value. rewrite IH by (auto; lia).
  rewrite pretty_N_go_step by lia.
  set (dv := (Z.of_nat (nat_of_ascii d) - 48)%Z) in *.
  replace (Z.to_N (acc * 10 + dv) `div` 10)%N with (Z.to_N acc)
    by (apply (N.div_unique _ _ _ (Z.to_N dv)); lia).
  replace (Z.to_N (acc * 10 + dv) `mod` 10)%N with (Z.to_N dv)
    by (apply (N.mod_unique _ _ (Z.to_N acc)); lia).
  unfold dv. now rewrite pretty_N_char_digit.
Qed.

Lemma pretty_pos (v : Z) : (0 < v)%Z -> pretty v = pretty_N_go (Z.to_N v) "".
Proof. destruct v; try lia. reflexivity. Qed.

(** The digits of a position, read as a number and printed again, are
    the digits. *)
Lemma pretty_decimal_value (digits : string) :
  lang position_digits digits -> pretty (decimal_value 0 digits) = digits.
Proof.
  intros (d & ds & -> & Hd & _ & Hall)%lang_position_digits.
  assert (Hd' : in_class "0" "9" d = true).
  { destruct d as [[] [] [] [] [] [] [] []]; try discriminate Hd; reflexivity. }
  assert (Hpos : (0 < Z.of_nat (nat_of_ascii d) - 48)%Z).
  { destruct d as [[] [] [] [] [] [] [] []]; try discriminate Hd; reflexivity. }
  assert (Hlt := in_class_digit d Hd').
  simpl decimal_value.
  replace (0 * 10 + (Z.of_nat (nat_of_ascii d) - 48))%Z
    with (Z.of_nat (nat_of_ascii d) - 48)%Z by lia.
  rewrite pretty_pos by now apply decimal_value_pos.
  rewrite pretty_N_go_decimal by auto. rewrite string_app_empty_r.
  rewrite pretty_N_go_step by lia.
  replace (Z.to_N (Z.of_nat (nat_of_ascii d) - 48) `div` 10)%N with 0%N
    by (symmetry; apply N.div_small; lia).
  replace (Z.to_N (Z.of_nat (nat_of_ascii d) - 48) `mod` 10)%N
    with (Z.to_N (Z.of_nat (nat_of_ascii d) - 48)) by (symmetry; apply N.mod_small; lia).
  rewrite pretty_N_go_0. now rewrite pretty_N_char_digit.
Qed.

Lemma Number_toString_int (nto : Q -> string) (v : Z) :
  (Z.abs v < 2 ^ 53)%Z -> Number_toString nto (int v) = pretty v.
Proof.
  intros Hv. unfold Number_toString, int.
  rewrite Qcanon.Qred_identity by (simpl; apply Z.gcd_1_r). simpl.
  now replace (Z.abs v <? 2 ^ 53)%Z with true by (symmetry; apply Z.ltb_lt; exact Hv).
Qed.

(** A position below [2^53] is printed as it was typed. *)
Lemma ToString_position (nto : Q -> string) (digits : string) :
  lang position_digits digits -> (decimal_value 0 digits < 2 ^ 53)%Z ->
  ToString nto (VNum (round_double (decimal_value 0 digits))) = digits.
Proof.
  intros Hd Hlt. rewrite round_double_exact by exact Hlt.
  change (ToString nto (VNum (int (decimal_value 0 digits))))
    with (Number_toString nto (int (decimal_value 0 digits))).
  assert (0 <= decimal_value 0 digits)%Z.
  { destruct (lang_position_digits digits Hd) as (d & ds & -> & Hd1 & _ & Hall).
    apply Z.lt_le_incl. simpl. apply decimal_value_pos; [exact Hall|].
    destruct d as [[] [] [] [] [] [] [] []]; try discriminate Hd1; reflexivity. }
  rewrite Number_toString_int by lia. now apply pretty_decimal_value.
Qed.

(** ** The search box *)

Lemma locations_app (a b : list page_event) : locations (a ++ b) = locations a ++ locations b.
Proof.
  induction a as [|[e|m|u] a IH]; simpl; [reflexivity| exact IH | exact IH | now rewrite IH].
Qed.

Lemma alerts_app (a b : list page_event) : alerts (a ++ b) = alerts a ++ alerts b.
Proof.
  induction a as [|[e|m|u] a IH]; simpl; [reflexivity| exact IH | now rewrite IH | exact IH].
Qed.

Lemma locations_Resolver (evs : list event) : locations (map Resolver evs) = [].
Proof. induction evs as [|e evs IH]; [reflexivity | exact IH]. Qed.

Lemma alerts_Resolver (evs : list event) : alerts (map Resolver evs) = [].
Proof. induction evs as [|e evs IH]; [reflexivity | exact IH]. Qed.

(** A chromosome token holds no [chr] to remove. *)
Lemma String_replace_token (tok : string) :
  lang chromosome_token tok -> String_replace tok "chr" "" = tok.
Proof.
  intros [(d & Hd & ->) | [(d1 & d2 & Hd1 & Hd2 & ->) | [-> | [-> | ->]]]]%lang_chromosome_token;
    try reflexivity.
  - destruct d as [[] [] [] [] [] [] [] []]; try discriminate Hd; reflexivity.
  - destruct d1 as [[] [] [] [] [] [] [] []]; try discriminate Hd1;
      destruct d2 as [[] [] [] [] [] [] [] []]; try discriminate Hd2; reflexivity.
Qed.

Lemma String_replace_chr (s : string) : String_replace ("chr" +:+ s) "chr" "" = s.
Proof. destruct s; reflexivity. Qed.

Section SearchBoxFacts.

Variable Number_toString_other : Q -> string.
Variable engine_message : error -> string.
Variable net : string -> settled Response.

Lemma position_resolution (pre tok digits : string) t :
  chr_prefix pre -> lang chromosome_token tok -> lang position_digits digits ->
  parseSearchText Number_toString_other engine_message net
    (pre +:+ tok +:+ ":" +:+ digits) t =
    (Fulfilled (location "variant" (VStr tok)
                  (VNum (round_double (decimal_value 0 digits)))
                  (VNum (round_double (decimal_value 0 digits)))), t).
Proof.
  intros Hpre Htok Hdig.
  rewrite (parseSearchText_Position _ _ _ _ _ (classify_position pre tok digits Hpre Htok Hdig)).
  unfold group; simpl groups. unfold resolve.
  change (capture 2 ((3, digits) :: (2, tok) :: _)) with (VStr tok).
  change (capture 3 ((3, digits) :: (2, tok) :: _)) with (VStr digits).
  change (parseInt Number_toString_other (VStr digits)) with (parseInt_string digits).
  now rewrite parseInt_position_digits.
Qed.

Lemma range_resolution (pre tok first last : string) t :
  chr_prefix pre -> lang chromosome_token tok ->
  lang position_digits first -> lang position_digits last ->
  parseSearchText Number_toString_other engine_message net
    (pre +:+ tok +:+ ":" +:+ first +:+ "-" +:+ last) t =
    (Fulfilled (location "range" (VStr tok)
                  (VNum (round_double (decimal_value 0 first)))
                  (VNum (round_double (decimal_value 0 last)))), t).
Proof.
  intros Hpre Htok Hfirst Hlast.
  rewrite (parseSearchText_Range _ _ _ _ _
             (classify_range pre tok first last Hpre Htok Hfirst Hlast)).
  unfold group; simpl groups. unfold resolve.
  change (capture 2 ((4, last) :: (3, first) :: (2, tok) :: _)) with (VStr tok).
  change (capture 3 ((4, last) :: (3, first) :: (2, tok) :: _)) with (VStr first).
  change (capture 4 ((4, last) :: (3, first) :: (2, tok) :: _)) with (VStr last).
  change (parseInt Number_toString_other (VStr first)) with (parseInt_string first).
  change (parseInt Number_toString_other (VStr last)) with (parseInt_string last).
  now rewrite !parseInt_position_digits.
Qed.

Lemma parseSearch_variant (searchText chrom : string) (start end_ : value) evs t :
  parseSearchText Number_toString_other engine_message net searchText []
    = (Fulfilled (location "variant" (VStr chrom) start end_), evs) ->
  printable start = true ->
  parseSearch Number_toString_other engine_message net searchText t =
    (Fulfilled VUndefined,
     t ++ map Resolver evs
       ++ [Location ("/variant/" +:+ String_replace chrom "chr" "" +:+ "_"
                     +:+ ToString Number_toString_other start)]).
Proof.
  intros H Hs. rewrite app_assoc. unfold parseSearch, run_promise.
  rewrite H. unfold page_then, page_catch, page_settle, set_location, js_String.
  simpl. rewrite Hs. reflexivity.
Qed.

Lemma parseSearch_range (searchText chrom : string) (start end_ : value) evs t :
  parseSearchText Number_toString_other engine_message net searchText []
    = (Fulfilled (location "range" (VStr chrom) start end_), evs) ->
  printable start = true -> printable end_ = true ->
  parseSearch Number_toString_other engine_message net searchText t =
    (Fulfilled VUndefined,
     t ++ map Resolver evs
       ++ [Location ("/region/?chrom=" +:+ String_replace chrom "chr" ""
                     +:+ "&start=" +:+ ToString Number_toString_other start
                     +:+ "&end=" +:+ ToString Number_toString_other end_)]).
Proof.
  intros H Hs He. rewrite app_assoc. unfold parseSearch, run_promise.
  rewrite H. unfold page_then, page_catch, page_settle, set_location, js_String.
  simpl. rewrite Hs, He. reflexivity.
Qed.

(** A [start] or [end] that cannot be converted ends the callback
    before it navigates. *)
Lemma parseSearch_unprintable (searchText type chrom : string) (start end_ : value) evs t :
  parseSearchText Number_toString_other engine_message net searchText []
    = (Fulfilled (location type (VStr chrom) start end_), evs) ->
  (type = "variant" /\ printable start = false)
  \/ (type = "range" /\ (printable start = false \/ printable end_ = false)) ->
  parseSearch Number_toString_other engine_message net searchText t =
    (Fulfilled VUndefined,
     t ++ map Resolver evs
       ++ [Resolver (Console ("Error status: TypeError: "
                              +:+ engine_message TypeError_to_primitive))]).
Proof.
  intros H Hp. rewrite app_assoc. unfold parseSearch, run_promise. rewrite H.
  unfold page_then, page_catch, page_settle, set_location, js_String,
    page_failureCallback, run_promise, failureCallback, console_log.
  destruct Hp as [[-> Hs] | [-> [Hs | He]]]; simpl.
  - rewrite Hs. reflexivity.
  - rewrite Hs. reflexivity.
  - destruct (printable start); rewrite ?He; reflexivity.
Qed.

Lemma parseSearch_unresolved (searchText : string) evs t :
  parseSearchText Number_toString_other engine_message net searchText []
    = (Fulfilled VUndefined, evs) ->
  parseSearch Number_toString_other engine_message net searchText t =
    (Fulfilled VUndefined,
     t ++ map Resolver evs
       ++ [Alert "Sorry, we are unable to parse your query.";
           Resolver (Console "Error status: Omnisearch undefined or other");
           Resolver (Console ("Error status: TypeError: "
                              +:+ engine_message (TypeError_property VUndefined "chrom")))]).
Proof.
  intros H. unfold parseSearch, run_promise. rewrite H.
  unfold page_then, page_catch, page_settle, alert, page_failureCallback, run_promise,
    failureCallback, console_log.
  simpl. rewrite <- !app_assoc. reflexivity.
Qed.

Lemma parseSearch_pending (searchText : string) evs t :
  parseSearchText Number_toString_other engine_message net searchText [] = (Pending, evs) ->
  parseSearch Number_toString_other engine_message net searchText t =
    (Pending, t ++ map Resolver evs).
Proof. intros H. unfold parseSearch, run_promise. rewrite H. reflexivity. Qed.

Lemma parseSearch_bad_chrom (searchText type : string) (chrom start end_ : value) evs t :
  parseSearchText Number_toString_other engine_message net searchText []
    = (Fulfilled (location type chrom start end_), evs) ->
  type = "variant" \/ type = "range" ->
  (forall c, chrom <> VStr c) ->
  exists e,
    parseSearch Number_toString_other engine_message net searchText t =
      (Fulfilled VUndefined,
       t ++ map Resolver evs
         ++ [Resolver (Console ("Error status: TypeError: " +:+ engine_message e))]).
Proof.
  intros H Htype Hchrom. unfold parseSearch, run_promise. rewrite H.
  destruct Htype as [-> | ->];
    destruct chrom as [| |b|n|c|l|l]; try (now destruct (Hchrom c));
    eexists; rewrite app_assoc; reflexivity.
Qed.

(** X5.  A position typed as [(chr)?token:digits], below [2^53], sends
    the page to [/variant/token_digits], the digits as they were
    typed; nothing is requested, logged or alerted. *)
Theorem parseSearch_position (pre tok digits : string) t :
  chr_prefix pre -> lang chromosome_token tok -> lang position_digits digits ->
  (decimal_value 0 digits < 2 ^ 53)%Z ->
  parseSearch Number_toString_other engine_message net (pre +:+ tok +:+ ":" +:+ digits) t =
    (Fulfilled VUndefined, t ++ [Location ("/variant/" +:+ tok +:+ "_" +:+ digits)]).
Proof.
  intros Hpre Htok Hdig Hlt.
  rewrite (parseSearch_variant _ tok _ _ [] t
             (position_resolution pre tok digits [] Hpre Htok Hdig) eq_refl).
  now rewrite String_replace_token, ToString_position.
Qed.

(** X6.  A range typed as [(chr)?token:first-last], both below [2^53],
    sends the page to [/region/?chrom=token&start=first&end=last];
    nothing is requested, logged or alerted. *)
Theorem parseSearch_region (pre tok first last : string) t :
  chr_prefix pre -> lang chromosome_token tok ->
  lang position_digits first -> lang position_digits last ->
  (decimal_value 0 first < 2 ^ 53)%Z -> (decimal_value 0 last < 2 ^ 53)%Z ->
  parseSearch Number_toString_other engine_message net
    (pre +:+ tok +:+ ":" +:+ first +:+ "-" +:+ last) t =
    (Fulfilled VUndefined,
     t ++ [Location ("/region/?chrom=" +:+ tok +:+ "&start=" +:+ first
                     +:+ "&end=" +:+ last)]).
Proof.
  intros Hpre Htok Hfirst Hlast Hf Hl.
  rewrite (parseSearch_range _ tok _ _ [] t
             (range_resolution pre tok first last [] Hpre Htok Hfirst Hlast)
             eq_refl eq_refl).
  now rewrite String_replace_token, !ToString_position.
Qed.

(** X7.  When the resolver settles on a location whose [chrom] is a
    string and whose [start] and [end] print, the page goes to the
    variant or the region view after the events of the resolver, with
    the first [chr] of [chrom] removed: a [chrom] of ["chr" + c]
    appears as [c] in the URL. *)
Theorem parseSearch_navigates (searchText chrom : string) (start end_ : value) evs t :
  (parseSearchText Number_toString_other engine_message net searchText []
     = (Fulfilled (location "variant" (VStr chrom) start end_), evs) ->
   printable start = true ->
   parseSearch Number_toString_other engine_message net searchText t =
     (Fulfilled VUndefined,
      t ++ map Resolver evs
        ++ [Location ("/variant/" +:+ String_replace chrom "chr" "" +:+ "_"
                      +:+ ToString Number_toString_other start)]))
  /\ (parseSearchText Number_toString_other engine_message net searchText []
        = (Fulfilled (location "range" (VStr chrom) start end_), evs) ->
      printable start = true -> printable end_ = true ->
      parseSearch Number_toString_other engine_message net searchText t =
        (Fulfilled VUndefined,
         t ++ map Resolver evs
           ++ [Location ("/region/?chrom=" +:+ String_replace chrom "chr" ""
                         +:+ "&start=" +:+ ToString Number_toString_other start
                         +:+ "&end=" +:+ ToString Number_toString_other end_)]))
  /\ (forall c, String_replace ("chr" +:+ c) "chr" "" = c).
Proof.
  split; [apply parseSearch_variant|]. split; [apply parseSearch_range|].
  apply String_replace_chr.
Qed.

(** X8.  When the resolver settles on [undefined], the page shows the
    alert once, writes two console lines (the message handed to
    [failureCallback], then the TypeError of the next callback reading
    [chrom] of [undefined]) and goes nowhere. *)
Theorem parseSearch_alerts (searchText : string) evs t :
  parseSearchText Number_toString_other engine_message net searchText []
    = (Fulfilled VUndefined, evs) ->
  exists added,
    parseSearch Number_toString_other engine_message net searchText t
      = (Fulfilled VUndefined, t ++ map Resolver evs ++ added)
    /\ added = [Alert "Sorry, we are unable to parse your query.";
                Resolver (Console "Error status: Omnisearch undefined or other");
                Resolver (Console ("Error status: TypeError: "
                                   +:+ engine_message
                                         (TypeError_property VUndefined "chrom")))]
    /\ locations (map Resolver evs ++ added) = [].
Proof.
  intros H. eexists. split; [now apply parseSearch_unresolved|].
  split; [reflexivity|]. now rewrite locations_app, locations_Resolver.
Qed.

(** X9.  Whatever the input and the network, the chain of
    [parseSearch] is never rejected, goes to at most one page, shows at
    most one alert and never both; a page it goes to is a variant or a
    region view. *)
Theorem parseSearch_safe (searchText : string) t :
  exists r evs,
    parseSearch Number_toString_other engine_message net searchText t = (r, t ++ evs)
    /\ (forall e, r <> Rejected e)
    /\ (length (locations evs) <= 1)%nat
    /\ (length (alerts evs) <= 1)%nat
    /\ (alerts evs <> [] -> locations evs = [])
    /\ (forall url, In url (locations evs) ->
          exists rest, url = "/variant/" +:+ rest \/ url = "/region/?chrom=" +:+ rest).
Proof.
  destruct (parseSearchText_run Number_toString_other engine_message net searchText [])
    as (r0 & evs0 & Hrun & _ & Hshape & _).
  simpl in Hrun.
  destruct Hshape as [-> | [-> | (type & chrom & start & end_ & -> & Htype)]].
  - rewrite (parseSearch_pending _ _ t Hrun). eexists _, _. split; [reflexivity|].
    rewrite locations_Resolver, alerts_Resolver. simpl.
    repeat split; try discriminate; try lia; try tauto.
  - rewrite (parseSearch_unresolved _ _ t Hrun). eexists _, _. split; [reflexivity|].
    rewrite locations_app, alerts_app, locations_Resolver, alerts_Resolver. simpl.
    repeat split; try discriminate; try lia; try tauto.
  - destruct chrom as [| |b|n|c|l|l].
    5: { destruct Htype as [-> | ->].
         - destruct (printable start) eqn:Hs.
           + rewrite (parseSearch_variant _ _ _ _ _ t Hrun Hs). eexists _, _.
             split; [reflexivity|].
             rewrite locations_app, alerts_app, locations_Resolver, alerts_Resolver. simpl.
             repeat split; try discriminate; try lia; try tauto.
             intros url [<- | []]. eexists. left. reflexivity.
           + rewrite (parseSearch_unprintable _ _ _ _ _ _ t Hrun (or_introl (conj eq_refl Hs))).
             eexists _, _. split; [reflexivity|].
             rewrite locations_app, alerts_app, locations_Resolver, alerts_Resolver. simpl.
             repeat split; try discriminate; try lia; try tauto.
         - destruct (printable start) eqn:Hs; [destruct (printable end_) eqn:He|].
           + rewrite (parseSearch_range _ _ _ _ _ t Hrun Hs He). eexists _, _.
             split; [reflexivity|].
             rewrite locations_app, alerts_app, locations_Resolver, alerts_Resolver. simpl.
             repeat split; try discriminate; try lia; try tauto.
             intros url [<- | []]. eexists. right. reflexivity.
           + rewrite (parseSearch_unprintable _ _ _ _ _ _ t Hrun
                        (or_intror (conj eq_refl (or_intror He)))).
             eexists _, _. split; [reflexivity|].
             rewrite locations_app, alerts_app, locations_Resolver, alerts_Resolver. simpl.
             repeat split; try discriminate; try lia; try tauto.
           + rewrite (parseSearch_unprintable _ _ _ _ _ _ t Hrun
                        (or_intror (conj eq_refl (or_introl Hs)))).
             eexists _, _. split; [reflexivity|].
             rewrite locations_app, alerts_app, locations_Resolver, alerts_Resolver. simpl.
             repeat split; try discriminate; try lia; try tauto. }
    all: edestruct (parseSearch_bad_chrom searchText type _ start end_ evs0 t Hrun Htype)
           as (e & ->); [discriminate|];
         eexists _, _; (split; [reflexivity|]);
         rewrite locations_app, alerts_app, locations_Resolver, alerts_Resolver; simpl;
         repeat split; try discriminate; try lia; try tauto.
Qed.

(** X10.  On the rs branch, when the omnisearch answers a record whose
    [chrom] is not a string (absent, for one), the user is told
    nothing: no alert, no navigation, one console line after the
    request. *)
Theorem parseSearch_silent (searchText : string) (myJson result chrom start end_ : value) t :
  classify searchText = RsNumber ->
  http_result (net (omniurl searchText)) = Fulfilled myJson ->
  data_0 myJson = Return result ->
  get result "chrom" = Return chrom ->
  get result "start" = Return start ->
  get result "end" = Return end_ ->
  (forall c, chrom <> VStr c) ->
  exists e,
    parseSearch Number_toString_other engine_message net searchText t =
      (Fulfilled VUndefined,
       t ++ [Resolver (Request (omniurl searchText));
             Resolver (Console ("Error status: TypeError: " +:+ engine_message e))]).
Proof.
  intros Hc Hjson Hdata Hchrom Hstart Hend Hstr.
  assert (Hrun := rs_branch_record Number_toString_other engine_message net searchText
                    myJson result chrom start end_ [] Hc Hjson Hdata Hchrom Hstart Hend).
  simpl in Hrun.
  destruct (parseSearch_bad_chrom searchText "variant" chrom start end_ _ t Hrun
              (or_introl eq_refl) Hstr) as (e & ->).
  now exists e.
Qed.

End SearchBoxFacts.

(** ** What a run of the resolver may do *)


Section RunFacts.

Variable Number_toString_other : Q -> string.
Variable engine_message : error -> string.
Variable net : string -> settled Response.

(** X2.  The requests of a run: none on the position and range
    branches, where no event at all is added; the omnisearch alone on
    the rs branch; on the gene branch the omnisearch and then, exactly
    when its answer holds a record whose [gene_id] can be read and
    converted to a string, the best-variant lookup for that [gene_id].
    No run writes more than two console lines. *)
Theorem parseSearchText_request_budget (searchText : string) t :
  exists r evs,
    parseSearchText Number_toString_other engine_message net searchText t = (r, t ++ evs)
    /\ (length (console_lines evs) <= 2)%nat
    /\ match classify searchText with
       | Position _ | Range _ => evs = []
       | RsNumber => requests evs = [omniurl searchText]
       | GeneTerm =>
           (requests evs = [omniurl searchText]
            /\ forall myJson result gene_id,
                 http_result (net (omniurl searchText)) = Fulfilled myJson ->
                 data_0 myJson = Return result ->
                 get result "gene_id" = Return gene_id -> printable gene_id = false)
           \/ (exists myJson result gene_id,
                  http_result (net (omniurl searchText)) = Fulfilled myJson
                  /\ data_0 myJson = Return result
                  /\ get result "gene_id" = Return gene_id
                  /\ printable gene_id = true
                  /\ requests evs = [omniurl searchText;
                                     bestVarURL Number_toString_other gene_id])
       end.
Proof.
  destruct (parseSearchText_run Number_toString_other engine_message net searchText t)
    as (r & evs & Hrun & Hlines & _ & _ & Hreq).
  now exists r, evs.
Qed.


(** X4.  On the gene branch, when both lookups answer, the [gene_id]
    prints and the best variant has a string [chrom], the result is
    the object [{type: "variant", chrom, start, end}] with [chrom]
    without its first [chr] and [start] and [end] both [parseInt(pos)],
    whatever [pos] holds that prints: a missing [pos] gives [NaN], and
    nothing is logged. *)
Theorem gene_branch_resolves (searchText : string)
  (myJson result gene_id resp best pos : value) (chrom : string) t :
  classify searchText = GeneTerm ->
  http_result (net (omniurl searchText)) = Fulfilled myJson ->
  data_0 myJson = Return result ->
  get result "gene_id" = Return gene_id ->
  printable gene_id = true ->
  http_result (net (bestVarURL Number_toString_other gene_id)) = Fulfilled resp ->
  get resp "data" = Return best ->
  get best "pos" = Return pos ->
  printable pos = true ->
  get best "chrom" = Return (VStr chrom) ->
  parseSearchText Number_toString_other engine_message net searchText t =
    (Fulfilled (VObj [("type", VStr "variant");
                      ("chrom", VStr (String_replace chrom "chr" ""));
                      ("start", VNum (parseInt_string (ToString Number_toString_other pos)));
                      ("end", VNum (parseInt_string (ToString Number_toString_other pos)))]),
     t ++ [Request (omniurl searchText);
           Request (bestVarURL Number_toString_other gene_id)])
  /\ parseInt_string (ToString Number_toString_other VUndefined) = NaN.
Proof.
  intros Hc Hjson Hdata Hid Hp Hbest Hbdata Hpos Hppos Hchrom. split; [|reflexivity].
  now apply (gene_branch_record Number_toString_other engine_message net searchText
               myJson result gene_id resp best pos chrom t).
Qed.

(** X11.  On the gene branch, when the [gene_id] prints and the best
    variant comes without a string [chrom], the result is [undefined]
    and the one console line names the gene identifier that was looked
    up. *)
Theorem gene_branch_without_chrom (searchText : string)
  (myJson result gene_id resp best chrom : value) t :
  classify searchText = GeneTerm ->
  http_result (net (omniurl searchText)) = Fulfilled myJson ->
  data_0 myJson = Return result ->
  get result "gene_id" = Return gene_id ->
  printable gene_id = true ->
  http_result (net (bestVarURL Number_toString_other gene_id)) = Fulfilled resp ->
  get resp "data" = Return best ->
  get best "chrom" = Return chrom ->
  (forall c, chrom <> VStr c) ->
  parseSearchText Number_toString_other engine_message net searchText t =
    (Fulfilled VUndefined,
     t ++ [Request (omniurl searchText);
           Request (bestVarURL Number_toString_other gene_id);
           Console ("Unable to the best variant for the gene " +:+ dquote
                    +:+ ToString Number_toString_other gene_id +:+ dquote)]).
Proof.
  intros Hc Hjson Hdata Hid Hp Hbest Hbdata Hchrom Hstr.
  rewrite (gene_branch_second_step _ _ _ searchText myJson result gene_id t Hc Hjson Hdata Hid).
  unfold best_variant_step.
  destruct (getBestVar_printable Number_toString_other engine_message net gene_id Hp)
    as [bestVar E].
  rewrite E. simpl after. unfold then_, catch_.
  rewrite (getBestVar_emits Number_toString_other engine_message net gene_id bestVar E).
  unfold getBestVar_summary, js_String. rewrite Hp, Hbest, Hbdata. simpl.
  destruct (get best "pos") as [pos|e] eqn:Hpos; simpl.
  - destruct (js_parseInt Number_toString_other pos) as [n|e]; simpl;
      [|now rewrite <- !app_assoc].
    rewrite Hchrom. simpl.
    destruct chrom as [| |b|n'|c|l|l]; try (now destruct (Hstr c));
      simpl; now rewrite <- !app_assoc.
  - now rewrite <- !app_assoc.
Qed.

End RunFacts.

(** ** More on the ranks of [annotateData] *)

Lemma assign_ranks_nth (l : list ref) (k : nat) (h : store) (i : nat) (r : ref) :
  List.NoDup l -> nth_error l i = Some r ->
  assign_ranks l k h r !! "top_value_rank" = Some (int (Z.of_nat (k + i) + 1)).
Proof.
  revert k h i. induction l as [|x l IH]; intros k h i Hnd Hi; [now destruct i|].
  apply NoDup_cons_iff in Hnd as [Hx Hnd]. destruct i as [|i]; simpl in Hi.
  - injection Hi as ->. simpl. rewrite assign_ranks_not_in by exact Hx.
    rewrite fn_lookup_insert, lookup_insert_eq. do 3 f_equal. lia.
  - simpl. rewrite (IH (S k) _ i Hnd Hi). do 3 f_equal. lia.
Qed.

Lemma assign_ranks_last (l : list ref) (k : nat) (h : store) (r : ref) :
  assign_ranks l k h r =
    match last_rank l k r with
    | Some v => <["top_value_rank" := v]> (h r)
    | None => h r
    end.
Proof.
  revert k h. induction l as [|x l IH]; intros k h; [reflexivity|]. simpl.
  rewrite IH. destruct (last_rank l (S k) r) as [v|].
  - destruct (decide (x = r)) as [->|Hne].
    + rewrite fn_lookup_insert. apply insert_insert_eq.
    + now rewrite fn_lookup_insert_ne.
  - destruct (decide (x = r)) as [->|Hne].
    + now rewrite fn_lookup_insert.
    + now rewrite fn_lookup_insert_ne.
Qed.

Section SortedFacts.

Context {A : Type} (compare : A -> A -> completion Z).
Variable key : A -> number.
Variable good : A -> Prop.
Hypothesis compare_returns : forall x y, exists c, compare x y = Return c.
Hypothesis good_key : forall x, good x -> key x <> NaN.
Hypothesis compare_key :
  forall x y c, good x -> good y -> compare x y = Return c ->
                (0 <? c)%Z = num_lt (key x) (key y).

(** [x] may stand before [y]. *)
Let before (x y : A) : Prop := num_le (key y) (key x) = true.

Lemma sort_insert_sorted (x : A) (l l' : list A) :
  good x -> Forall good l -> StronglySorted before l ->
  sort_insert compare x l = Return l' -> StronglySorted before l'.
Proof.
  intros Hx. revert l'. induction l as [|y l IH]; intros l' Hl Hs; simpl.
  - intros [= <-]. repeat constructor.
  - apply Forall_cons_iff in Hl as [Hy Hl].
    apply StronglySorted_inv in Hs as [Hs Hall].
    destruct (compare_returns x y) as [c Hc]. rewrite Hc; simpl.
    rewrite (compare_key x y c Hx Hy Hc).
    destruct (num_lt (key x) (key y)) eqn:Hlt.
    + destruct (sort_insert_permutation compare compare_returns x l) as (l1 & E & Hperm).
      rewrite E; simpl. intros [= <-]. constructor; [now apply IH|].
      apply List.Forall_forall. intros z Hz.
      apply (Permutation_in _ (Permutation_sym Hperm)) in Hz.
      destruct Hz as [<- | Hz]; [now apply num_lt_le|].
      rewrite List.Forall_forall in Hall. now apply Hall.
    + intros [= <-].
      assert (Hxy : before x y) by (apply num_not_lt_ge; auto).
      constructor; [now constructor|]. constructor; [exact Hxy|].
      rewrite List.Forall_forall in Hall |- *. intros z Hz.
      apply num_le_trans with (key y); [now apply Hall | exact Hxy].
Qed.

Lemma Array_sort_sorted (l l' : list A) :
  Forall good l -> Array_sort compare l = Return l' -> StronglySorted before l'.
Proof.
  revert l'. induction l as [|x l IH]; intros l' Hl; simpl.
  - intros [= <-]. constructor.
  - apply Forall_cons_iff in Hl as [Hx Hl].
    destruct (Array_sort_permutation compare compare_returns l) as (l1 & E & Hperm).
    rewrite E; simpl. apply sort_insert_sorted; auto.
    apply List.Forall_forall. intros y Hy. rewrite List.Forall_forall in Hl. apply Hl.
    now apply (Permutation_in _ (Permutation_sym Hperm)).
Qed.

Lemma sorted_nth (l : list A) (i j : nat) (x y : A) :
  StronglySorted before l -> (i < j)%nat ->
  nth_error l i = Some x -> nth_error l j = Some y -> before x y.
Proof.
  intros Hs. revert i j. induction Hs as [|a l Hs IH Hall]; intros i j Hij Hi Hj.
  - now destruct i.
  - destruct j as [|j]; [lia|]. simpl in Hj. destruct i as [|i]; simpl in Hi.
    + injection Hi as ->. rewrite List.Forall_forall in Hall.
      apply Hall. now apply nth_error_In with j.
    + apply (IH i j); auto. lia.
Qed.

End SortedFacts.

Lemma Array_sort_ext {A} (c1 c2 : A -> A -> completion Z) (l : list A) :
  (forall x y, c1 x y = c2 x y) -> Array_sort c1 l = Array_sort c2 l.
Proof.
  intros Hc.
  assert (Hins : forall x l, sort_insert c1 x l = sort_insert c2 x l).
  { intros x l0. induction l0 as [|y l0 IH]; simpl; [reflexivity|].
    now rewrite Hc, IH. }
  induction l as [|x l IH]; simpl; [reflexivity|]. rewrite IH.
  destruct (Array_sort c2 l); simpl; [apply Hins | reflexivity].
Qed.

Lemma sort_insert_returned {A} (compare : A -> A -> completion Z) (x : A) (l l' : list A) :
  sort_insert compare x l = Return l' -> Permutation (x :: l) l'.
Proof.
  revert l'. induction l as [|y l IH]; intros l'; simpl.
  - now intros [= <-].
  - destruct (compare x y) as [c|e]; simpl; [|discriminate].
    destruct (0 <? c)%Z; [|now intros [= <-]].
    destruct (sort_insert compare x l) as [l1|e]; simpl; [|discriminate].
    intros [= <-]. rewrite perm_swap. apply perm_skip. now apply IH.
Qed.

Lemma Array_sort_returned {A} (compare : A -> A -> completion Z) (l l' : list A) :
  Array_sort compare l = Return l' -> Permutation l l'.
Proof.
  revert l'. induction l as [|x l IH]; intros l'; simpl.
  - now intros [= <-].
  - destruct (Array_sort compare l) as [l1|e]; simpl; [|discriminate].
    intros H%sort_insert_returned. rewrite <- H. apply perm_skip. now apply IH.
Qed.

Section RankFacts.

Variable chain : header.
Variable h : store.

Lemma annotateData_returned (records out : list ref) (h' : store) :
  annotateData chain h records = Return (out, h') ->
  exists sorted,
    out = List.filter (fun r => within chain (h r)) records
    /\ Permutation out sorted
    /\ Array_sort (by_value chain h) out = Return sorted
    /\ h' = assign_ranks sorted 0 h.
Proof.
  rewrite annotateData_unfold. cbv zeta.
  destruct (Array_sort _ _) as [sorted|e] eqn:E; simpl; [|discriminate].
  intros [= <- <-]. exists sorted. repeat split; auto.
  now apply Array_sort_returned in E.
Qed.

(** X12.  For distinct record objects and a known sort field, the ranks
    are the numbers 1 to [n], each given to exactly one of the [n]
    returned records. *)
Theorem annotateData_ranks_one_to_n (records : list ref) :
  let kept := List.filter (fun r => within chain (h r)) records in
  recognised (y_field chain) = true -> List.NoDup kept ->
  exists h',
    annotateData chain h records = Return (kept, h')
    /\ (forall k, (1 <= k <= Z.of_nat (length kept))%Z ->
          exists r, In r kept /\ h' r !! "top_value_rank" = Some (int k))
    /\ (forall r r', In r kept -> In r' kept ->
          h' r !! "top_value_rank" = h' r' !! "top_value_rank" -> r = r').
Proof.
  intros kept Hrec Hnd. rewrite annotateData_unfold. fold kept. cbv zeta.
  destruct (Array_sort_permutation (by_value chain h) (by_value_returns chain h Hrec) kept)
    as (sorted & Hsort & Hperm).
  rewrite Hsort. simpl. exists (assign_ranks sorted 0 h). split; [reflexivity|].
  assert (Hnd' : List.NoDup sorted) by now apply (Permutation_NoDup Hperm).
  split.
  - intros k Hk. rewrite (Permutation_length Hperm) in Hk.
    destruct (nth_error sorted (Z.to_nat (k - 1))) as [r|] eqn:E.
    + exists r. split.
      * apply (Permutation_in _ (Permutation_sym Hperm)). now apply nth_error_In in E.
      * rewrite (assign_ranks_nth sorted 0 h _ r Hnd' E). do 2 f_equal. lia.
    + apply nth_error_None in E. lia.
  - intros r r' Hr Hr' E.
    apply (Permutation_in _ Hperm) in Hr, Hr'.
    apply In_nth_error in Hr as [i Hi]. apply In_nth_error in Hr' as [j Hj].
    rewrite (assign_ranks_nth sorted 0 h i r Hnd' Hi),
      (assign_ranks_nth sorted 0 h j r' Hnd' Hj) in E.
    injection E as E. assert (i = j) by lia. subst j. congruence.
Qed.

(** X13.  For distinct record objects whose values ([log_pvalue] and
    [pip] as they are, [beta] by its absolute value) are numbers other
    than NaN, the ranks follow the values: a record of lower rank has
    a value at least as large, so the [k] records of rank up to [k]
    hold the [k] largest values. *)
Theorem annotateData_rank_order (records : list ref) (field : string) :
  let kept := List.filter (fun r => within chain (h r)) records in
  y_field chain = VStr field -> recognised (y_field chain) = true -> List.NoDup kept ->
  (forall r, In r kept -> ranked_value field (h r) <> NaN) ->
  exists h',
    annotateData chain h records = Return (kept, h')
    /\ forall r r' k k',
         In r kept -> In r' kept ->
         h' r !! "top_value_rank" = Some (int k) ->
         h' r' !! "top_value_rank" = Some (int k') ->
         (k <= k')%Z ->
         num_le (ranked_value field (h r')) (ranked_value field (h r)) = true.
Proof.
  intros kept Hfield Hrec Hnd Hnan.
  assert (Hcomp : forall r, In r kept -> comparable (y_value chain (h r)))
    by (intros r Hr; apply (ranked_value_comparable chain field _ Hfield Hrec);
        now apply Hnan).
  rewrite annotateData_unfold. fold kept. cbv zeta.
  destruct (Array_sort_permutation (by_value chain h) (by_value_returns chain h Hrec) kept)
    as (sorted & Hsort & Hperm).
  rewrite Hsort. simpl. exists (assign_ranks sorted 0 h). split; [reflexivity|].
  assert (Hnd' : List.NoDup sorted) by now apply (Permutation_NoDup Hperm).
  assert (Hsorted := Array_sort_sorted (by_value chain h)
            (fun r => ToNumber (y_value chain (h r)))
            (fun r => comparable (y_value chain (h r)))
            (by_value_returns chain h Hrec)
            (fun x Hx => comparable_key _ Hx)
            (fun x y c Hx Hy => by_value_key chain h x y c Hrec Hx Hy)
            kept sorted (proj2 (List.Forall_forall _ _) Hcomp) Hsort).
  intros r r' k k' Hr Hr' Hk Hk' Hle.
  rewrite <- !(ranked_value_spec chain field _ Hfield Hrec).
  apply (Permutation_in _ Hperm) in Hr as Hr1. apply (Permutation_in _ Hperm) in Hr' as Hr1'.
  apply In_nth_error in Hr1 as [i Hi]. apply In_nth_error in Hr1' as [j Hj].
  rewrite (assign_ranks_nth sorted 0 h i r Hnd' Hi) in Hk.
  rewrite (assign_ranks_nth sorted 0 h j r' Hnd' Hj) in Hk'.
  injection Hk as Hk. injection Hk' as Hk'.
  destruct (Nat.eq_dec i j) as [->|Hne].
  - assert (r = r') by congruence. subst r'.
    destruct (Hcomp r Hr) as (n & -> & Hn). unfold num_le. simpl.
    destruct n as [q| | |]; simpl; try congruence; try apply orb_true_r.
    rewrite orb_true_iff. right. apply Qeq_bool_iff. reflexivity.
  - apply (sorted_nth _ sorted i j r r' Hsorted); [lia | exact Hi | exact Hj].
Qed.

(** X14.  [annotateData] writes only into the records it returns: a
    record left out by the filter is as it was, whatever the sort
    field. *)
Theorem annotateData_leaves_others (records out : list ref) (h' : store) :
  annotateData chain h records = Return (out, h') ->
  out = List.filter (fun r => within chain (h r)) records
  /\ forall r, ~ In r out -> h' r = h r.
Proof.
  intros (sorted & Hout & Hperm & _ & ->)%annotateData_returned.
  split; [exact Hout|]. intros r Hr. apply assign_ranks_not_in.
  intros Hin. apply Hr. now apply (Permutation_in _ (Permutation_sym Hperm)).
Qed.

End RankFacts.

Lemma getValue_ext (chain : header) (o o' : gmap string number) :
  (forall f, f <> "top_value_rank" -> o' !! f = o !! f) ->
  getValue chain o' = getValue chain o.
Proof.
  intros H. unfold getValue.
  now rewrite (H "log_pvalue"), (H "beta"), (H "pip") by discriminate.
Qed.

(** X15.  Annotating again what was annotated changes nothing: the same
    records are returned and every record keeps its fields and its
    rank. *)
Theorem annotateData_again (chain : header) (h : store) (records out : list ref)
  (h' : store) :
  annotateData chain h records = Return (out, h') ->
  exists h'',
    annotateData chain h' records = Return (out, h'')
    /\ forall r, h'' r = h' r.
Proof.
  intros (sorted & Hout & Hperm & Hsort & ->)%annotateData_returned.
  set (h' := assign_ranks sorted 0 h).
  assert (Hfield : forall r f, f <> "top_value_rank" -> h' r !! f = h r !! f)
    by (intros; now apply assign_ranks_other_field).
  rewrite annotateData_unfold. cbv zeta.
  assert (Hfilter : List.filter (fun r => within chain (h' r)) records = out).
  { rewrite Hout. apply filter_ext. intros r. unfold within.
    now rewrite (Hfield r "tss_distance") by discriminate. }
  rewrite Hfilter.
  rewrite (Array_sort_ext (by_value chain h') (by_value chain h)).
  - rewrite Hsort. simpl. eexists. split; [reflexivity|].
    intros r. unfold h'. rewrite (assign_ranks_last sorted 0 (assign_ranks sorted 0 h)).
    rewrite (assign_ranks_last sorted 0 h).
    destruct (last_rank sorted 0 r); [apply insert_insert_eq | reflexivity].
  - intros a b. unfold by_value.
    now rewrite (getValue_ext chain (h a) (h' a)), (getValue_ext chain (h b) (h' b))
      by (intros; now apply Hfield).
Qed.

(** ** Point shapes *)

Lemma retrieveBySuffix_found (pre post : list (string * value)) (key : string) (v : value)
  (field_suffix : string) :
  ends_with key field_suffix ->
  (forall other, In other pre -> ~ ends_with (fst other) field_suffix) ->
  retrieveBySuffix (VObj (pre ++ (key, v) :: post)) field_suffix = Return v.
Proof.
  intros Hkey Hpre. unfold retrieveBySuffix. simpl.
  rewrite (Array_find_first _ pre post (key, v)); [reflexivity | | ].
  - intros y Hy. apply endsWith_false. now apply Hpre.
  - now apply endsWith_spec.
Qed.

Lemma retrieveBySuffix_missing (fields : list (string * value)) (field_suffix : string) :
  (forall other, In other fields -> ~ ends_with (fst other) field_suffix) ->
  retrieveBySuffix (VObj fields) field_suffix = Return VNull.
Proof.
  intros Hnone. unfold retrieveBySuffix. simpl.
  rewrite Array_find_none; [reflexivity|].
  intros y Hy. apply endsWith_false. now apply Hnone.
Qed.

Lemma num_le_int (z : Z) (q : Q) : num_le (int z) (Finite q) = true <-> (inject_Z z <= q)%Q.
Proof.
  unfold num_le, int. simpl. rewrite orb_true_iff, negb_true_iff, Qeq_bool_iff.
  split.
  - intros [H | H]; [|rewrite H; apply Qle_refl].
    apply Qlt_le_weak, Qnot_le_lt. intros Hle%Qle_bool_iff. congruence.
  - intros H. destruct (Qle_bool q (inject_Z z)) eqn:E; [|now left].
    right. apply Qle_bool_iff in E. now apply Qle_antisym.
Qed.

(** X16.  The shape of a point is read from the first field whose name
    ends with [:pip_cluster]: when it holds a finite number, cluster 1
    is a cross, 2 a square, 3 a triangle pointing up, every number from
    4 on, whole or not, a triangle pointing down, and any other number
    gives [null]; the parameters play no part. *)
Theorem pip_cluster_shape (ToNumber_other : value -> completion number)
  (parameters : value) (pre post : list (string * value)) (key : string) (q : Q) :
  ends_with key ":pip_cluster" ->
  (forall other, In other pre -> ~ ends_with (fst other) ":pip_cluster") ->
  let shape := pip_cluster ToNumber_other parameters
                 (VObj (pre ++ (key, VNum (Finite q)) :: post)) in
  ((q == 1)%Q -> shape = Return (VStr "cross"))
  /\ ((q == 2)%Q -> shape = Return (VStr "square"))
  /\ ((q == 3)%Q -> shape = Return (VStr "triangle-up"))
  /\ ((4 <= q)%Q -> shape = Return (VStr "triangle-down"))
  /\ ((q < 4)%Q -> ~ (q == 1)%Q -> ~ (q == 2)%Q -> ~ (q == 3)%Q -> shape = Return VNull).
Proof.
  intros Hkey Hpre shape. subst shape. unfold pip_cluster. simpl negb. cbv match.
  rewrite (retrieveBySuffix_found pre post key _ ":pip_cluster" Hkey Hpre). simpl cbind.
  unfold is_number, num_eq, int.
  destruct (Qeq_bool q (inject_Z 1)) eqn:E1;
    [apply Qeq_bool_iff in E1 | apply Qeq_bool_neq in E1]; change (inject_Z 1) with 1%Q in E1;
    [repeat split; intros; try reflexivity; exfalso; lra|].
  destruct (Qeq_bool q (inject_Z 2)) eqn:E2;
    [apply Qeq_bool_iff in E2 | apply Qeq_bool_neq in E2]; change (inject_Z 2) with 2%Q in E2;
    [repeat split; intros; try reflexivity; exfalso; lra|].
  destruct (Qeq_bool q (inject_Z 3)) eqn:E3;
    [apply Qeq_bool_iff in E3 | apply Qeq_bool_neq in E3]; change (inject_Z 3) with 3%Q in E3;
    [repeat split; intros; try reflexivity; exfalso; lra|].
  simpl value_ToNumber. simpl cbind. change (Finite (inject_Z 4)) with (int 4).
  destruct (num_le (int 4) (Finite q)) eqn:E4.
  - apply num_le_int in E4. change (inject_Z 4) with 4%Q in E4.
    repeat split; intros; try reflexivity; try contradiction; exfalso; lra.
  - assert (N4 : ~ (4 <= q)%Q) by (rewrite <- (num_le_int 4 q); congruence).
    repeat split; intros; try reflexivity; contradiction.
Qed.

(** X17.  Without a cluster there is no shape: [pip_cluster] returns
    [null] on [undefined], on a number or a boolean, on an object none
    of whose fields ends with [:pip_cluster] and on one where the first
    such field holds [null], a boolean or NaN; on [null] it throws. *)
Theorem pip_cluster_null (ToNumber_other : value -> completion number) (parameters : value) :
  pip_cluster ToNumber_other parameters VUndefined = Return VNull
  /\ pip_cluster ToNumber_other parameters VNull = Throw (TypeError_to_object VNull)
  /\ (forall n, pip_cluster ToNumber_other parameters (VNum n) = Return VNull)
  /\ (forall b, pip_cluster ToNumber_other parameters (VBool b) = Return VNull)
  /\ (forall fields,
        (forall other, In other fields -> ~ ends_with (fst other) ":pip_cluster") ->
        pip_cluster ToNumber_other parameters (VObj fields) = Return VNull)
  /\ (forall pre key v post,
        ends_with key ":pip_cluster" ->
        (forall other, In other pre -> ~ ends_with (fst other) ":pip_cluster") ->
        v = VNull \/ v = VUndefined \/ v = VNum NaN \/ (exists b, v = VBool b) ->
        pip_cluster ToNumber_other parameters (VObj (pre ++ (key, v) :: post)) = Return VNull).
Proof.
  repeat split; try reflexivity.
  - intros fields Hnone. unfold pip_cluster. simpl negb. cbv match.
    now rewrite (retrieveBySuffix_missing fields ":pip_cluster" Hnone).
  - intros pre key v post Hkey Hpre Hv. unfold pip_cluster. simpl negb. cbv match.
    rewrite (retrieveBySuffix_found pre post key _ ":pip_cluster" Hkey Hpre).
    destruct Hv as [-> | [-> | [-> | [[] ->]]]]; reflexivity.
Qed.

(** ** The further properties on concrete inputs *)

Lemma classify_exact_witness :
  (exists m, classify "chr7:101258000" = Position m)
  /\ ~ lang chromposPattern "APOE" /\ ~ lang rangePattern "APOE" /\ ~ lang rsPattern "APOE".
Proof.
  split.
  - apply (proj1 (proj1 (classify_exact "chr7:101258000"))).
    apply (lang_chrompos_intro "chr" "7" "101258000").
    + right; reflexivity.
    + apply lang_chromosome_token_intro. left. exists "7"%char. split; reflexivity.
    + apply lang_position_digits_intro; [reflexivity | discriminate | reflexivity].
  - apply (proj1 (proj2 (proj2 (proj2 (classify_exact "APOE"))))). reflexivity.
Defined.

Lemma parseSearch_position_witness :
  parseSearch (fun _ => "") (fun _ => "") (fun _ => Pending) "chr7:101258000" [] =
    (Fulfilled VUndefined, [Location "/variant/7_101258000"]).
Proof.
  apply (parseSearch_position (fun _ => "") (fun _ => "") (fun _ => Pending)
           "chr" "7" "101258000" []).
  - right; reflexivity.
  - apply lang_chromosome_token_intro. left. exists "7"%char. split; reflexivity.
  - apply lang_position_digits_intro; [reflexivity | discriminate | reflexivity].
  - reflexivity.
Defined.

Lemma parseSearch_region_witness :
  parseSearch (fun _ => "") (fun _ => "") (fun _ => Pending) "2:1000-2000" [] =
    (Fulfilled VUndefined, [Location "/region/?chrom=2&start=1000&end=2000"]).
Proof.
  apply (parseSearch_region (fun _ => "") (fun _ => "") (fun _ => Pending)
           "" "2" "1000" "2000" []).
  - left; reflexivity.
  - apply lang_chromosome_token_intro. left. exists "2"%char. split; reflexivity.
  - apply lang_position_digits_intro; [reflexivity | discriminate | reflexivity].
  - apply lang_position_digits_intro; [reflexivity | discriminate | reflexivity].
  - reflexivity.
  - reflexivity.
Defined.

Lemma parseSearch_navigates_witness :
  parseSearchText (fun _ => "") (fun _ => "") net_rs7412 "rs7412" [] =
    (Fulfilled (location "variant" (VStr "chr19")
                  (VNum (int 44908822)) (VNum (int 44908822))),
     [Request (omniurl "rs7412")])
  /\ parseSearch (fun _ => "") (fun _ => "") net_rs7412 "rs7412" [] =
       (Fulfilled VUndefined,
        [Resolver (Request (omniurl "rs7412")); Location "/variant/19_44908822"]).
Proof.
  split; [reflexivity|].
  exact (proj1 (parseSearch_navigates (fun _ => "") (fun _ => "") net_rs7412 "rs7412"
                  "chr19" (VNum (int 44908822)) (VNum (int 44908822))
                  [Request (omniurl "rs7412")] [])
           eq_refl eq_refl).
Defined.

Lemma parseSearch_alerts_witness :
  parseSearchText (fun _ => "") (fun _ => "") (fun _ => not_found) "APOE" [] =
    (Fulfilled VUndefined,
     [Request (omniurl "APOE");
      Console "Omnisearch error, status code: Error: NOT FOUND";
      Console "Error status: TypeError: "])
  /\ exists added,
       parseSearch (fun _ => "") (fun _ => "") (fun _ => not_found) "APOE" [] =
         (Fulfilled VUndefined,
          [Resolver (Request (omniurl "APOE"));
           Resolver (Console "Omnisearch error, status code: Error: NOT FOUND");
           Resolver (Console "Error status: TypeError: ")] ++ added)
       /\ added = [Alert "Sorry, we are unable to parse your query.";
                   Resolver (Console "Error status: Omnisearch undefined or other");
                   Resolver (Console "Error status: TypeError: ")].
Proof.
  split; [reflexivity|].
  destruct (parseSearch_alerts (fun _ => "") (fun _ => "") (fun _ => not_found) "APOE"
              [Request (omniurl "APOE");
               Console "Omnisearch error, status code: Error: NOT FOUND";
               Console "Error status: TypeError: "] [] eq_refl)
    as (added & Hrun & Hadded & _).
  exists added. split; [exact Hrun | exact Hadded].
Defined.

Lemma parseSearch_silent_witness :
  classify "rs7412" = RsNumber
  /\ exists _ : error,
       parseSearch (fun _ => "") (fun _ => "") (net_no_gene_id "rs7412") "rs7412" [] =
         (Fulfilled VUndefined,
          [Resolver (Request (omniurl "rs7412"));
           Resolver (Console "Error status: TypeError: ")]).
Proof.
  split; [reflexivity|].
  apply (parseSearch_silent (fun _ => "") (fun _ => "") (net_no_gene_id "rs7412") "rs7412"
           no_gene_id_body (VObj []) VUndefined VUndefined VUndefined []);
    try reflexivity.
  intros c. discriminate.
Defined.

Lemma gene_branch_resolves_witness :
  classify "APOE" = GeneTerm
  /\ parseSearchText (fun _ => "") (fun _ => "") net_APOE "APOE" [] =
       (Fulfilled (VObj [("type", VStr "variant"); ("chrom", VStr "19");
                         ("start", VNum (int 44908822)); ("end", VNum (int 44908822))]),
        [Request (omniurl "APOE"); Request "/api/gene/ENSG00000130203/bestvar/"]).
Proof.
  split; [reflexivity|].
  exact (proj1 (gene_branch_resolves (fun _ => "") (fun _ => "") net_APOE "APOE"
                  APOE_body (VObj [("gene_id", VStr "ENSG00000130203")])
                  (VStr "ENSG00000130203") bestvar_body
                  (VObj [("pos", VStr "44908822"); ("chrom", VStr "chr19")])
                  (VStr "44908822") "chr19" []
                  eq_refl eq_refl eq_refl eq_refl eq_refl eq_refl eq_refl eq_refl
                  eq_refl eq_refl)).
Defined.

Lemma gene_branch_without_chrom_witness :
  let net := serve (omniurl "APOE") (ok_response APOE_body)
               (serve "/api/gene/ENSG00000130203/bestvar/"
                  (ok_response (VObj [("data", VObj [("pos", VStr "44908822")])]))
                  (fun _ => not_found)) in
  classify "APOE" = GeneTerm
  /\ parseSearchText (fun _ => "") (fun _ => "") net "APOE" [] =
       (Fulfilled VUndefined,
        [Request (omniurl "APOE"); Request "/api/gene/ENSG00000130203/bestvar/";
         Console ("Unable to the best variant for the gene " +:+ dquote
                  +:+ "ENSG00000130203" +:+ dquote)]).
Proof.
  intros net. split; [reflexivity|].
  exact (gene_branch_without_chrom (fun _ => "") (fun _ => "") net "APOE"
           APOE_body (VObj [("gene_id", VStr "ENSG00000130203")])
           (VStr "ENSG00000130203")
           (VObj [("data", VObj [("pos", VStr "44908822")])])
           (VObj [("pos", VStr "44908822")])
           VUndefined []
           eq_refl eq_refl eq_refl eq_refl eq_refl eq_refl eq_refl eq_refl
           (fun c H => eq_ind VUndefined
                         (fun v => match v with VUndefined => True | _ => False end)
                         I (VStr c) H)).
Defined.

Lemma sample_records_distinct : List.NoDup [0; 2]%nat.
Proof.
  constructor; [intros [H | []]; discriminate|].
  constructor; [intros []|constructor].
Qed.

Lemma annotateData_ranks_one_to_n_witness :
  exists h',
    annotateData (sample_header "beta") sample_store [0; 1; 2]%nat = Return ([0; 2]%nat, h')
    /\ (forall k, (1 <= k <= 2)%Z ->
          exists r, In r [0; 2]%nat /\ h' r !! "top_value_rank" = Some (int k))
    /\ (forall r r', In r [0; 2]%nat -> In r' [0; 2]%nat ->
          h' r !! "top_value_rank" = h' r' !! "top_value_rank" -> r = r').
Proof.
  exact (annotateData_ranks_one_to_n (sample_header "beta") sample_store [0; 1; 2]%nat
           eq_refl sample_records_distinct).
Defined.

Lemma annotateData_rank_order_witness :
  (sample_store 0%nat !! "beta" = Some (Finite (-3 # 2))
   /\ sample_store 2%nat !! "beta" = Some (Finite (1 # 2)))
  /\ exists h',
       annotateData (sample_header "beta") sample_store [0; 1; 2]%nat
         = Return ([0; 2]%nat, h')
       /\ (forall r r' k k',
             In r [0; 2]%nat -> In r' [0; 2]%nat ->
             h' r !! "top_value_rank" = Some (int k) ->
             h' r' !! "top_value_rank" = Some (int k') ->
             (k <= k')%Z ->
             num_le (ranked_value "beta" (sample_store r'))
                    (ranked_value "beta" (sample_store r)) = true)
       /\ forall k k',
            h' 0%nat !! "top_value_rank" = Some (int k) ->
            h' 2%nat !! "top_value_rank" = Some (int k') -> (k < k')%Z.
Proof.
  split; [split; reflexivity|].
  destruct (annotateData_rank_order (sample_header "beta") sample_store [0; 1; 2]%nat
              "beta" eq_refl eq_refl sample_records_distinct)
    as (h' & Hret & Horder).
  { intros r [<- | [<- | []]]; discriminate. }
  exists h'. split; [exact Hret|]. split; [exact Horder|].
  intros k k' Hk Hk'. destruct (Z_lt_le_dec k k') as [Hlt | Hle]; [exact Hlt|].
  assert (H := Horder 2%nat 0%nat k' k (or_intror (or_introl eq_refl)) (or_introl eq_refl)
                 Hk' Hk Hle).
  discriminate H.
Defined.

Lemma annotateData_leaves_others_witness :
  annotateData (sample_header "beta") sample_store [0; 1; 2]%nat
    = Return ([0; 2]%nat, assign_ranks [0; 2]%nat 0 sample_store)
  /\ assign_ranks [0; 2]%nat 0 sample_store 1%nat = sample_store 1%nat.
Proof.
  split; [reflexivity|].
  apply (proj2 (annotateData_leaves_others (sample_header "beta") sample_store
                  [0; 1; 2]%nat [0; 2]%nat (assign_ranks [0; 2]%nat 0 sample_store)
                  eq_refl)).
  intros [H | [H | []]]; discriminate.
Defined.

Lemma annotateData_again_witness :
  exists h'',
    annotateData (sample_header "beta") (assign_ranks [0; 2]%nat 0 sample_store)
      [0; 1; 2]%nat = Return ([0; 2]%nat, h'')
    /\ forall r, h'' r = assign_ranks [0; 2]%nat 0 sample_store r.
Proof.
  exact (annotateData_again (sample_header "beta") sample_store
           [0; 1; 2]%nat [0; 2]%nat (assign_ranks [0; 2]%nat 0 sample_store) eq_refl).
Defined.

Lemma pip_cluster_shape_witness :
  pip_cluster (fun _ => Return NaN) VNull
    (VObj [("assoc:pip", VNum (int 1)); ("assoc:pip_cluster", VNum (int 2))])
  = Return (VStr "square")
  /\ pip_cluster (fun _ => Return NaN) VNull
       (VObj [("assoc:pip", VNum (int 1)); ("assoc:pip_cluster", VNum (Finite (9 # 2)))])
     = Return (VStr "triangle-down").
Proof.
  assert (Hkey : ends_with "assoc:pip_cluster" ":pip_cluster")
    by (exists "assoc"; reflexivity).
  assert (Hpre : forall other, In other [("assoc:pip", VNum (int 1))] ->
                   ~ ends_with (fst other) ":pip_cluster")
    by (intros other [<- | []]; apply endsWith_false; reflexivity).
  split.
  - apply (proj1 (proj2 (pip_cluster_shape (fun _ => Return NaN) VNull
                           [("assoc:pip", VNum (int 1))] [] "assoc:pip_cluster" 2
                           Hkey Hpre))).
    reflexivity.
  - apply (proj1 (proj2 (proj2 (proj2 (pip_cluster_shape (fun _ => Return NaN) VNull
                           [("assoc:pip", VNum (int 1))] [] "assoc:pip_cluster" (9 # 2)
                           Hkey Hpre))))).
    discriminate.
Defined.

Lemma parseSearchText_request_budget_witness :
  exists r evs,
    parseSearchText (fun _ => "") (fun _ => "") net_APOE "APOE" [] = (r, evs)
    /\ (length (console_lines evs) <= 2)%nat
    /\ ((requests evs = [omniurl "APOE"]
         /\ forall myJson result gene_id,
              http_result (net_APOE (omniurl "APOE")) = Fulfilled myJson ->
              data_0 myJson = Return result ->
              get result "gene_id" = Return gene_id -> printable gene_id = false)
        \/ (exists myJson result gene_id,
               http_result (net_APOE (omniurl "APOE")) = Fulfilled myJson
               /\ data_0 myJson = Return result
               /\ get result "gene_id" = Return gene_id
               /\ printable gene_id = true
               /\ requests evs = [omniurl "APOE"; bestVarURL (fun _ => "") gene_id])).
Proof.
  exact (parseSearchText_request_budget (fun _ => "") (fun _ => "") net_APOE "APOE" []).
Defined.
